(** * DetectAndTrack: the sequence-processing harness of tracking-by-detection

    A shallow embedding of [src/examples/DetectAndTrack.cpp]: the per-sequence
    pipeline [detectAndTrack] and the batch loop of [main], over an explicit
    world (file system, wall clock, the shared detector object, the heap of
    tracker objects and a time-stamped trace of the operations performed).

    Conventions.
    - [int] values are [Z] with the 32-bit wrap-around written out ([int_wrap]).
    - [double] values are the kernel's binary64 floats ([PrimFloat.float]).
    - A file-system location is the list of its path components; the strings a
      [boost::filesystem::path] is built from are resolved by [components].

    Limits.
    - A path component is an ordinary name: [.] and [..] are not resolved and
      two lists of components never denote the same location, so that a
      sequence given as [./seq01] is another directory than [seq01] here.
    - [path_str] writes a location with single slashes; the program prints
      the path as it was concatenated.
    - An input stream opens on a regular file only ([ifstream_open]); what
      the program does with a directory at the path of the sequences file or
      of the model configuration is outside the model.
    - The detector and the tracker always return ([detect], [track]); a
      collaborator that fails is outside the model.
    - Where the language leaves a conversion undefined the run is cut
      ([HUndefined]): nothing is said about what a compiled program does from
      that point on. *)

From Stdlib Require Import Ascii String ZArith Floats.
From Stdlib Require Import DecimalString DecimalZ DecimalPos.
From stdpp Require Import gmap strings list sorting.

Local Open Scope Z_scope.

(* String concatenation reduces on a constructor, as list concatenation does. *)
#[local] Arguments append !s1 s2 : simpl nomatch.

(** ** Machine integers *)

Definition INT_MAX : Z := 2147483647.
Definition LLONG_MIN : Z := - 2 ^ 63.
Definition LLONG_MAX : Z := 2 ^ 63 - 1.

(** Two's-complement reduction of a mathematical integer to [int]. *)
Definition int_wrap (z : Z) : Z := (z + 2 ^ 31) mod 2 ^ 32 - 2 ^ 31.

(** ** Doubles and durations *)

(** [double(z)] / [static_cast<double>(z)]: conversion of an integer to
    binary64, rounding to nearest even. *)
Definition double_of_Z (z : Z) : float :=
  SF2Prim (binary_normalize prec emax z 0 false).

(** [std::chrono::duration<double, std::milli>]: a count of milliseconds held
    in a double. *)
Definition msduration : Type := float.

(** [msduration(0)] and [std::chrono::milliseconds::zero()] converted to
    [msduration]. *)
Definition msduration_zero : msduration := double_of_Z 0.

(** Implicit conversion of a [high_resolution_clock::duration] (a signed count
    of nanoseconds) to [msduration]: [double(count) / double(1000000)]. *)
Definition ms_of_ticks (ticks : Z) : msduration :=
  (double_of_Z ticks / double_of_Z 1000000)%float.

(** [duration_cast<std::chrono::milliseconds>(d).count()]:
    [static_cast<long long>] of the double, which truncates toward zero and is
    undefined ([None]) for NaN, the infinities and values out of range. *)
Definition count_ms (d : msduration) : option Z :=
  match Prim2SF d with
  | S754_zero _ => Some 0
  | S754_finite s m e =>
      let v := if 0 <=? e then Z.pos m * 2 ^ e else Z.pos m / 2 ^ (- e) in
      let r := if s then - v else v in
      if (LLONG_MIN <=? r) && (r <=? LLONG_MAX) then Some r else None
  | S754_infinity _ | S754_nan => None
  end.

(** [double(frameCount * 1000) / duration] (lines 156 and 163): an [int]
    product converted to double, divided by a [long long] converted to
    double. *)
Definition throughput (frameCount duration : Z) : float :=
  (double_of_Z (int_wrap (frameCount * 1000)) / double_of_Z duration)%float.

(** ** Text *)

Abbreviation LF := ("010"%char) (only parsing).
Abbreviation COMMA := (","%char) (only parsing).
Abbreviation SLASH := ("/"%char) (only parsing).

(** [operator<<] on an integer: its decimal numeral. *)
Definition show_int (z : Z) : string := NilZero.string_of_int (Z.to_int z).

(** The inverse reading of a decimal numeral. *)
Definition read_int (s : string) : option Z :=
  option_map Z.of_int (NilZero.int_of_string s).

(** ** Trackings and their rows *)

(** Modelled from the spec: the declarations of [BoundingBox] and [Tracking]
    ([Tracking.h], [BoundingBox.h]) are not part of the sources at hand.  The
    data model gives a Tracking a label, an integer identity and a bounding box
    by top-left corner, width and height in pixel coordinates; the source reads
    [bb.x1()], [bb.y1()], [bb.width] and [bb.height]. *)
Record BoundingBox : Type := mkBB { x1 : Z; y1 : Z; width : Z; height : Z }.
Record Tracking : Type := mkTracking { label : string; ID : Z; bb : BoundingBox }.

Definition ROW_SUFFIX : string := "1,-1,-1,-1" +:+ String LF "".

(** Lines 82-89: the text one Tracking contributes to the output stream. *)
Definition row (frameCount : Z) (t : Tracking) : string :=
  show_int frameCount +:+ "," +:+
  label t +:+ "," +:+
  show_int (ID t) +:+ "," +:+
  show_int (x1 (bb t)) +:+ "," +:+
  show_int (y1 (bb t)) +:+ "," +:+
  show_int (width (bb t)) +:+ "," +:+
  show_int (height (bb t)) +:+ "," +:+
  ROW_SUFFIX.

(** Lines 81-90: the rows of one frame, in the order of the tracker's result. *)
Definition frame_rows (frameCount : Z) (trackings : list Tracking) : string :=
  foldr (λ t acc, row frameCount t +:+ acc) "" trackings.

(** ** Paths *)

Definition path : Type := list string.

(** Components of a path string: the maximal runs of characters other than
    the separator. *)
Fixpoint components_go (cur : string) (s : string) : path :=
  match s with
  | EmptyString => if decide (cur = "") then [] else [cur]
  | String c s' =>
      if decide (c = SLASH)
      then (if decide (cur = "") then components_go "" s'
            else cur :: components_go "" s')
      else components_go (cur +:+ String c "") s'
  end.

Definition components (s : string) : path := components_go "" s.

(** [path::c_str()] of a location, for messages. *)
Definition path_str (p : path) : string :=
  foldr (λ c acc, "/" +:+ c +:+ acc) "" p.

(** [operator<] on paths: lexicographic over the components, each compared as
    a string. *)
Fixpoint path_le (p q : path) : Prop :=
  match p, q with
  | [], _ => True
  | _ :: _, [] => False
  | a :: p', b :: q' => if decide (a = b) then path_le p' q' else String.le a b
  end.

Global Instance path_le_dec : RelDecision path_le.
Proof.
  intros p. induction p as [|a p IH]; intros [|b q]; simpl; try apply _.
  destruct (decide (a = b)); [apply IH | apply _].
Defined.

(** [std::sort(imagePaths.begin(), imagePaths.end())]. *)
Definition std_sort (l : list path) : list path := merge_sort path_le l.

Global Instance path_le_total : Total path_le.
Proof.
  intros p. induction p as [|a p IH]; intros [|b q]; simpl; auto.
  destruct (decide (a = b)) as [->|Hab].
  - rewrite decide_True by done. apply IH.
  - rewrite decide_False by congruence. apply (total String.le).
Qed.

Global Instance path_le_trans : Transitive path_le.
Proof.
  intros p. induction p as [|a p IH]; intros [|b q] [|c r]; simpl; try done.
  destruct (decide (a = b)) as [->|Hab], (decide (b = c)) as [->|Hbc];
    try done.
  - apply IH.
  - rewrite decide_False by done. done.
  - intros H1 H2. destruct (decide (a = c)) as [->|Hac].
    + destruct Hab. by apply (anti_symm String.le).
    + by etrans.
Qed.

Global Instance path_le_antisym : AntiSymm (=) path_le.
Proof.
  intros p. induction p as [|a p IH]; intros [|b q]; simpl; try done.
  destruct (decide (a = b)) as [->|Hab].
  - rewrite decide_True by done. intros H1 H2. f_equal. by apply IH.
  - rewrite decide_False by congruence. intros H1 H2.
    destruct Hab. by apply (anti_symm String.le).
Qed.

(** ** File system *)

Record FS : Type := mkFS {
  dirs : gset path;          (* the directories *)
  files : gmap path string   (* the regular files and their contents *)
}.

Definition parent (p : path) : option path :=
  match p with
  | [] => None
  | _ => Some (removelast p)
  end.

(** The non-empty prefixes of a path, shortest first. *)
Fixpoint prefixes (p : path) : list path :=
  match p with
  | [] => []
  | c :: p' => [c] :: map (cons c) (prefixes p')
  end.

Definition fs_is_directory (fs : FS) (p : path) : bool :=
  bool_decide (p ∈ dirs fs).

Definition fs_exists (fs : FS) (p : path) : bool :=
  bool_decide (p ∈ dirs fs) || bool_decide (is_Some (files fs !! p)).

(** [create_directories]: every missing ancestor and the path itself become
    directories; the call throws ([None]) when one of them is a regular
    file. *)
Definition fs_create_directories (fs : FS) (p : path) : option FS :=
  if bool_decide (Exists (λ q, is_Some (files fs !! q)) (prefixes p))
  then None
  else Some (mkFS (dirs fs ∪ list_to_set (prefixes p)) (files fs)).

(** The entries of a directory, in the order the sets are enumerated. *)
Definition fs_entries (fs : FS) (d : path) : list path :=
  filter (λ p, parent p = Some d) (elements (dirs fs ∪ dom (files fs))).

(** Appending to a regular file. *)
Definition fs_append (fs : FS) (p : path) (s : string) : FS :=
  mkFS (dirs fs) (<[p := default "" (files fs !! p) +:+ s]> (files fs)).

(** ** Reading lines *)

(** The lines [std::getline] delivers from a stream holding [s], until it
    fails: a line ends at a line feed or at the end of the stream, and the
    call that extracts no character at the end of the stream fails. *)
Fixpoint lines_go (cur : option string) (s : string) : list string :=
  match s with
  | EmptyString => match cur with None => [] | Some l => [l] end
  | String c s' =>
      if decide (c = LF) then default "" cur :: lines_go None s'
      else lines_go (Some (default "" cur +:+ String c "")) s'
  end.

Definition getlines (s : string) : list string := lines_go None s.

(** ** Reading the rows back *)

Fixpoint has_char (c : ascii) (s : string) : bool :=
  match s with
  | EmptyString => false
  | String a s' => bool_decide (a = c) || has_char c s'
  end.

(** A label that the row format can carry: no comma and no line feed. *)
Definition plain (s : string) : bool :=
  negb (has_char COMMA s) && negb (has_char LF s).

(** The fields of a line: the runs of characters between commas. *)
Fixpoint fields_go (cur : string) (s : string) : list string :=
  match s with
  | EmptyString => [cur]
  | String c s' =>
      if decide (c = COMMA) then cur :: fields_go "" s'
      else fields_go (cur +:+ String c "") s'
  end.

Definition fields (s : string) : list string := fields_go "" s.

(** A parser for the declared column layout
    [frameIndex,label,ID,x1,y1,width,height,1,-1,-1,-1]. *)
Definition parse_row (line : string) : option (Z * Tracking) :=
  match fields line with
  | [f; l; i; x; y; w; h; c1; c2; c3; c4] =>
      if decide ([c1; c2; c3; c4] = ["1"; "-1"; "-1"; "-1"]%string) then
        f' ← read_int f; i' ← read_int i;
        x' ← read_int x; y' ← read_int y;
        w' ← read_int w; h' ← read_int h;
        Some (f', mkTracking l i' (mkBB x' y' w' h'))
      else None
  | _ => None
  end.

(** The rows of a text, line by line. *)
Definition parse_rows (text : string) : option (list (Z * Tracking)) :=
  mapM parse_row (getlines text).

Lemma app_assoc_s (a b c : string) : (a +:+ b) +:+ c = a +:+ (b +:+ c).
Proof. induction a as [|x a IH]; simpl; [done | by rewrite IH]. Qed.

Lemma app_nil_r_s (a : string) : a +:+ "" = a.
Proof. induction a as [|x a IH]; simpl; [done | by rewrite IH]. Qed.

Lemma has_char_app c a b : has_char c (a +:+ b) = has_char c a || has_char c b.
Proof.
  induction a as [|x a IH]; simpl; [done |]. by rewrite IH, orb_assoc.
Qed.

Lemma fields_go_comma cur s rest :
  has_char COMMA s = false →
  fields_go cur (s +:+ String COMMA rest) = (cur +:+ s) :: fields_go "" rest.
Proof.
  revert cur. induction s as [|a s IH]; intros cur; simpl.
  - intros _. by rewrite app_nil_r_s.
  - intros [Ha Hs]%orb_false_elim. apply bool_decide_eq_false in Ha.
    rewrite decide_False by done. rewrite IH by done.
    by rewrite app_assoc_s.
Qed.

Lemma fields_go_last cur s :
  has_char COMMA s = false → fields_go cur s = [cur +:+ s].
Proof.
  revert cur. induction s as [|a s IH]; intros cur; simpl.
  - intros _. by rewrite app_nil_r_s.
  - intros [Ha Hs]%orb_false_elim. apply bool_decide_eq_false in Ha.
    rewrite decide_False by done. rewrite IH by done.
    by rewrite app_assoc_s.
Qed.

Lemma lines_go_line cur s rest :
  has_char LF s = false →
  lines_go cur (s +:+ String LF rest)
  = (default "" cur +:+ s) :: lines_go None rest.
Proof.
  revert cur. induction s as [|a s IH]; intros cur; simpl.
  - intros _. by rewrite app_nil_r_s.
  - intros [Ha Hs]%orb_false_elim. apply bool_decide_eq_false in Ha.
    rewrite decide_False by done. rewrite IH by done. simpl.
    by rewrite app_assoc_s.
Qed.

(** Decimal numerals consist of digits and at most a sign. *)
Definition numeral_char (c : ascii) : bool :=
  has_char c "0123456789-".

Lemma has_char_uint c d :
  numeral_char c = false → has_char c (NilEmpty.string_of_uint d) = false.
Proof.
  intros Hc. unfold numeral_char in Hc. simpl in Hc.
  repeat (apply orb_false_elim in Hc as [? Hc]).
  induction d; simpl; rewrite ?IHd; rewrite ?orb_false_r; done.
Qed.

Lemma has_char_show_int c z :
  numeral_char c = false → has_char c (show_int z) = false.
Proof.
  intros Hc. unfold show_int.
  assert (Hm : bool_decide ("-"%char = c) = false).
  { unfold numeral_char in Hc. simpl in Hc.
    repeat (apply orb_false_elim in Hc as [? Hc]). done. }
  assert (Hz : bool_decide ("0"%char = c) = false).
  { unfold numeral_char in Hc. simpl in Hc.
    repeat (apply orb_false_elim in Hc as [? Hc]). done. }
  assert (Hu : ∀ d, has_char c (NilZero.string_of_uint d) = false).
  { intros d. destruct d; try (by apply has_char_uint). simpl. by rewrite Hz. }
  destruct (Z.to_int z); simpl; rewrite ?Hu, ?Hm; done.
Qed.

Lemma read_show_int z : read_int (show_int z) = Some z.
Proof.
  unfold read_int, show_int. rewrite NilZero.isi.
  - simpl. by rewrite DecimalZ.of_to.
  - destruct z; simpl; try done.
    intros [= H]. by apply DecimalPos.Unsigned.to_uint_nonnil in H.
  - destruct z; simpl; try done.
    intros [= H]. by apply DecimalPos.Unsigned.to_uint_nonnil in H.
Qed.

Lemma show_int_no_comma z : has_char COMMA (show_int z) = false.
Proof. by apply has_char_show_int. Qed.

Lemma show_int_no_LF z : has_char LF (show_int z) = false.
Proof. by apply has_char_show_int. Qed.


(** The columns of the row of a Tracking, in the declared layout. *)
Definition columns (k : Z) (t : Tracking) : list string :=
  [show_int k; label t; show_int (ID t);
   show_int (x1 (bb t)); show_int (y1 (bb t));
   show_int (width (bb t)); show_int (height (bb t));
   "1"; "-1"; "-1"; "-1"]%string.

(** The row of a Tracking without the line feed that ends it. *)
Definition row_line (k : Z) (t : Tracking) : string :=
  show_int k +:+ "," +:+
  label t +:+ "," +:+
  show_int (ID t) +:+ "," +:+
  show_int (x1 (bb t)) +:+ "," +:+
  show_int (y1 (bb t)) +:+ "," +:+
  show_int (width (bb t)) +:+ "," +:+
  show_int (height (bb t)) +:+ "," +:+
  "1,-1,-1,-1".

Lemma row_row_line k t : row k t = row_line k t +:+ String LF "".
Proof. unfold row, row_line, ROW_SUFFIX. by rewrite !app_assoc_s. Qed.

Lemma fields_row_line k t :
  has_char COMMA (label t) = false → fields (row_line k t) = columns k t.
Proof.
  intros Hl. unfold fields, row_line. simpl append.
  rewrite !fields_go_comma by (done || apply show_int_no_comma).
  done.
Qed.

Lemma parse_row_line k t :
  has_char COMMA (label t) = false → parse_row (row_line k t) = Some (k, t).
Proof.
  intros Hl. unfold parse_row. rewrite fields_row_line by done.
  unfold columns. rewrite decide_True by done.
  rewrite !read_show_int. simpl. by destruct t as [? ? []].
Qed.

Lemma row_line_no_LF k t :
  has_char LF (label t) = false → has_char LF (row_line k t) = false.
Proof.
  intros Hl. unfold row_line.
  rewrite !has_char_app, !show_int_no_LF, Hl. done.
Qed.

Lemma plain_elim s :
  plain s = true → has_char COMMA s = false ∧ has_char LF s = false.
Proof.
  unfold plain. intros [H1 H2]%andb_prop.
  by apply negb_true_iff in H1, H2.
Qed.

Lemma lines_go_frame_rows k ts rest :
  Forall (λ t, plain (label t) = true) ts →
  lines_go None (frame_rows k ts +:+ rest)
  = map (row_line k) ts ++ lines_go None rest.
Proof.
  induction 1 as [|t ts Ht _ IH]; simpl; [done |].
  apply plain_elim in Ht as [_ Ht].
  rewrite row_row_line, !app_assoc_s. simpl append.
  rewrite lines_go_line by (by apply row_line_no_LF).
  simpl. by rewrite IH.
Qed.

Lemma getlines_frame_rows k ts :
  Forall (λ t, plain (label t) = true) ts →
  getlines (frame_rows k ts) = map (row_line k) ts.
Proof.
  intros H. unfold getlines.
  rewrite <- (app_nil_r_s (frame_rows k ts)), lines_go_frame_rows by done.
  simpl. by rewrite app_nil_r.
Qed.

Lemma parse_rows_frame_rows k ts :
  Forall (λ t, plain (label t) = true) ts →
  parse_rows (frame_rows k ts) = Some (map (pair k) ts).
Proof.
  intros H. unfold parse_rows. rewrite getlines_frame_rows by done.
  apply mapM_Some. induction H as [|t ts Ht _ IH]; simpl; constructor; [|done].
  apply plain_elim in Ht as [Ht _]. by apply parse_row_line.
Qed.

(** ** Facts about locations *)

Lemma shift_head {A} (x a : A) (s t u : list A) :
  x :: s ++ t = s ++ a :: u → x = a.
Proof.
  revert x. induction s as [|y s IH]; intros x; simpl.
  - by intros [= -> _].
  - intros [= -> H]. by apply IH in H.
Qed.

Lemma parent_snoc (d : path) (x : string) : parent (d ++ [x]) = Some d.
Proof.
  unfold parent. destruct (d ++ [x]) eqn:H.
  - by destruct d.
  - by rewrite <- H, removelast_last.
Qed.

Lemma parent_Some (p d : path) : parent p = Some d → ∃ x, p = d ++ [x].
Proof.
  destruct p as [|c p]; [done |].
  destruct (exists_last (l := c :: p)) as (q & x & Heq); [done |].
  rewrite Heq, parent_snoc. intros [= <-]. by exists x.
Qed.

Lemma elem_of_prefixes (q p : path) :
  q ∈ prefixes p ↔ q ≠ [] ∧ q `prefix_of` p.
Proof.
  revert q. induction p as [|c p IH]; intros q; simpl.
  - split; [by intros ?%elem_of_nil |].
    intros [Hne [k Hk]]. by destruct q.
  - rewrite elem_of_cons, list_elem_of_fmap. split.
    + intros [->|(q' & -> & Hq')].
      * split; [done |]. by exists p.
      * apply IH in Hq' as [_ Hpre]. split; [done |]. by apply prefix_cons.
    + intros [Hne Hpre]. destruct q as [|c' q]; [done |].
      pose proof (prefix_cons_inv_1 _ _ _ _ Hpre) as ->.
      apply prefix_cons_inv_2 in Hpre.
      destruct q as [|c'' q]; [by left |]. right.
      exists (c'' :: q). split; [done |]. apply IH. by split.
Qed.

Lemma fs_entries_Permutation (fs fs' : FS) (d : path) :
  (∀ p, parent p = Some d →
        (p ∈ dirs fs' ∪ dom (files fs') ↔ p ∈ dirs fs ∪ dom (files fs))) →
  fs_entries fs' d ≡ₚ fs_entries fs d.
Proof.
  intros H. unfold fs_entries.
  apply NoDup_Permutation; try (apply NoDup_filter, NoDup_elements).
  intros p. rewrite !list_elem_of_filter, !elem_of_elements.
  split; intros [Hp Hin]; (split; [done |]); by apply H.
Qed.

Lemma fs_entries_parent (fs : FS) (d p : path) :
  p ∈ fs_entries fs d → parent p = Some d.
Proof. unfold fs_entries. rewrite list_elem_of_filter. by intros [? _]. Qed.

Lemma int_wrap_small (z : Z) : - 2 ^ 31 ≤ z ≤ INT_MAX → int_wrap z = z.
Proof.
  unfold int_wrap, INT_MAX. intros H.
  rewrite Z.mod_small by lia. lia.
Qed.

Lemma path_le_snoc (d : path) (a b : string) :
  path_le (d ++ [a]) (d ++ [b]) ↔ String.le a b.
Proof.
  induction d as [|c d IH]; simpl.
  - destruct (decide (a = b)) as [->|]; [|done].
    split; [reflexivity | done].
  - by rewrite decide_True.
Qed.

(** The entries of a directory are the directory followed by a file name. *)
Lemma entries_names (d : path) (paths : list path) :
  Forall (λ p, parent p = Some d) paths →
  ∃ names, paths = (λ name, d ++ [name]) <$> names.
Proof.
  induction 1 as [|p paths Hp _ [names ->]].
  - by exists [].
  - apply parent_Some in Hp as [x ->]. by exists (x :: names).
Qed.

Lemma StronglySorted_names (d : path) (names : list string) :
  StronglySorted path_le ((λ name, d ++ [name]) <$> names) →
  StronglySorted String.le names.
Proof.
  induction names as [|a names IH]; [constructor |].
  rewrite fmap_cons. intros [Hs Hall]%StronglySorted_inv.
  constructor; [by apply IH |].
  rewrite Forall_fmap in Hall. eapply Forall_impl; [exact Hall |].
  intros b. apply path_le_snoc.
Qed.

(** ** The declared row format

    The format as the specification words it: the columns
    [frameIndex,label,ID,x1,y1,width,height,1,-1,-1,-1] separated by commas,
    one row per line.  The rows the code writes are compared with this
    text. *)
Definition declared_row (frameIndex : Z) (t : Tracking) : string :=
  String.concat "," (columns frameIndex t) +:+ String LF "".

Definition declared_rows (rows : list (Z * Tracking)) : string :=
  foldr (λ r acc, declared_row r.1 r.2 +:+ acc) "" rows.

(** The Trackings of frame groups, each with the position of its group. *)
Definition indexed (groups : list (list Tracking)) : list (Z * Tracking) :=
  concat (imap (λ i g, pair (Z.of_nat i) <$> g) groups).

Lemma row_line_declared k t : row_line k t = String.concat "," (columns k t).
Proof. reflexivity. Qed.

Lemma row_declared k t : row k t = declared_row k t.
Proof. by rewrite row_row_line, row_line_declared. Qed.

Lemma declared_rows_app r1 r2 :
  declared_rows (r1 ++ r2) = declared_rows r1 +:+ declared_rows r2.
Proof.
  induction r1 as [|r r1 IH]; [done |].
  cbn [app declared_rows foldr]. fold (declared_rows (r1 ++ r2)).
  fold (declared_rows r1). by rewrite IH, app_assoc_s.
Qed.

Lemma frame_rows_declared k ts :
  frame_rows k ts = declared_rows (pair k <$> ts).
Proof.
  induction ts as [|t ts IH]; [done |].
  rewrite fmap_cons. cbn [frame_rows declared_rows foldr fst snd].
  fold (frame_rows k ts). fold (declared_rows (pair k <$> ts)).
  by rewrite IH, row_declared.
Qed.

Lemma frame_groups_declared (f : nat → Z) (groups : list (list Tracking)) :
  foldr append "" (imap (λ i g, frame_rows (f i) g) groups)
  = declared_rows (concat (imap (λ i g, pair (f i) <$> g) groups)).
Proof.
  revert f. induction groups as [|g groups IH]; intros f; [done |].
  rewrite !imap_cons. cbn [foldr concat].
  rewrite declared_rows_app, frame_rows_declared. f_equal.
  apply (IH (f ∘ S)).
Qed.

Lemma lines_go_declared_rows rows rest :
  Forall (λ r, plain (label r.2) = true) rows →
  lines_go None (declared_rows rows +:+ rest)
  = ((λ r, row_line r.1 r.2) <$> rows) ++ lines_go None rest.
Proof.
  induction 1 as [|[k t] rows Ht _ IH]; [done |].
  apply plain_elim in Ht as [_ Ht]. cbn [fst snd] in Ht.
  cbn [declared_rows foldr fst snd]. fold (declared_rows rows).
  rewrite <- row_declared, row_row_line, !app_assoc_s. simpl append.
  rewrite lines_go_line by (by apply row_line_no_LF).
  rewrite fmap_cons. simpl. by rewrite IH.
Qed.

(** A parser of the declared layout reads declared rows back, when no label
    holds a separator. *)
Lemma parse_rows_declared rows :
  Forall (λ r, plain (label r.2) = true) rows →
  parse_rows (declared_rows rows) = Some rows.
Proof.
  intros H. unfold parse_rows, getlines.
  rewrite <- (app_nil_r_s (declared_rows rows)), lines_go_declared_rows
    by done.
  simpl. rewrite app_nil_r. apply mapM_Some.
  induction H as [|[k t] rows Ht _ IH]; simpl; constructor; [|done].
  apply plain_elim in Ht as [Ht _]. by apply parse_row_line.
Qed.

Lemma indexed_Forall (P : Tracking → Prop) (groups : list (list Tracking)) :
  Forall (Forall P) groups → Forall (λ r, P r.2) (indexed groups).
Proof.
  unfold indexed. generalize Z.of_nat as f. intros f H. revert f.
  induction H as [|g groups Hg _ IH]; intros f; [constructor |].
  rewrite imap_cons. cbn [concat]. apply Forall_app. split.
  - apply Forall_fmap. eapply Forall_impl; [exact Hg |]. done.
  - apply (IH (f ∘ S)).
Qed.
(** ** Messages and exit statuses *)

Definition OPEN_FILE_MESSAGE : string := "Could not open file %s" +:+ String LF "".
Definition OPEN_DIR_MESSAGE : string := "Could not open directory %s" +:+ String LF "".
Definition FILE_EXISTS_MESSAGE : string :=
  "Output file %s already exists; don't overwrite" +:+ String LF "".

Definition EXIT_SUCCESS : Z := 0.
Definition EXIT_FAILURE : Z := 1.

(** What is inserted into [std::cout] by one statement. *)
Inductive Item : Type :=
| IStr (s : string)
| IInt (z : Z)
| IDouble (x : float).

(** How a run ends other than by returning. *)
Inductive Halt : Type :=
| HExit (status : Z)    (* [exit(status)] *)
| HThrow                (* an exception nobody catches *)
| HUndefined.           (* behaviour the language leaves undefined *)

Section Harness.

(** *** The external collaborators

    Images and their decoder, the detector (one shared object, possibly
    stateful), the tracker (constructed per [ImageTracker]), and what the
    environment decides: which files may be written, in which order a
    directory is enumerated, and where the data directory is. *)
Context {Image Detection DetectorState TrackerState : Type}.
Variable cv_imread : option string → Image.
Variable detect : DetectorState → Image → DetectorState * list Detection.
Variable MCSORT_new : TrackerState.
Variable track : TrackerState → list Detection → TrackerState * list Tracking.
Variable permits_write : path → bool.
Variable dir_order : list path → list path.
Variable dataDirPath : path.

(** *** Operations, the world and the trace *)

Inductive Event : Type :=
| EvCall (sequencePath modelType : string)     (* [detectAndTrack] entered *)
| EvCout (items : list Item)
| EvStderr (format arg : string)
| EvIsDirectory (p : path) (b : bool)
| EvCreateDirectories (p : path)
| EvExists (p : path) (b : bool)
| EvOpenOut (p : path) (ok : bool)
| EvOpenIn (p : path) (ok : bool)
| EvGetline (line : string)
| EvNewTracker (id : nat)
| EvList (d : path) (entries : list path)
| EvImread (p : path)
| EvDetectAndTrack (id : nat) (image : Image)
| EvWrite (p : path) (s : string)
| EvClose (p : path).

(** A trace entry: the operation with the clock readings at its start and
    at its end. *)
Definition Entry : Type := Event * Z * Z.

Record World : Type := mkWorld {
  w_fs : FS;
  w_clock : Z;                        (* high_resolution_clock, in ticks *)
  w_detector : DetectorState;         (* the object behind [detector] *)
  w_trackers : list TrackerState;     (* the tracker objects, by allocation *)
  w_trace : list Entry
}.

(** The wall-clock time an operation takes: anything at all. *)
Variable lat : Event → World → Z.

Inductive Outcome (A : Type) : Type :=
| Ret (a : A) (w : World)
| Stop (h : Halt) (w : World).
Global Arguments Ret {A} a w.
Global Arguments Stop {A} h w.

Definition M (A : Type) : Type := World → Outcome A.

Global Instance M_ret : MRet M := λ A a w, Ret a w.
Global Instance M_bind : MBind M := λ A B f m w,
  match m w with
  | Ret a w' => f a w'
  | Stop h w' => Stop h w'
  end.

Definition gets {A} (f : World → A) : M A := λ w, Ret (f w) w.
Definition modify (f : World → World) : M unit := λ w, Ret () (f w).
Definition stop {A} (h : Halt) : M A := λ w, Stop h w.

Definition set_fs (fs : FS) (w : World) : World :=
  mkWorld fs (w_clock w) (w_detector w) (w_trackers w) (w_trace w).

(** An operation starts at the current clock reading, takes [lat] ticks and
    leaves its entry in the trace. *)
Definition log (e : Event) : M unit := λ w,
  let t := w_clock w in
  let t' := t + lat e w in
  Ret () (mkWorld (w_fs w) t' (w_detector w) (w_trackers w)
                  (w_trace w ++ [(e, t, t')])).

(** [high_resolution_clock::now()]. *)
Definition now : M Z := gets w_clock.

Definition exit {A} (status : Z) : M A := stop (HExit status).

Definition fprintf_stderr (format arg : string) : M unit :=
  log (EvStderr format arg).

Definition cout (items : list Item) : M unit := log (EvCout items).

Definition is_directory (p : path) : M bool :=
  b ← gets (λ w, fs_is_directory (w_fs w) p);
  log (EvIsDirectory p b);;
  mret b.

Definition create_directories (p : path) : M unit :=
  log (EvCreateDirectories p);;
  r ← gets (λ w, fs_create_directories (w_fs w) p);
  match r with
  | Some fs' => modify (set_fs fs')
  | None => stop HThrow
  end.

Definition exists_ (p : path) : M bool :=
  b ← gets (λ w, fs_exists (w_fs w) p);
  log (EvExists p b);;
  mret b.

(** Whether [std::ofstream::open] can create the file: its directory is
    there, the name is not taken by a directory and the environment lets
    the file be written. *)
Definition fs_can_create (fs : FS) (p : path) : bool :=
  match parent p with
  | Some d => fs_is_directory fs d && negb (fs_is_directory fs p) && permits_write p
  | None => false
  end.

(** [outputStream.open(p)] followed by [is_open()]: on success the file is
    there and empty. *)
Definition ofstream_open (p : path) : M bool :=
  ok ← gets (λ w, fs_can_create (w_fs w) p);
  log (EvOpenOut p ok);;
  (if ok : bool
   then modify (λ w, set_fs (mkFS (dirs (w_fs w)) (<[p := ""]> (files (w_fs w)))) w)
   else mret ());;
  mret ok.

(** [outputStream << ...]: the text goes to the end of the file. *)
Definition ofstream_write (p : path) (s : string) : M unit :=
  log (EvWrite p s);;
  modify (λ w, set_fs (fs_append (w_fs w) p s) w).

Definition ofstream_close (p : path) : M unit := log (EvClose p).

Definition ifstream_close (p : path) : M unit := log (EvClose p).

(** [std::ifstream f(p)] followed by [is_open()]: the contents when the
    file is there. *)
Definition ifstream_open (p : path) : M (option string) :=
  r ← gets (λ w, files (w_fs w) !! p);
  log (EvOpenIn p (bool_decide (is_Some r)));;
  mret r.

(** Lines 63-66: the entries of the directory, in the order the directory
    iterator happens to deliver them. *)
Definition directory_iterator (d : path) : M (list path) :=
  l ← gets (λ w, dir_order (fs_entries (w_fs w) d));
  log (EvList d l);;
  mret l.

(** [cv::imread(p, 1)]. *)
Definition imread (p : path) : M Image :=
  image ← gets (λ w, cv_imread (files (w_fs w) !! p));
  log (EvImread p);;
  mret image.

(** Line 61: [std::make_shared<MCSORT>()] allocates a tracker object; the
    [ImageTracker] holds it together with the shared detector. *)
Definition ImageTracker_new : M nat :=
  id ← gets (λ w, length (w_trackers w));
  log (EvNewTracker id);;
  modify (λ w, mkWorld (w_fs w) (w_clock w) (w_detector w)
                       (w_trackers w ++ [MCSORT_new]) (w_trace w));;
  mret id.

(** Modelled from the spec: [ImageTracker::detectAndTrack] ([ImageTracker.h])
    is not part of the sources at hand.  It calls the detector on the frame
    to obtain the proposals, then the tracker on the proposals, and returns
    the tracker's result; both objects keep the state the calls leave. *)
Definition ImageTracker_detectAndTrack (id : nat) (image : Image)
  : M (list Tracking) :=
  log (EvDetectAndTrack id image);;
  o ← gets (λ w, w_trackers w !! id);
  match o with
  | None => stop HUndefined
  | Some st =>
      ds ← gets w_detector;
      let '(ds', detections) := detect ds image in
      let '(st', trackings) := track st detections in
      modify (λ w, mkWorld (w_fs w) (w_clock w) ds'
                           (<[id := st']> (w_trackers w)) (w_trace w));;
      mret trackings
  end.

(** *** [detectAndTrack] (lines 28-95) *)

(** Lines 81-90: one insertion chain per Tracking. *)
Fixpoint write_trackings (outputPath : path) (frameCount : Z)
    (trackings : list Tracking) : M unit :=
  match trackings with
  | [] => mret ()
  | t :: rest =>
      ofstream_write outputPath (row frameCount t);;
      write_trackings outputPath frameCount rest
  end.

(** Lines 71-92: the loop over the sorted image paths. *)
Fixpoint frame_loop (imageTracker : nat) (outputPath : path)
    (imagePaths : list path) (cumulativeDuration : msduration)
    (frameCount : Z) : M (msduration * Z) :=
  match imagePaths with
  | [] => mret (cumulativeDuration, frameCount)
  | imagePath :: rest =>
      image ← imread imagePath;
      startTime ← now;
      trackings ← ImageTracker_detectAndTrack imageTracker image;
      endTime ← now;
      let cumulativeDuration' :=
        (cumulativeDuration + ms_of_ticks (endTime - startTime))%float in
      write_trackings outputPath frameCount trackings;;
      frame_loop imageTracker outputPath rest cumulativeDuration'
                 (int_wrap (frameCount + 1))
  end.

Definition inputDirPath_of (sequencePath : string) : path :=
  dataDirPath ++ components sequencePath ++ ["images"%string].

Definition outputDirPath_of (sequencePath modelType : string) : path :=
  dataDirPath ++ ["results"%string] ++ components sequencePath
              ++ components modelType.

Definition outputPath_of (sequencePath modelType : string) : path :=
  outputDirPath_of sequencePath modelType ++ ["track.txt"%string].

Definition detectAndTrack (sequencePath modelType : string)
  : M (msduration * Z) :=
  log (EvCall sequencePath modelType);;
  (* Make sure input directory exists *)
  let inputDirPath := inputDirPath_of sequencePath in
  inputOk ← is_directory inputDirPath;
  if negb inputOk then
    fprintf_stderr OPEN_DIR_MESSAGE sequencePath;;
    exit EXIT_FAILURE
  else
  (* Create output directory if not exists *)
  let outputDirPath := outputDirPath_of sequencePath modelType in
  outputDirOk ← is_directory outputDirPath;
  (if negb outputDirOk then create_directories outputDirPath else mret ());;
  (* Make sure output file does not exist *)
  let outputPath := outputPath_of sequencePath modelType in
  present ← exists_ outputPath;
  if present : bool then
    fprintf_stderr FILE_EXISTS_MESSAGE (path_str outputPath);;
    mret (msduration_zero, 0)
  else
  (* Make sure output file can be opened *)
  opened ← ofstream_open outputPath;
  if negb opened then
    fprintf_stderr OPEN_FILE_MESSAGE (path_str outputPath);;
    exit EXIT_FAILURE
  else
  imageTracker ← ImageTracker_new;
  listed ← directory_iterator inputDirPath;
  let imagePaths := std_sort listed in
  r ← frame_loop imageTracker outputPath imagePaths msduration_zero 0;
  ofstream_close outputPath;;
  mret r.

(** *** [main], from the opening of the sequences file (lines 143-168)

    The options and the model configuration (lines 101-141) have been read:
    they give [sequencesFileName], [modelType] and the detector object of
    the world.  [uninit] is the value [cumulativeDuration] happens to hold
    when the loop starts: line 147 declares it without an initialiser. *)

(** Lines 154 and 161: the whole milliseconds of a duration.  Where the
    conversion is undefined the run is cut; the model follows the program no
    further. *)
Definition count_ms_or_undefined (d : msduration) : M Z :=
  match count_ms d with
  | Some z => mret z
  | None => stop HUndefined
  end.

(** Lines 154-156 and 161-163: the duration in whole milliseconds, then the
    line that reports it with the throughput. *)
Definition report (what : string) (d : msduration) (frameCount : Z)
  : M unit :=
  duration ← count_ms_or_undefined d;
  cout [IStr what; IInt duration; IStr "ms"; IStr " (";
        IDouble (throughput frameCount duration);
        IStr ("fps)" +:+ String LF "")].

(** Lines 151-159: one iteration per line [std::getline] delivers. *)
Fixpoint sequence_loop (modelType : string) (lines : list string)
    (cumulativeDuration : msduration) (cumulativeFrameCount : Z)
    : M (msduration * Z) :=
  match lines with
  | [] => mret (cumulativeDuration, cumulativeFrameCount)
  | sequencePathString :: rest =>
      log (EvGetline sequencePathString);;
      cout [IStr "Sequence: "; IStr sequencePathString; IStr (String LF "")];;
      durationFrameCount ← detectAndTrack sequencePathString modelType;
      report "Duration: " durationFrameCount.1 durationFrameCount.2;;
      sequence_loop modelType rest
        (cumulativeDuration + durationFrameCount.1)%float
        (int_wrap (cumulativeFrameCount + durationFrameCount.2))
  end.

Definition sequencesFilePath_of (sequencesFileName : string) : path :=
  dataDirPath ++ ["config"%string] ++ components sequencesFileName.

Definition main (sequencesFileName modelType : string) (uninit : msduration)
  : M unit :=
  let sequencesFilePath := sequencesFilePath_of sequencesFileName in
  sequencesFile ← ifstream_open sequencesFilePath;
  match sequencesFile with
  | Some contents =>
      r ← sequence_loop modelType (getlines contents) uninit 0;
      ifstream_close sequencesFilePath;;
      report "Total duration: " r.1 r.2;;
      exit EXIT_SUCCESS
  | None =>
      fprintf_stderr OPEN_FILE_MESSAGE sequencesFileName;;
      exit EXIT_FAILURE
  end.


(** *** What the pipeline computes, as pure functions *)

(** The tracker's results over a run of frames, with the states the shared
    detector and the tracker are left in. *)
Fixpoint tracker_run (ds : DetectorState) (st : TrackerState)
    (images : list Image)
  : list (list Tracking) * DetectorState * TrackerState :=
  match images with
  | [] => ([], ds, st)
  | image :: rest =>
      let '(ds', detections) := detect ds image in
      let '(st', trackings) := track st detections in
      let '(groups, ds'', st'') := tracker_run ds' st' rest in
      (trackings :: groups, ds'', st'')
  end.

(** The rows of consecutive frames, the first one numbered [k]. *)
Fixpoint rows_from (k : Z) (groups : list (list Tracking)) : string :=
  match groups with
  | [] => ""
  | g :: rest => frame_rows k g +:+ rows_from (int_wrap (k + 1)) rest
  end.

(** [frameCount] after [n] increments. *)
Fixpoint int_advance (k : Z) (n : nat) : Z :=
  match n with
  | O => k
  | S n' => int_advance (int_wrap (k + 1)) n'
  end.

(** One more interval added to a cumulative duration (lines 78-79). *)
Definition add_span (acc : msduration) (span : Z * Z) : msduration :=
  (acc + ms_of_ticks (span.2 - span.1))%float.

(** *** Reading a trace *)

Definition event_of (en : Entry) : Event := en.1.1.
Definition span_of (en : Entry) : Z * Z := (en.1.2, en.2).

(** The sequence identifiers [detectAndTrack] was entered with. *)
Definition calls (tr : list Entry) : list string :=
  omap (λ en, match event_of en with EvCall s _ => Some s | _ => None end) tr.

(** The lines [std::getline] delivered. *)
Definition lines_read (tr : list Entry) : list string :=
  omap (λ en, match event_of en with EvGetline s => Some s | _ => None end) tr.

(** The image files decoded. *)
Definition reads (tr : list Entry) : list path :=
  omap (λ en, match event_of en with EvImread p => Some p | _ => None end) tr.

(** The detect-and-track calls: the tracker object used and the clock
    readings around the call. *)
Definition tracks (tr : list Entry) : list (nat * (Z * Z)) :=
  omap (λ en, match event_of en with
              | EvDetectAndTrack id _ => Some (id, span_of en)
              | _ => None
              end) tr.

(** The tracker objects allocated. *)
Definition news (tr : list Entry) : list nat :=
  omap (λ en, match event_of en with EvNewTracker id => Some id | _ => None end) tr.

(** The texts written, with the file each went to. *)
Definition writes (tr : list Entry) : list (path * string) :=
  omap (λ en, match event_of en with EvWrite p s => Some (p, s) | _ => None end) tr.

(** Each detect-and-track call with the number of [detectAndTrack] entries
    that precede it, counting from [c]: which sequence of the batch the call
    belongs to, and which tracker object it used. *)
Fixpoint owners (c : nat) (tr : list Entry) : list (nat * nat) :=
  match tr with
  | [] => []
  | en :: rest =>
      match event_of en with
      | EvCall _ _ => owners (S c) rest
      | EvDetectAndTrack id _ => (c, id) :: owners c rest
      | _ => owners c rest
      end
  end.

(** The world an outcome leaves. *)
Definition world_of {A} (o : Outcome A) : World :=
  match o with Ret _ w => w | Stop _ w => w end.

(** The value an outcome returns, and how it halts otherwise. *)
Definition value_of {A} (o : Outcome A) : option A :=
  match o with Ret a _ => Some a | Stop _ _ => None end.

Definition halt_of {A} (o : Outcome A) : option Halt :=
  match o with Ret _ _ => None | Stop h _ => Some h end.

(** The world after one more operation that ended at clock reading [t']. *)
Definition after (w : World) (e : Event) (t' : Z) : World :=
  mkWorld (w_fs w) t' (w_detector w) (w_trackers w)
          (w_trace w ++ [(e, w_clock w, t')]).

(** *** Symbolic execution

    [wp m w Q]: running [m] from [w] ends in an outcome satisfying [Q]. *)
Definition wp {A} (m : M A) (w : World) (Q : Outcome A → Prop) : Prop :=
  Q (m w).

Lemma wp_ret {A} (a : A) w Q : Q (Ret a w) → wp (mret a) w Q.
Proof. done. Qed.

Lemma wp_bind {A B} (m : M A) (k : A → M B) w Q :
  wp m w (λ o, match o with
               | Ret a w1 => wp (k a) w1 Q
               | Stop h w1 => Q (Stop h w1)
               end) →
  wp (m ≫= k) w Q.
Proof. unfold wp, mbind, M_bind. by destruct (m w). Qed.

Lemma wp_gets {A} (f : World → A) w Q : Q (Ret (f w) w) → wp (gets f) w Q.
Proof. done. Qed.

Lemma wp_modify f w Q : Q (Ret () (f w)) → wp (modify f) w Q.
Proof. done. Qed.

Lemma wp_stop {A} h w (Q : Outcome A → Prop) : Q (Stop h w) → wp (stop h) w Q.
Proof. done. Qed.

Lemma wp_log e w Q :
  (∀ t', Q (Ret () (after w e t'))) → wp (log e) w Q.
Proof. intros H. apply H. Qed.

Lemma wp_now w Q : Q (Ret (w_clock w) w) → wp now w Q.
Proof. done. Qed.

Lemma wp_conseq {A} (m : M A) w (Q Q' : Outcome A → Prop) :
  wp m w Q → (∀ o, Q o → Q' o) → wp m w Q'.
Proof. unfold wp. auto. Qed.

Lemma wp_elim {A} (m : M A) w (Q : Outcome A → Prop) : wp m w Q → Q (m w).
Proof. done. Qed.

(** One step: split a bind, run a primitive, and reduce the continuation. *)
Ltac wp_prim :=
  first
    [ apply wp_ret | apply wp_gets | apply wp_modify | apply wp_stop
    | apply wp_now | (apply wp_log; intros ?) ].

Ltac wp_step :=
  lazymatch goal with
  | |- wp (_ ≫= _) _ _ => apply wp_bind
  | |- wp (mret _) _ _ => apply wp_ret
  | |- wp (gets _) _ _ => apply wp_gets
  | |- wp (modify _) _ _ => apply wp_modify
  | |- wp (stop _) _ _ => apply wp_stop
  | |- wp (exit _) _ _ => apply wp_stop
  | |- wp now _ _ => apply wp_now
  | |- wp (log _) _ _ => apply wp_log; intros ?
  | |- wp (fprintf_stderr _ _) _ _ => apply wp_log; intros ?
  | |- wp (cout _) _ _ => apply wp_log; intros ?
  | |- wp (ofstream_close _) _ _ => apply wp_log; intros ?
  | |- wp (ifstream_close _) _ _ => apply wp_log; intros ?
  | |- wp (is_directory _) _ _ => unfold is_directory
  | |- wp (exists_ _) _ _ => unfold exists_
  | |- wp (create_directories _) _ _ => unfold create_directories
  | |- wp (ofstream_open _) _ _ => unfold ofstream_open
  | |- wp (ofstream_write _ _) _ _ => unfold ofstream_write
  | |- wp (ifstream_open _) _ _ => unfold ifstream_open
  | |- wp (directory_iterator _) _ _ => unfold directory_iterator
  | |- wp (imread _) _ _ => unfold imread
  | |- wp ImageTracker_new _ _ => unfold ImageTracker_new
  | |- wp (ImageTracker_detectAndTrack _ _) _ _ =>
      unfold ImageTracker_detectAndTrack
  | |- wp (report _ _ _) _ _ => unfold report
  | |- wp (count_ms_or_undefined _) _ _ => unfold count_ms_or_undefined
  end;
  cbn beta iota.

Ltac wp_steps := repeat wp_step.

(** Projections of the worlds built by the steps. *)
Ltac wsimpl :=
  cbn [w_fs w_clock w_detector w_trackers w_trace set_fs after dirs files
       world_of fst snd] in *.

(** *** Traces of concatenated runs *)

Lemma calls_app tr1 tr2 : calls (tr1 ++ tr2) = calls tr1 ++ calls tr2.
Proof. apply omap_app. Qed.

Lemma lines_read_app tr1 tr2 :
  lines_read (tr1 ++ tr2) = lines_read tr1 ++ lines_read tr2.
Proof. apply omap_app. Qed.

Lemma reads_app tr1 tr2 : reads (tr1 ++ tr2) = reads tr1 ++ reads tr2.
Proof. apply omap_app. Qed.

Lemma tracks_app tr1 tr2 : tracks (tr1 ++ tr2) = tracks tr1 ++ tracks tr2.
Proof. apply omap_app. Qed.

Lemma news_app tr1 tr2 : news (tr1 ++ tr2) = news tr1 ++ news tr2.
Proof. apply omap_app. Qed.

Lemma writes_app tr1 tr2 : writes (tr1 ++ tr2) = writes tr1 ++ writes tr2.
Proof. apply omap_app. Qed.

Lemma owners_app c tr1 tr2 :
  owners c (tr1 ++ tr2)
  = owners c tr1 ++ owners (c + length (calls tr1)) tr2.
Proof.
  revert c. induction tr1 as [|[[e t0] t1] tr1 IH]; intros c; simpl.
  - by rewrite Nat.add_0_r.
  - unfold calls in *. destruct e; simpl; rewrite IH; try done.
    simpl. by rewrite Nat.add_succ_r.
Qed.

Lemma owners_no_calls c tr :
  calls tr = [] → owners c tr = (λ x, (c, x.1)) <$> tracks tr.
Proof.
  induction tr as [|[[e t0] t1] tr IH]; simpl; [done |].
  unfold calls, tracks in *. destruct e; simpl; try done; intros H;
    rewrite IH by done; done.
Qed.

Lemma tracks_cons_imread p t0 t1 tr :
  tracks ((EvImread p, t0, t1) :: tr) = tracks tr.
Proof. done. Qed.

Lemma tracks_cons_track id image t0 t1 tr :
  tracks ((EvDetectAndTrack id image, t0, t1) :: tr)
  = (id, (t0, t1)) :: tracks tr.
Proof. done. Qed.

Ltac trace_split :=
  rewrite ?calls_app, ?lines_read_app, ?reads_app, ?tracks_app, ?news_app,
    ?writes_app.

(** *** The file of an open output stream *)

Lemma fs_append_files fs p old s :
  files fs !! p = Some old →
  fs_append fs p s = mkFS (dirs fs) (<[p := old +:+ s]> (files fs)).
Proof. intros H. unfold fs_append. by rewrite H. Qed.

(** *** The inner loop: the rows of one frame *)

Lemma write_trackings_spec out k ts : ∀ w old (Q : Outcome unit → Prop),
  files (w_fs w) !! out = Some old →
  (∀ w' tr,
     w_fs w' = mkFS (dirs (w_fs w))
                    (<[out := old +:+ frame_rows k ts]> (files (w_fs w))) →
     w_detector w' = w_detector w →
     w_trackers w' = w_trackers w →
     w_trace w' = w_trace w ++ tr →
     calls tr = [] → lines_read tr = [] → reads tr = [] →
     tracks tr = [] → news tr = [] →
     writes tr = (λ t, (out, row k t)) <$> ts →
     Q (Ret () w')) →
  wp (write_trackings out k ts) w Q.
Proof.
  induction ts as [|t ts IH]; intros w old Q Hold HQ; simpl.
  - apply wp_ret. apply (HQ w []); try done.
    + destruct w as [[d f] ? ? ? ?]; simpl in *. f_equal.
      by rewrite app_nil_r_s, insert_id.
    + by rewrite app_nil_r.
  - wp_steps. wsimpl. eapply IH.
    + wsimpl. rewrite (fs_append_files _ _ old) by done. wsimpl.
      apply lookup_insert_eq.
    + intros w' tr Hfs Hds Htk Htr ? ? ? ? ? Hw. wsimpl.
      apply (HQ w' ((EvWrite out (row k t), w_clock w, t') :: tr)); try done.
      * rewrite Hfs. rewrite (fs_append_files _ _ old) by done. wsimpl.
        by rewrite insert_insert_eq, app_assoc_s.
      * rewrite Htr. by rewrite <- app_assoc.
      * simpl. by rewrite Hw.
Qed.

(** *** The outer loop: the frames of one sequence *)

(** What [frame_loop] guarantees: it returns [r] in the world [w'], having
    added [tr] to the trace. *)
Record frame_post (id : nat) (out : path) (paths : list path)
    (cum : msduration) (k : Z) (w : World) (st : TrackerState) (old : string)
    (r : msduration * Z) (w' : World) (tr : list Entry) : Prop := {
  fp_trace : w_trace w' = w_trace w ++ tr;
  fp_calls : calls tr = [];
  fp_lines : lines_read tr = [];
  fp_news : news tr = [];
  fp_reads : reads tr = paths;
  fp_ids : (tracks tr).*1 = replicate (length paths) id;
  fp_duration : r.1 = fold_left add_span (tracks tr).*2 cum;
  fp_count : r.2 = int_advance k (length paths);
  fp_dirs : dirs (w_fs w') = dirs (w_fs w);
  fp_files : ∃ content, files (w_fs w') = <[out := content]> (files (w_fs w));
  fp_trackers : ∃ st', w_trackers w' = <[id := st']> (w_trackers w);
  fp_writes : Forall (λ x, x.1 = out) (writes tr);
  fp_exact :
    out ∉ paths →
    let run := tracker_run (w_detector w) st
                 ((λ p, cv_imread (files (w_fs w) !! p)) <$> paths) in
    files (w_fs w') = <[out := old +:+ rows_from k run.1.1]> (files (w_fs w))
    ∧ w_detector w' = run.1.2
    ∧ w_trackers w' = <[id := run.2]> (w_trackers w)
}.

Lemma frame_loop_spec id out paths : ∀ cum k w st old,
  w_trackers w !! id = Some st →
  files (w_fs w) !! out = Some old →
  wp (frame_loop id out paths cum k) w
     (λ o, ∃ r w' tr, o = Ret r w'
                      ∧ frame_post id out paths cum k w st old r w' tr).
Proof.
  induction paths as [|p paths IH]; intros cum k w st old Hst Hold; simpl.
  - apply wp_ret. exists (cum, k), w, []. split; [done |].
    destruct w as [[d f] ? ? ? ?]; wsimpl.
    split; simpl; try done.
    + by rewrite app_nil_r.
    + exists old. by rewrite insert_id.
    + exists st. by rewrite list_insert_id.
    + intros _. by rewrite app_nil_r_s, insert_id, list_insert_id.
  - wp_steps. wsimpl. rewrite Hst. wp_steps. wsimpl.
    destruct (detect (w_detector w) (cv_imread (files (w_fs w) !! p)))
      as [ds' detections] eqn:Hdet.
    destruct (track st detections) as [st1 trackings] eqn:Htrack.
    wp_steps. wsimpl.
    eapply write_trackings_spec; [wsimpl; exact Hold |].
    intros w3 trw Hfs3 Hds3 Htk3 Htr3 Hc3 Hl3 Hr3 Ht3 Hn3 Hw3. wsimpl.
    assert (Hid : (id < length (w_trackers w))%nat) by by eapply lookup_lt_Some.
    eapply wp_conseq.
    { apply (IH _ _ w3 st1 (old +:+ frame_rows k trackings)).
      - rewrite Htk3. by apply list_lookup_insert_eq.
      - rewrite Hfs3. wsimpl. apply lookup_insert_eq. }
    intros o (r & w' & tr & -> & [Htr Hc Hl Hn Hr Hi Hd Hk Hdirs Hf Htk Hw Hex]).
    exists r, w',
      ((EvImread p, w_clock w, t') ::
       (EvDetectAndTrack id (cv_imread (files (w_fs w) !! p)), t', t'0) ::
       trw ++ tr).
    split; [done |].
    split.
    + rewrite Htr, Htr3. by rewrite <- !app_assoc.
    + simpl. trace_split. by rewrite Hc3, Hc.
    + simpl. trace_split. by rewrite Hl3, Hl.
    + simpl. trace_split. by rewrite Hn3, Hn.
    + simpl. trace_split. by rewrite Hr3, Hr.
    + rewrite tracks_cons_imread, tracks_cons_track, tracks_app, Ht3.
      rewrite app_nil_l, fmap_cons, Hi. done.
    + rewrite tracks_cons_imread, tracks_cons_track, tracks_app, Ht3.
      rewrite app_nil_l, fmap_cons. exact Hd.
    + simpl. exact Hk.
    + rewrite Hdirs, Hfs3. done.
    + destruct Hf as [c Hf]. exists c. rewrite Hf, Hfs3. wsimpl.
      by rewrite insert_insert_eq.
    + destruct Htk as [s Htk]. exists s. rewrite Htk, Htk3.
      by rewrite list_insert_insert_eq.
    + simpl. trace_split. rewrite Hw3. apply Forall_app. split; [|done].
      apply Forall_fmap. by apply Forall_true.
    + intros Hnotin. apply not_elem_of_cons in Hnotin as [Hne Hnotin].
      specialize (Hex Hnotin). cbn zeta in Hex.
      assert (Himgs :
        (λ q, cv_imread (files (w_fs w3) !! q)) <$> paths
        = (λ q, cv_imread (files (w_fs w) !! q)) <$> paths).
      { apply list_fmap_ext. intros i q Hq. rewrite Hfs3. wsimpl.
        rewrite lookup_insert_ne; [done |].
        intros ->. apply Hnotin. by eapply list_elem_of_lookup_2. }
      rewrite Himgs, Hds3, Htk3, Hfs3 in Hex. wsimpl.
      rewrite fmap_cons. cbn [tracker_run]. rewrite Hdet, Htrack.
      destruct (tracker_run ds' st1
                  ((λ q, cv_imread (files (w_fs w) !! q)) <$> paths))
        as [[groups ds2] st2] eqn:Hrun.
      cbn [fst snd rows_from] in *. destruct Hex as (Hf' & Hd' & Ht').
      split; [|split].
      * rewrite Hf'. by rewrite insert_insert_eq, app_assoc_s.
      * done.
      * rewrite Ht'. by rewrite list_insert_insert_eq.
Qed.

(** *** One call of [detectAndTrack], whatever the world *)

(** What every call guarantees, however it ends: [tr] is what the call adds
    to the trace. *)
Record call_post (s m : string) (w : World) (o : Outcome (msduration * Z))
    (tr : list Entry) : Prop := {
  cp_trace : w_trace (world_of o) = w_trace w ++ tr;
  cp_head :
    ∃ t0 t1 t2 tr',
      tr = (EvCall s m, t0, t1)
           :: (EvIsDirectory (inputDirPath_of s)
                 (fs_is_directory (w_fs w) (inputDirPath_of s)), t1, t2)
           :: tr'
      ∧ calls tr' = [];
  cp_calls : calls tr = [s];
  cp_lines : lines_read tr = [];
  cp_ids : Forall (λ x, x.1 = length (w_trackers w)) (tracks tr);
  cp_heap : w_trackers w `prefix_of` w_trackers (world_of o);
  cp_fresh :
    tracks tr ≠ [] →
    length (w_trackers (world_of o)) = S (length (w_trackers w));
  cp_frames : length (reads tr) = length (tracks tr);
  cp_duration :
    ∀ d n w', o = Ret (d, n) w' →
              d = fold_left add_span (tracks tr).*2 msduration_zero;
  cp_files :
    ∀ p, p ≠ outputPath_of s m →
         files (w_fs (world_of o)) !! p = files (w_fs w) !! p;
  cp_stop : ∀ w', o ≠ Stop (HExit EXIT_SUCCESS) w';
  cp_count :
    ∀ d n w', o = Ret (d, n) w' → n = int_advance 0 (length (reads tr))
}.

Ltac call_post_trivial :=
  eexists; split;
    [ wsimpl; rewrite <- ?app_assoc; reflexivity
    | try done .. ];
    try (by intros; simplify_eq);
    try (eexists _, _, _, _;
         split;
           [ repeat match goal with
                    | H : fs_is_directory _ _ = _ |- _ => rewrite H
                    end; reflexivity
           | done ]).

Lemma fs_create_directories_files fs p fs' :
  fs_create_directories fs p = Some fs' → files fs' = files fs.
Proof.
  unfold fs_create_directories. case_bool_decide; [done |].
  by intros [= <-].
Qed.

Lemma detectAndTrack_call s m w :
  wp (detectAndTrack s m) w (λ o, ∃ tr, call_post s m w o tr).
Proof.
  unfold detectAndTrack. wp_steps. wsimpl.
  destruct (fs_is_directory (w_fs w) (inputDirPath_of s)) eqn:Hin;
    cbn [negb]; wp_steps; [| call_post_trivial].
  wsimpl.
  assert (Hstep : ∀ (w2 : World) (pre : list Entry),
    w_trace w2 = w_trace w ++ pre →
    (∃ t0 t1 t2 pre',
       pre = (EvCall s m, t0, t1)
             :: (EvIsDirectory (inputDirPath_of s) true, t1, t2) :: pre'
       ∧ calls pre' = []) →
    calls pre = [s] → lines_read pre = [] → tracks pre = [] → reads pre = [] →
    w_trackers w2 = w_trackers w →
    files (w_fs w2) = files (w_fs w) →
    wp (exists_ (outputPath_of s m) ≫= λ present : bool,
          if present
          then fprintf_stderr FILE_EXISTS_MESSAGE
                 (path_str (outputPath_of s m));; mret (msduration_zero, 0)
          else
            ofstream_open (outputPath_of s m) ≫= λ opened : bool,
              if negb opened
              then fprintf_stderr OPEN_FILE_MESSAGE
                     (path_str (outputPath_of s m));; exit EXIT_FAILURE
              else
                ImageTracker_new ≫= λ imageTracker : nat,
                  directory_iterator (inputDirPath_of s) ≫= λ listed,
                    frame_loop imageTracker (outputPath_of s m)
                      (std_sort listed) msduration_zero 0 ≫= λ r,
                      ofstream_close (outputPath_of s m);; mret r)
       w2 (λ o, ∃ tr, call_post s m w o tr)).
  { intros w2 pre Hpre (t0 & t1 & t2 & pre' & -> & Hpc') Hpc Hpl Hpt Hpr
      Hheap Hfiles.
    wp_steps. wsimpl.
    destruct (fs_exists (w_fs w2) (outputPath_of s m)) eqn:Hex; wp_steps.
    { eexists. split; wsimpl;
        [ rewrite Hpre, <- ?app_assoc; reflexivity
        | trace_split; rewrite ?Hpc, ?Hpl, ?Hpt, ?Hpr; try done .. ].
      - eexists _, _, _, _. split; [by rewrite Hin |]. trace_split. by rewrite Hpc'.
      - by rewrite Hheap.
      - by intros d n w' [= <- _ _].
      - intros p _. by rewrite Hfiles.
      - by intros d n w' [= _ <- _]. }
    wsimpl.
    destruct (fs_can_create (w_fs w2) (outputPath_of s m)) eqn:Hcan;
      wp_steps; wsimpl; cbn [negb]; wp_steps.
    2:{ eexists. split; wsimpl;
          [ rewrite Hpre, <- ?app_assoc; reflexivity
          | trace_split; rewrite ?Hpc, ?Hpl, ?Hpt, ?Hpr; try done .. ].
        - eexists _, _, _, _. split; [by rewrite Hin |]. trace_split.
          by rewrite Hpc'.
        - by rewrite Hheap.
        - intros p _. by rewrite Hfiles. }
    wsimpl. eapply wp_conseq.
    { eapply (frame_loop_spec _ _ _ _ _ _ MCSORT_new "").
      - wsimpl. rewrite lookup_app_r by done.
        by rewrite Nat.sub_diag.
      - wsimpl. apply lookup_insert_eq. }
    intros o (r & w' & tr & -> & [Htr Hc Hl Hn Hr Hi Hd Hk Hdirs Hf Htk Hw Hx]).
    cbn beta iota. wp_steps. wsimpl.
    eexists. split; wsimpl.
    - rewrite Htr. wsimpl. rewrite Hpre, <- ?app_assoc. reflexivity.
    - eexists _, _, _, _. split; [by rewrite Hin |]. trace_split.
      by rewrite Hpc', Hc.
    - trace_split. by rewrite Hpc, Hc.
    - trace_split. by rewrite Hpl, Hl.
    - trace_split. rewrite Hpt. simpl. rewrite app_nil_r.
      apply Forall_forall. intros [i sp] Hel.
      assert (Hi' : i ∈ (tracks tr).*1) by (apply list_elem_of_fmap; by exists (i, sp)).
      rewrite Hi, Hheap in Hi'. by apply elem_of_replicate in Hi' as [-> _].
    - destruct Htk as [st' ->]. wsimpl. rewrite Hheap.
      rewrite (insert_app_r_alt _ _ (length (w_trackers w))) by done.
      by apply prefix_app_r.
    - intros _. destruct Htk as [st' ->]. wsimpl.
      rewrite length_insert, length_app, Hheap. simpl. lia.
    - trace_split. rewrite Hpr, Hpt, Hr. simpl. rewrite !app_nil_r.
      rewrite <- (length_fmap fst (tracks tr)), Hi. by rewrite length_replicate.
    - intros d n w'' [= -> _]. cbn [fst] in Hd. rewrite Hd. trace_split.
      rewrite Hpt. simpl. by rewrite app_nil_r.
    - intros p Hp. destruct Hf as [c ->]. wsimpl.
      rewrite !lookup_insert_ne by done. by rewrite Hfiles.
    - done.
    - intros d n w'' [= -> _]. cbn [snd] in Hk. rewrite Hk. trace_split.
      rewrite Hpr, Hr. simpl. by rewrite app_nil_r. }
  destruct (fs_is_directory (w_fs w) (outputDirPath_of s m)) eqn:Hout;
    cbn [negb].
  - do 2 wp_step.
    eapply (Hstep _ [_; _; _]); wsimpl;
      [by rewrite <- ?app_assoc | by eexists _, _, _, _ | done ..].
  - do 5 wp_step. wsimpl.
    destruct (fs_create_directories (w_fs w) (outputDirPath_of s m))
      as [fs'|] eqn:Hcreate; wp_step; wsimpl.
    + eapply (Hstep _ [_; _; _; _]); wsimpl;
        [by rewrite <- ?app_assoc | by eexists _, _, _, _ | try done ..].
      by eapply fs_create_directories_files.
    + call_post_trivial.
Qed.

(** *** The batch loop *)

(** Tracker use is per sequence: two detect-and-track calls use the same
    tracker object exactly when they belong to the same sequence. *)
Definition per_sequence (l : list (nat * nat)) : Prop :=
  ∀ x y, x ∈ l → y ∈ l → (x.1 = y.1 ↔ x.2 = y.2).

(** ... and, within a run that starts at sequence number [c] with [h]
    tracker objects allocated, every call belongs to a later sequence and uses
    a later object. *)
Definition owners_ok (c h : nat) (l : list (nat * nat)) : Prop :=
  Forall (λ x, c < x.1 ∧ h ≤ x.2)%nat l ∧ per_sequence l.

Lemma owners_ok_nil c h : owners_ok c h [].
Proof. split; [constructor |]. intros x y Hx. by apply elem_of_nil in Hx. Qed.

Lemma owners_ok_call c h h' (ids : list nat) l :
  Forall (λ i, i = h) ids →
  (h ≤ h')%nat →
  (ids ≠ [] → h < h')%nat →
  owners_ok (S c) h' l →
  owners_ok c h (((λ i, (S c, i)) <$> ids) ++ l).
Proof.
  intros Hids Hle Hlt [Hl Hper]. split.
  - apply Forall_app. split.
    + apply Forall_fmap. eapply Forall_impl; [exact Hids |].
      intros i ->. simpl. lia.
    + eapply Forall_impl; [exact Hl |]. intros [a b]; simpl. lia.
  - assert (Hin : ∀ x, x ∈ (λ i, (S c, i)) <$> ids → x = (S c, h) ∧ ids ≠ []).
    { intros x (i & -> & Hi)%list_elem_of_fmap. split.
      - f_equal. by eapply (proj1 (Forall_forall _ _) Hids).
      - intros ->. by apply elem_of_nil in Hi. }
    assert (Hrest : ∀ y, y ∈ l → (S c < y.1 ∧ h' ≤ y.2)%nat).
    { intros y Hy. by eapply (proj1 (Forall_forall _ _) Hl). }
    intros x y [Hx|Hx]%elem_of_app [Hy|Hy]%elem_of_app.
    + apply Hin in Hx as [-> _], Hy as [-> _]. done.
    + apply Hin in Hx as [-> Hne]. apply Hrest in Hy as [? ?].
      specialize (Hlt Hne). simpl. lia.
    + apply Hin in Hy as [-> Hne]. apply Hrest in Hx as [? ?].
      specialize (Hlt Hne). simpl. lia.
    + by apply Hper.
Qed.

Record batch_post (lines : list string) (w : World)
    (o : Outcome (msduration * Z)) (tr : list Entry) : Prop := {
  bp_trace : w_trace (world_of o) = w_trace w ++ tr;
  bp_calls_lines : calls tr = lines_read tr;
  bp_prefix : calls tr `prefix_of` lines;
  bp_complete : (∃ r w', o = Ret r w') → calls tr = lines;
  bp_owners : ∀ c, owners_ok c (length (w_trackers w)) (owners c tr);
  bp_heap : (length (w_trackers w) ≤ length (w_trackers (world_of o)))%nat;
  bp_stop : ∀ w', o ≠ Stop (HExit EXIT_SUCCESS) w'
}.

Lemma owners_call c s m t0 t1 tr :
  calls tr = [] →
  owners c ((EvCall s m, t0, t1) :: tr) = (λ i, (S c, i)) <$> (tracks tr).*1.
Proof.
  intros H. cbn [owners event_of fst]. rewrite owners_no_calls by done.
  by rewrite <- list_fmap_compose.
Qed.

Lemma sequence_loop_spec m lines : ∀ cum cfc w,
  wp (sequence_loop m lines cum cfc) w (λ o, ∃ tr, batch_post lines w o tr).
Proof.
  induction lines as [|s lines IH]; intros cum cfc w; simpl.
  - apply wp_ret. exists []. split; wsimpl; try done.
    + by rewrite app_nil_r.
    + intros c. apply owners_ok_nil.
  - do 5 wp_step. wsimpl.
    eapply wp_conseq; [apply detectAndTrack_call |].
    intros o (trc & [Htr (t0 & t1 & t2 & trc'' & -> & Hc'') Hc Hl Hi Hh Hf _ _ _
                       Hstop _]).
    set (trc' := (EvIsDirectory (inputDirPath_of s)
                    (fs_is_directory
                       (w_fs (after (after w (EvGetline s) t')
                                (EvCout [IStr "Sequence: "; IStr s;
                                         IStr (String LF "")]) t'0))
                       (inputDirPath_of s)), t1, t2) :: trc'') in *.
    assert (Hc' : calls trc' = []) by exact Hc''.
    assert (Hids : Forall (λ i, i = length (w_trackers w))
                     (tracks ((EvCall s m, t0, t1) :: trc')).*1).
    { apply Forall_fmap. exact Hi. }
    assert (Hown0 : ∀ c pre,
      calls pre = [] → tracks pre = [] →
      owners c (pre ++ (EvCall s m, t0, t1) :: trc')
      = (λ i, (S c, i)) <$> (tracks ((EvCall s m, t0, t1) :: trc')).*1).
    { intros c pre Hpc Hpt. rewrite owners_app, Hpc.
      rewrite (owners_no_calls _ pre), Hpt by done.
      rewrite fmap_nil, app_nil_l. cbn [length]. rewrite Nat.add_0_r.
      by rewrite owners_call. }
    destruct o as [[d n] w1|h w1]; wsimpl.
    2:{ exists ([(EvGetline s, w_clock w, t');
                 (EvCout [IStr "Sequence: "; IStr s; IStr (String LF "")],
                  t', t'0)] ++ (EvCall s m, t0, t1) :: trc').
        split; wsimpl.
        - rewrite Htr. wsimpl. by rewrite <- !app_assoc.
        - trace_split. by rewrite Hc, Hl.
        - trace_split. rewrite Hc. simpl. apply prefix_cons, prefix_nil.
        - by intros (? & ? & ?).
        - intros c. rewrite (Hown0 c [_; _]) by done.
          rewrite <- (app_nil_r (_ <$> _)).
          eapply (owners_ok_call _ _ (length (w_trackers w1))); try done.
          + by apply prefix_length.
          + intros Hne. rewrite Hf; [lia |]. intros Hnil.
            apply Hne. by rewrite Hnil.
          + apply owners_ok_nil.
        - by apply prefix_length.
        - exact Hstop. }
    do 4 wp_step. cbn [fst snd].
    destruct (count_ms d) as [duration|] eqn:Hms.
    2:{ wp_step.
        exists ([(EvGetline s, w_clock w, t');
                 (EvCout [IStr "Sequence: "; IStr s; IStr (String LF "")],
                  t', t'0)] ++ (EvCall s m, t0, t1) :: trc').
        split; wsimpl.
        - rewrite Htr. wsimpl. by rewrite <- !app_assoc.
        - trace_split. by rewrite Hc, Hl.
        - trace_split. rewrite Hc. simpl. apply prefix_cons, prefix_nil.
        - by intros (? & ? & ?).
        - intros c. rewrite (Hown0 c [_; _]) by done.
          rewrite <- (app_nil_r (_ <$> _)).
          eapply (owners_ok_call _ _ (length (w_trackers w1))); try done.
          + by apply prefix_length.
          + intros Hne. rewrite Hf; [lia |]. intros Hnil.
            apply Hne. by rewrite Hnil.
          + apply owners_ok_nil.
        - by apply prefix_length.
        - done. }
    do 2 wp_step. wsimpl.
    eapply wp_conseq; [apply IH |].
    intros o (trr & [Htr' Hcl' Hp' Hcomp' Hown' Hheap' Hstop']). wsimpl.
    exists (([(EvGetline s, w_clock w, t');
              (EvCout [IStr "Sequence: "; IStr s; IStr (String LF "")],
               t', t'0)] ++ (EvCall s m, t0, t1) :: trc')
            ++ (EvCout
                  [IStr "Duration: "; IInt duration; IStr "ms"; IStr " (";
                   IDouble (throughput n duration);
                   IStr ("fps)" +:+ String LF "")], w_clock w1, t'1) :: trr).
    split; wsimpl.
    + rewrite Htr'. wsimpl. rewrite Htr. wsimpl. by rewrite <- !app_assoc.
    + trace_split. rewrite Hc, Hl. simpl. f_equal. exact Hcl'.
    + trace_split. rewrite Hc. simpl. by apply prefix_cons.
    + intros Hret. trace_split. rewrite Hc. simpl. f_equal.
      by apply Hcomp'.
    + intros c. rewrite owners_app. rewrite (Hown0 c [_; _]) by done.
      trace_split. rewrite Hc. simpl length.
      replace (c + 1)%nat with (S c) by lia.
      eapply (owners_ok_call _ _ (length (w_trackers w1))); try done.
      * by apply prefix_length.
      * intros Hne. rewrite Hf; [lia |]. intros Hnil.
        apply Hne. by rewrite Hnil.
    + etrans; [by apply prefix_length | done].
    + exact Hstop'.
Qed.

(** *** The locations of one sequence *)

Lemma outputPath_parent s m :
  parent (outputPath_of s m) = Some (outputDirPath_of s m).
Proof. apply parent_snoc. Qed.

Lemma outputDir_not_inputDir s m : outputDirPath_of s m ≠ inputDirPath_of s.
Proof.
  unfold outputDirPath_of, inputDirPath_of. intros H.
  apply app_inv_head in H. simpl in H.
  by apply (shift_head _ _ _ _ []) in H.
Qed.

Lemma outputPath_not_entry s m :
  parent (outputPath_of s m) ≠ Some (inputDirPath_of s).
Proof.
  rewrite outputPath_parent. intros [= H]. by apply outputDir_not_inputDir in H.
Qed.

Lemma outputDir_prefixes_not_entries s m q :
  q ∈ prefixes (outputDirPath_of s m) → parent q ≠ Some (inputDirPath_of s).
Proof.
  intros [_ [k Hk]]%elem_of_prefixes [x ->]%parent_Some.
  unfold outputDirPath_of, inputDirPath_of in Hk.
  rewrite <- !app_assoc in Hk. apply app_inv_head in Hk. simpl in Hk.
  by apply shift_head in Hk.
Qed.

Lemma outputDir_in_prefixes s m :
  outputDirPath_of s m ∈ prefixes (outputDirPath_of s m).
Proof.
  apply elem_of_prefixes. split; [|done].
  unfold outputDirPath_of. intros H.
  apply app_eq_nil in H as [_ H]. done.
Qed.

Lemma outputPath_not_in_prefixes s m :
  outputPath_of s m ∉ prefixes (outputDirPath_of s m).
Proof.
  intros [_ H%prefix_length]%elem_of_prefixes.
  unfold outputPath_of in H. rewrite length_app in H. simpl in H. lia.
Qed.

(** [create_directories] cannot fail, or there is nothing to create. *)
Definition output_dir_ready (fs : FS) (p : path) : bool :=
  fs_is_directory fs p || bool_decide (is_Some (fs_create_directories fs p)).

Lemma fs_create_directories_dirs fs p fs' :
  fs_create_directories fs p = Some fs' →
  dirs fs' = dirs fs ∪ list_to_set (prefixes p).
Proof.
  unfold fs_create_directories. case_bool_decide; [done |].
  by intros [= <-].
Qed.

(** *** A call of [detectAndTrack] that processes its sequence *)

(** The tracker's results for the frames at [paths], read from the files of
    [w], by a tracker that starts afresh. *)
Definition sequence_run (w : World) (paths : list path)
  : list (list Tracking) * DetectorState * TrackerState :=
  tracker_run (w_detector w) MCSORT_new
    ((λ p, cv_imread (files (w_fs w) !! p)) <$> paths).

Record run_post (s m : string) (w : World) (r : msduration * Z) (w' : World)
    (tr : list Entry) (paths : list path) : Prop := {
  rp_trace : w_trace w' = w_trace w ++ tr;
  rp_reads : reads tr = paths;
  rp_sorted : StronglySorted path_le paths;
  rp_perm : paths ≡ₚ fs_entries (w_fs w) (inputDirPath_of s);
  rp_count : r.2 = int_advance 0 (length paths);
  rp_ids : (tracks tr).*1 = replicate (length paths) (length (w_trackers w));
  rp_duration : r.1 = fold_left add_span (tracks tr).*2 msduration_zero;
  rp_artifact :
    files (w_fs w')
    = <[outputPath_of s m := rows_from 0 (sequence_run w paths).1.1]>
        (files (w_fs w));
  rp_detector : w_detector w' = (sequence_run w paths).1.2;
  rp_trackers : w_trackers w' = w_trackers w ++ [(sequence_run w paths).2];
  rp_out_dir : outputDirPath_of s m ∈ dirs (w_fs w')
}.

Lemma fs_exists_false fs p :
  fs_exists fs p = false → (p ∉ dirs fs) ∧ files fs !! p = None.
Proof.
  unfold fs_exists. intros [H1 H2]%orb_false_elim.
  apply bool_decide_eq_false in H1, H2. split; [done |].
  by apply eq_None_not_Some.
Qed.

Lemma detectAndTrack_run s m w :
  fs_is_directory (w_fs w) (inputDirPath_of s) = true →
  output_dir_ready (w_fs w) (outputDirPath_of s m) = true →
  fs_exists (w_fs w) (outputPath_of s m) = false →
  permits_write (outputPath_of s m) = true →
  (∀ l, dir_order l ≡ₚ l) →
  wp (detectAndTrack s m) w
     (λ o, ∃ r w' tr paths, o = Ret r w' ∧ run_post s m w r w' tr paths).
Proof.
  intros Hin Hready Hex Hperm Hord.
  apply fs_exists_false in Hex as [Hexd Hexf].
  unfold detectAndTrack. wp_steps. wsimpl. rewrite Hin. cbn [negb].
  wp_steps. wsimpl.
  assert (Hstep : ∀ (w2 : World) (pre : list Entry),
    w_trace w2 = w_trace w ++ pre →
    reads pre = [] → tracks pre = [] →
    w_trackers w2 = w_trackers w →
    w_detector w2 = w_detector w →
    files (w_fs w2) = files (w_fs w) →
    dirs (w_fs w) ⊆ dirs (w_fs w2) →
    (∀ q, q ∈ dirs (w_fs w2) →
          q ∈ dirs (w_fs w) ∨ q ∈ prefixes (outputDirPath_of s m)) →
    outputDirPath_of s m ∈ dirs (w_fs w2) →
    wp (exists_ (outputPath_of s m) ≫= λ present : bool,
          if present
          then fprintf_stderr FILE_EXISTS_MESSAGE
                 (path_str (outputPath_of s m));; mret (msduration_zero, 0)
          else
            ofstream_open (outputPath_of s m) ≫= λ opened : bool,
              if negb opened
              then fprintf_stderr OPEN_FILE_MESSAGE
                     (path_str (outputPath_of s m));; exit EXIT_FAILURE
              else
                ImageTracker_new ≫= λ imageTracker : nat,
                  directory_iterator (inputDirPath_of s) ≫= λ listed,
                    frame_loop imageTracker (outputPath_of s m)
                      (std_sort listed) msduration_zero 0 ≫= λ r,
                      ofstream_close (outputPath_of s m);; mret r)
       w2 (λ o, ∃ r w' tr paths,
                 o = Ret r w' ∧ run_post s m w r w' tr paths)).
  { intros w2 pre Hpre Hpr Hpt Hheap Hdet Hfiles Hsub Hdirs Hout.
    assert (Hnd : outputPath_of s m ∉ dirs (w_fs w2)).
    { intros [?|?]%Hdirs; [done |]. by eapply outputPath_not_in_prefixes. }
    wp_steps. wsimpl.
    assert (Hex2 : fs_exists (w_fs w2) (outputPath_of s m) = false).
    { unfold fs_exists. rewrite bool_decide_eq_false_2 by done.
      rewrite bool_decide_eq_false_2; [done |].
      rewrite Hfiles, Hexf. by intros [? ?]. }
    rewrite Hex2. wp_steps. wsimpl.
    assert (Hcan : fs_can_create (w_fs w2) (outputPath_of s m) = true).
    { unfold fs_can_create. rewrite outputPath_parent, Hperm.
      unfold fs_is_directory.
      rewrite bool_decide_eq_true_2, bool_decide_eq_false_2 by done. done. }
    rewrite Hcan. wp_steps. wsimpl. cbn [negb]. wp_steps. wsimpl.
    set (paths := std_sort (dir_order (fs_entries
           {| dirs := dirs (w_fs w2);
              files := <[outputPath_of s m := ""]> (files (w_fs w2)) |}
           (inputDirPath_of s)))).
    assert (Hpaths : paths ≡ₚ fs_entries (w_fs w) (inputDirPath_of s)).
    { unfold paths, std_sort. rewrite merge_sort_Permutation, Hord.
      apply fs_entries_Permutation. intros p Hp. cbn [dirs files].
      rewrite dom_insert_L, Hfiles. split.
      - intros [Hd|Hof]%elem_of_union;
          [|apply elem_of_union in Hof as [Ho|Hf]].
        + apply Hdirs in Hd as [Hd|Hd]; [set_solver |].
          by apply outputDir_prefixes_not_entries in Hd.
        + apply elem_of_singleton in Ho as ->.
          by apply outputPath_not_entry in Hp.
        + set_solver.
      - intros [Hd|Hf]%elem_of_union; [|set_solver].
        apply elem_of_union_l. by apply Hsub. }
    assert (Hnotin : outputPath_of s m ∉ paths).
    { rewrite Hpaths. intros Hx%fs_entries_parent.
      by apply outputPath_not_entry in Hx. }
    eapply wp_conseq.
    { eapply (frame_loop_spec _ _ _ _ _ _ MCSORT_new "").
      - wsimpl. rewrite lookup_app_r by done. by rewrite Nat.sub_diag.
      - wsimpl. apply lookup_insert_eq. }
    intros o (r & w' & tr & -> & [Htr Hc Hl Hn Hr Hi Hd Hk Hds Hf Htk Hw Hx]).
    cbn beta iota. wp_steps. wsimpl.
    specialize (Hx Hnotin). cbn zeta in Hx. wsimpl.
    destruct Hx as (Hxf & Hxd & Hxt).
    assert (Himgs :
      (λ q, cv_imread (<[outputPath_of s m := ""]> (files (w_fs w2)) !! q))
        <$> paths
      = (λ q, cv_imread (files (w_fs w) !! q)) <$> paths).
    { apply list_fmap_ext. intros i q Hq.
      rewrite lookup_insert_ne, Hfiles; [done |].
      intros <-. apply Hnotin. by eapply list_elem_of_lookup_2. }
    rewrite Himgs, Hdet in Hxf, Hxd, Hxt.
    fold (sequence_run w paths) in Hxf, Hxd, Hxt.
    eexists r, _, _, paths. split; [reflexivity |].
    split; wsimpl.
    - rewrite Htr. wsimpl. rewrite Hpre, <- ?app_assoc. reflexivity.
    - trace_split. rewrite Hpr, Hr. simpl. by rewrite app_nil_r.
    - apply StronglySorted_merge_sort; apply _.
    - done.
    - done.
    - trace_split. rewrite Hpt, !fmap_app, Hi, Hheap. simpl.
      by rewrite app_nil_r.
    - trace_split. rewrite Hpt, !fmap_app, Hd. simpl. by rewrite app_nil_r.
    - rewrite Hxf. rewrite insert_insert_eq, Hfiles. done.
    - done.
    - rewrite Hxt, Hheap.
      rewrite (insert_app_r_alt _ _ (length (w_trackers w))) by done.
      by rewrite Nat.sub_diag.
    - by rewrite Hds. }
  destruct (fs_is_directory (w_fs w) (outputDirPath_of s m)) eqn:Hout;
    cbn [negb].
  - do 2 wp_step.
    eapply (Hstep _ [_; _; _]); wsimpl;
      [by rewrite <- ?app_assoc | try done ..].
    + auto.
    + by apply bool_decide_eq_true in Hout.
  - unfold output_dir_ready in Hready. rewrite Hout in Hready.
    apply bool_decide_eq_true in Hready as [fs' Hcreate].
    do 5 wp_step. wsimpl. rewrite Hcreate. wp_step. wsimpl.
    pose proof (fs_create_directories_dirs _ _ _ Hcreate) as Hcd.
    pose proof (fs_create_directories_files _ _ _ Hcreate) as Hcf.
    eapply (Hstep _ [_; _; _; _]); wsimpl;
      [by rewrite <- ?app_assoc | try done ..].
    + rewrite Hcd. apply union_subseteq_l.
    + intros q. rewrite Hcd, elem_of_union, elem_of_list_to_set. auto.
    + rewrite Hcd, elem_of_union, elem_of_list_to_set. right.
      apply outputDir_in_prefixes.
Qed.

(** *** [main] *)

Record main_post (file : string) (w : World) (o : Outcome unit)
    (tr : list Entry) : Prop := {
  mp_trace : w_trace (world_of o) = w_trace w ++ tr;
  mp_calls_lines : calls tr = lines_read tr;
  mp_prefix :
    ∀ contents,
      files (w_fs w) !! sequencesFilePath_of file = Some contents →
      lines_read tr `prefix_of` getlines contents;
  mp_complete :
    ∀ contents w',
      files (w_fs w) !! sequencesFilePath_of file = Some contents →
      o = Stop (HExit EXIT_SUCCESS) w' →
      lines_read tr = getlines contents;
  mp_owners : owners_ok 0 (length (w_trackers w)) (owners 0 tr)
}.

Lemma main_spec file m uninit w :
  wp (main file m uninit) w (λ o, ∃ tr, main_post file w o tr).
Proof.
  unfold main. do 4 wp_step. wsimpl.
  destruct (files (w_fs w) !! sequencesFilePath_of file) as [contents|] eqn:Hf;
    wp_steps.
  2:{ eexists. split; wsimpl;
        [rewrite <- ?app_assoc; reflexivity | try done ..].
      - intros c Hc. by rewrite Hf in Hc.
      - apply owners_ok_nil. }
  wsimpl. eapply wp_conseq; [apply sequence_loop_spec |].
  intros o (trb & [Htr Hcl Hp Hcomp Hown Hheap Hstop]).
  set (e0 := (EvOpenIn (sequencesFilePath_of file)
                (bool_decide (is_Some (Some contents))), w_clock w, t')) in *.
  assert (Hown0 : ∀ post, calls post = [] → tracks post = [] →
            owners 0 (e0 :: trb ++ post) = owners 0 trb).
  { intros post Hpc Hpt. change (e0 :: trb ++ post) with ([e0] ++ trb ++ post).
    rewrite !owners_app. simpl. rewrite (owners_no_calls _ post), Hpt by done.
    by rewrite app_nil_r. }
  assert (Hlines0 : ∀ post, lines_read post = [] →
            lines_read (e0 :: trb ++ post) = lines_read trb).
  { intros post Hpl. change (e0 :: trb ++ post) with ([e0] ++ trb ++ post).
    trace_split. rewrite Hpl. simpl. by rewrite app_nil_r. }
  assert (Hcalls0 : ∀ post, calls post = [] →
            calls (e0 :: trb ++ post) = calls trb).
  { intros post Hpc. change (e0 :: trb ++ post) with ([e0] ++ trb ++ post).
    trace_split. rewrite Hpc. simpl. by rewrite app_nil_r. }
  destruct o as [[d n] w1|h w1]; wsimpl.
  2:{ exists (e0 :: trb ++ []). split; wsimpl.
      - rewrite Htr. wsimpl. by rewrite app_nil_r, <- app_assoc.
      - by rewrite Hcalls0, Hlines0.
      - intros c Hc. rewrite Hf in Hc. injection Hc as <-.
        by rewrite Hlines0, <- Hcl.
      - intros c w' _ [= -> _]. by destruct (Hstop w1).
      - rewrite Hown0 by done. apply Hown. }
  do 6 wp_step. cbn [fst snd].
  destruct (count_ms d) as [total|] eqn:Hms; wp_steps; wsimpl.
  - eexists (e0 :: trb ++ [_; _]). split; wsimpl.
    + rewrite Htr. wsimpl. by rewrite <- !app_assoc.
    + by rewrite Hcalls0, Hlines0.
    + intros c Hc. rewrite Hf in Hc. injection Hc as <-.
      by rewrite Hlines0, <- Hcl.
    + intros c w' Hc _. rewrite Hf in Hc. injection Hc as <-.
      rewrite Hlines0, <- Hcl by done. apply Hcomp. by eexists _, _.
    + rewrite Hown0 by done. apply Hown.
  - eexists (e0 :: trb ++ [_]). split; wsimpl.
    + rewrite Htr. wsimpl. by rewrite <- !app_assoc.
    + by rewrite Hcalls0, Hlines0.
    + intros c Hc. rewrite Hf in Hc. injection Hc as <-.
      by rewrite Hlines0, <- Hcl.
    + by intros c w' _ [=].
    + rewrite Hown0 by done. apply Hown.
Qed.

(** *** The clock readings of a trace

    Operations follow one another: each starts at the clock reading at which
    the previous one ended. *)

Fixpoint chained (t : Z) (tr : list Entry) : Prop :=
  match tr with
  | [] => True
  | en :: rest => (span_of en).1 = t ∧ chained (span_of en).2 rest
  end.

(** The clock reading after the operations of [tr], which began at [t]. *)
Fixpoint trace_end (t : Z) (tr : list Entry) : Z :=
  match tr with
  | [] => t
  | en :: rest => trace_end (span_of en).2 rest
  end.

Lemma chained_app t tr1 tr2 :
  chained t (tr1 ++ tr2) ↔ chained t tr1 ∧ chained (trace_end t tr1) tr2.
Proof.
  revert t. induction tr1 as [|en tr1 IH]; intros t; simpl; [tauto |].
  rewrite IH. tauto.
Qed.

Lemma trace_end_app t tr1 tr2 :
  trace_end t (tr1 ++ tr2) = trace_end (trace_end t tr1) tr2.
Proof. revert t. induction tr1 as [|en tr1 IH]; intros t; simpl; auto. Qed.

(** [m] only adds to the trace, consecutively, and leaves the clock at the
    end of what it added. *)
Definition timed {A} (m : M A) : Prop :=
  ∀ w, ∃ tr,
    w_trace (world_of (m w)) = w_trace w ++ tr
    ∧ chained (w_clock w) tr
    ∧ w_clock (world_of (m w)) = trace_end (w_clock w) tr.

Lemma timed_ret {A} (a : A) : timed (mret a).
Proof. intros w. exists []. simpl. by rewrite app_nil_r. Qed.

Lemma timed_stop {A} h : timed (stop (A := A) h).
Proof. intros w. exists []. simpl. by rewrite app_nil_r. Qed.

Lemma timed_gets {A} (f : World → A) : timed (gets f).
Proof. intros w. exists []. simpl. by rewrite app_nil_r. Qed.

Lemma timed_modify f :
  (∀ w, w_trace (f w) = w_trace w ∧ w_clock (f w) = w_clock w) →
  timed (modify f).
Proof.
  intros Hf w. exists []. destruct (Hf w) as [Ht Hc]. simpl.
  by rewrite app_nil_r.
Qed.

Lemma timed_log e : timed (log e).
Proof. intros w. by exists [(e, w_clock w, w_clock w + lat e w)]. Qed.

Lemma timed_bind {A B} (m : M A) (k : A → M B) :
  timed m → (∀ a, timed (k a)) → timed (m ≫= k).
Proof.
  intros Hm Hk w. unfold mbind, M_bind.
  destruct (Hm w) as (tr1 & Ht1 & Hc1 & He1).
  destruct (m w) as [a w1|h w1]; simpl in *.
  - destruct (Hk a w1) as (tr2 & Ht2 & Hc2 & He2).
    exists (tr1 ++ tr2). rewrite Ht2, Ht1, <- app_assoc. split; [done |].
    rewrite chained_app, trace_end_app, <- He1. done.
  - by exists tr1.
Qed.

Ltac timed_step :=
  first
    [ apply timed_ret | apply timed_stop | apply timed_gets | apply timed_log
    | apply timed_modify; by intros []
    | apply timed_bind; [|intros ?] ].

Ltac timed_auto :=
  repeat first
    [ timed_step
    | match goal with
      | |- timed (if ?b then _ else _) => destruct b
      | |- timed (match ?o with Some _ => _ | None => _ end) => destruct o
      | |- timed (let '(_, _) := ?p in _) => destruct p
      | |- timed (match ?p with (_, _) => _ end) => destruct p
      end ].

Lemma write_trackings_timed out k ts : timed (write_trackings out k ts).
Proof.
  induction ts as [|t ts IH]; simpl; [apply timed_ret |].
  apply timed_bind; [|by intros].
  unfold ofstream_write. timed_auto.
Qed.

Lemma frame_loop_timed id out paths : ∀ cum k, timed (frame_loop id out paths cum k).
Proof.
  induction paths as [|p paths IH]; intros cum k; simpl; [apply timed_ret |].
  unfold imread, now, ImageTracker_detectAndTrack.
  timed_auto; try apply write_trackings_timed; try apply IH.
Qed.

Lemma detectAndTrack_timed s m : timed (detectAndTrack s m).
Proof.
  unfold detectAndTrack, is_directory, create_directories, exists_,
    fprintf_stderr, exit, ofstream_open, ImageTracker_new, directory_iterator,
    ofstream_close.
  timed_auto; try apply frame_loop_timed.
Qed.

(** *** Frame numbers within the range of [int] *)

(** The rows of frame groups numbered by their position. *)
Definition group_rows (groups : list (list Tracking)) : string :=
  foldr append "" (imap (λ i g, frame_rows (Z.of_nat i) g) groups).

Lemma int_advance_small (k : Z) (n : nat) :
  0 ≤ k → k + Z.of_nat n ≤ INT_MAX → int_advance k n = k + Z.of_nat n.
Proof.
  revert k. induction n as [|n IH]; intros k Hk Hn; simpl; [lia |].
  rewrite int_wrap_small by (unfold INT_MAX in *; lia).
  rewrite IH by lia. lia.
Qed.

Lemma rows_from_small (k : nat) (groups : list (list Tracking)) :
  Z.of_nat (k + length groups) ≤ INT_MAX + 1 →
  rows_from (Z.of_nat k) groups
  = foldr append "" (imap (λ i g, frame_rows (Z.of_nat (k + i)) g) groups).
Proof.
  revert k. induction groups as [|g groups IH]; intros k Hk; simpl; [done |].
  rewrite Nat.add_0_r. f_equal.
  destruct groups as [|g' groups]; [done |].
  rewrite int_wrap_small by (unfold INT_MAX in *; simpl in Hk; lia).
  replace (Z.of_nat k + 1) with (Z.of_nat (S k)) by lia.
  rewrite IH by (simpl in *; lia).
  f_equal. apply imap_ext. intros i x _. simpl. do 2 f_equal. lia.
Qed.

Lemma tracker_run_length ds st images :
  length (tracker_run ds st images).1.1 = length images.
Proof.
  revert ds st. induction images as [|image images IH]; intros ds st; simpl.
  - done.
  - destruct (detect ds image) as [ds' detections].
    destruct (track st detections) as [st' trackings].
    specialize (IH ds' st').
    destruct (tracker_run ds' st' images) as [[groups ds''] st''].
    simpl in *. by rewrite IH.
Qed.

(** ** The claims *)

(** C1 (as amended).  Writing the Trackings of a frame appends exactly their
    rows to the output file, whatever the labels: for each Tracking, in the
    order the tracker returned them, the text
    frameIndex,label,ID,x1,y1,width,height,1,-1,-1,-1 and a line feed.  When
    no label contains a comma or a line feed, that text is one line per
    Tracking, each line splits into the columns frameIndex, label, ID, x1,
    y1, width, height, 1, -1, -1, -1, and a parser of that layout recovers
    the frame index and every Tracking. *)
Theorem C1_rows_round_trip out k trackings w old :
  files (w_fs w) !! out = Some old →
  (∃ w', write_trackings out k trackings w = Ret () w'
         ∧ files (w_fs w') !! out
           = Some (old +:+ declared_rows (pair k <$> trackings)))
  ∧ frame_rows k trackings = declared_rows (pair k <$> trackings)
  ∧ (Forall (λ t, plain (label t) = true) trackings →
     getlines (declared_rows (pair k <$> trackings))
     = (λ t, String.concat "," (columns k t)) <$> trackings
     ∧ fields <$> getlines (declared_rows (pair k <$> trackings))
       = columns k <$> trackings
     ∧ parse_rows (declared_rows (pair k <$> trackings))
       = Some (pair k <$> trackings)).
Proof.
  intros Hold. split; [|split].
  - apply (wp_elim (write_trackings out k trackings) w
             (λ o, ∃ w', o = Ret () w' ∧ _)).
    eapply write_trackings_spec; [exact Hold |].
    intros w' tr Hfs _ _ _ _ _ _ _ _ _. exists w'. split; [done |].
    rewrite Hfs, <- frame_rows_declared. apply lookup_insert_eq.
  - apply frame_rows_declared.
  - intros Hplain. rewrite <- frame_rows_declared.
    rewrite getlines_frame_rows by done. split; [|split].
    + apply list_fmap_ext. intros i t _. apply row_line_declared.
    + rewrite <- list_fmap_compose.
      apply list_fmap_ext. intros i t Ht. simpl. apply fields_row_line.
      eapply (Forall_lookup_1 _ _ _ _ Hplain) in Ht.
      by apply plain_elim in Ht as [? _].
    + by apply parse_rows_frame_rows.
Qed.

(** C2.  A sequence whose images directory holds N entries (N within the
    range of [int]), whose output file is not there yet and can be created:
    the call returns the frame count N; the frames are read in the order of
    their file names, a sorted rearrangement of the directory's entries; and
    the output file consists of N groups of rows, one per frame in that
    order, the rows of the group at position i carrying the frame index i:
    the file is the text of the declared rows
    frameIndex,label,ID,x1,y1,width,height,1,-1,-1,-1 of the Trackings, each
    with the position of its frame as frameIndex, and, when no label holds a
    comma or a line feed, a parser of that layout reads exactly these
    (position, Tracking) pairs back from it. *)
Theorem C2_frames_in_path_order s m w :
  fs_is_directory (w_fs w) (inputDirPath_of s) = true →
  output_dir_ready (w_fs w) (outputDirPath_of s m) = true →
  fs_exists (w_fs w) (outputPath_of s m) = false →
  permits_write (outputPath_of s m) = true →
  (∀ l, dir_order l ≡ₚ l) →
  Z.of_nat (length (fs_entries (w_fs w) (inputDirPath_of s))) ≤ INT_MAX →
  ∃ d w' tr names,
    let N := length (fs_entries (w_fs w) (inputDirPath_of s)) in
    let paths := (λ name, inputDirPath_of s ++ [name]) <$> names in
    let groups := (sequence_run w paths).1.1 in
    detectAndTrack s m w = Ret (d, Z.of_nat N) w'
    ∧ w_trace w' = w_trace w ++ tr
    ∧ paths ≡ₚ fs_entries (w_fs w) (inputDirPath_of s)
    ∧ StronglySorted String.le names
    ∧ reads tr = paths
    ∧ length groups = N
    ∧ files (w_fs w') !! outputPath_of s m = Some (group_rows groups)
    ∧ files (w_fs w') !! outputPath_of s m
      = Some (declared_rows (indexed groups))
    ∧ (Forall (λ r, plain (label r.2) = true) (indexed groups) →
       ∃ text,
         files (w_fs w') !! outputPath_of s m = Some text
         ∧ parse_rows text = Some (indexed groups)).
Proof.
  intros Hin Hready Hex Hperm Hord HN.
  destruct (wp_elim _ _ _ (detectAndTrack_run s m w Hin Hready Hex Hperm Hord))
    as ([d n] & w' & tr & paths & Hrun & [Htr Hr Hs Hp Hk _ _ Ha _ _ _]).
  destruct (entries_names (inputDirPath_of s) paths) as [names ->].
  { apply Forall_forall. intros p Hp'. rewrite Hp in Hp'.
    by apply fs_entries_parent in Hp'. }
  assert (Hlen : length ((λ name, inputDirPath_of s ++ [name]) <$> names)
                 = length (fs_entries (w_fs w) (inputDirPath_of s))).
  { by rewrite Hp. }
  exists d, w', tr, names. cbn zeta.
  assert (Hg : length (sequence_run w
                 ((λ name, inputDirPath_of s ++ [name]) <$> names)).1.1
               = length (fs_entries (w_fs w) (inputDirPath_of s))).
  { unfold sequence_run. by rewrite tracker_run_length, length_fmap. }
  assert (Hfile : files (w_fs w') !! outputPath_of s m
                  = Some (group_rows (sequence_run w
                       ((λ name, inputDirPath_of s ++ [name]) <$> names)).1.1)).
  { rewrite Ha, lookup_insert_eq. f_equal.
    assert (Hrows : ∀ groups (b : nat),
      length groups = b → Z.of_nat b ≤ INT_MAX →
      rows_from 0 groups = group_rows groups).
    { intros groups b <- Hb. rewrite (rows_from_small 0); [done |].
      simpl. lia. }
    by eapply Hrows. }
  assert (Hdecl : ∀ groups, group_rows groups = declared_rows (indexed groups)).
  { intros groups. apply (frame_groups_declared Z.of_nat). }
  split; [|split; [|split; [|split; [|split; [|split; [|split; [|split]]]]]]];
    try done.
  - rewrite Hrun. do 2 f_equal. cbn [snd] in Hk. rewrite Hk.
    assert (Hadv : ∀ a b : nat,
      a = b → Z.of_nat b ≤ INT_MAX → int_advance 0 a = Z.of_nat b).
    { intros a b -> Hb. rewrite int_advance_small; lia. }
    by apply Hadv.
  - by apply StronglySorted_names in Hs.
  - by rewrite Hfile, Hdecl.
  - intros Hplain. eexists. split; [by rewrite Hfile, Hdecl |].
    by apply parse_rows_declared.
Qed.

Lemma fs_exists_create fs q fs' p :
  fs_create_directories fs q = Some fs' →
  fs_exists fs p = true → fs_exists fs' p = true.
Proof.
  intros Hc. unfold fs_exists.
  rewrite (fs_create_directories_dirs _ _ _ Hc).
  rewrite (fs_create_directories_files _ _ _ Hc).
  intros [H|H]%orb_true_iff; apply orb_true_iff; [left | by right].
  apply bool_decide_eq_true in H. apply bool_decide_eq_true. set_solver.
Qed.

(** The operations of a call up to the existence check of the output file:
    the directory is tested, and created when the test fails. *)
Definition prologue (s m : string) (outDirThere : bool) : list Event :=
  [EvCall s m;
   EvIsDirectory (inputDirPath_of s) true;
   EvIsDirectory (outputDirPath_of s m) outDirThere]
  ++ (if outDirThere then [] else [EvCreateDirectories (outputDirPath_of s m)]).

(** C3.  When the output file of a sequence is already there, the call
    returns zero duration and zero frames; no file is created or changed, the
    detector and every tracker object are left as they were, and the call
    performs nothing but the directory tests, the directory creation if it is
    due, the existence check and the message: no frame is read, no tracker is
    constructed, no detect-and-track call is made, nothing is written. *)
Theorem C3_existing_artifact_skipped s m w :
  fs_is_directory (w_fs w) (inputDirPath_of s) = true →
  output_dir_ready (w_fs w) (outputDirPath_of s m) = true →
  fs_exists (w_fs w) (outputPath_of s m) = true →
  ∃ w' tr,
    detectAndTrack s m w = Ret (msduration_zero, 0) w'
    ∧ count_ms msduration_zero = Some 0
    ∧ files (w_fs w') = files (w_fs w)
    ∧ w_detector w' = w_detector w
    ∧ w_trackers w' = w_trackers w
    ∧ w_trace w' = w_trace w ++ tr
    ∧ event_of <$> tr
      = prologue s m (fs_is_directory (w_fs w) (outputDirPath_of s m))
        ++ [EvExists (outputPath_of s m) true;
            EvStderr FILE_EXISTS_MESSAGE (path_str (outputPath_of s m))]
    ∧ reads tr = [] ∧ news tr = [] ∧ tracks tr = [] ∧ writes tr = [].
Proof.
  intros Hin Hready Hex.
  apply (wp_elim (detectAndTrack s m) w
           (λ o, ∃ w' tr, o = Ret (msduration_zero, 0) w' ∧ _)).
  unfold detectAndTrack, prologue. wp_steps. wsimpl. rewrite Hin. cbn [negb].
  wp_steps. wsimpl.
  destruct (fs_is_directory (w_fs w) (outputDirPath_of s m)) eqn:Hout;
    cbn [negb].
  - do 2 wp_step. wp_steps. wsimpl. rewrite Hex. wp_steps. wsimpl.
    eexists _, _. split; [reflexivity |].
    split; [done |]. wsimpl.
    split; [done |]. split; [done |]. split; [done |].
    split; [by rewrite <- !app_assoc |]. done.
  - unfold output_dir_ready in Hready. rewrite Hout in Hready.
    apply bool_decide_eq_true in Hready as [fs' Hcreate].
    do 5 wp_step. wsimpl. rewrite Hcreate. wp_step. wp_steps. wsimpl.
    rewrite (fs_exists_create _ _ _ _ Hcreate Hex). wp_steps. wsimpl.
    eexists _, _. split; [reflexivity |].
    split; [done |]. wsimpl.
    split; [by eapply fs_create_directories_files |].
    split; [done |]. split; [done |].
    split; [by rewrite <- !app_assoc |]. done.
Qed.

(** The batch loop over a list of lines is the loop over its first lines
    followed, if that returns, by the loop over the others. *)
Lemma sequence_loop_app m pre post : ∀ cum cfc w,
  sequence_loop m (pre ++ post) cum cfc w
  = match sequence_loop m pre cum cfc w with
    | Ret r w1 => sequence_loop m post r.1 r.2 w1
    | Stop h w1 => Stop h w1
    end.
Proof.
  induction pre as [|s pre IH]; intros cum cfc w; [done |].
  cbn [app sequence_loop]. unfold mbind, M_bind.
  destruct (log (EvGetline s) w) as [[] w1|]; [|done].
  destruct (cout _ w1) as [[] w2|]; [|done].
  destruct (detectAndTrack s m w2) as [[d n] w3|]; [|done].
  destruct (report _ _ _ w3) as [[] w4|]; [|done].
  apply IH.
Qed.

Definition EV_SEQUENCE (s : string) : Event :=
  EvCout [IStr "Sequence: "; IStr s; IStr (String LF "")].

Lemma sequence_loop_missing_directory m s post cum cfc w :
  fs_is_directory (w_fs w) (inputDirPath_of s) = false →
  ∃ w' tr,
    sequence_loop m (s :: post) cum cfc w = Stop (HExit EXIT_FAILURE) w'
    ∧ w_fs w' = w_fs w
    ∧ w_trace w' = w_trace w ++ tr
    ∧ event_of <$> tr
      = [EvGetline s; EV_SEQUENCE s; EvCall s m;
         EvIsDirectory (inputDirPath_of s) false;
         EvStderr OPEN_DIR_MESSAGE s].
Proof.
  intros Hin.
  apply (wp_elim (sequence_loop m (s :: post) cum cfc) w
           (λ o, ∃ w' tr, o = Stop (HExit EXIT_FAILURE) w' ∧ _)).
  cbn [sequence_loop]. unfold detectAndTrack. wp_steps. wsimpl.
  rewrite Hin. cbn [negb]. wp_steps. wsimpl.
  eexists _, _. split; [reflexivity |]. wsimpl.
  split; [done |]. split; [by rewrite <- !app_assoc |]. done.
Qed.

(** The world in which [main] enters its loop: the sequences file has been
    opened. *)
Definition opened (file : string) (w : World) : World :=
  let e := EvOpenIn (sequencesFilePath_of file) true in
  after w e (w_clock w + lat e w).

(** C6.  When the turn comes of a sequence whose images directory does not
    exist (the lines before it having been processed), the run ends there by
    [exit(EXIT_FAILURE)] after the message that the directory could not be
    opened: the call does not return (the sequence is not skipped), the file
    system is left as it was (no output directory or file is created for the
    sequence), and nothing follows (the remaining lines are not read and no
    other sequence is processed). *)
Theorem C6_missing_images_directory_aborts file m uninit w contents
    pre s post r w1 :
  files (w_fs w) !! sequencesFilePath_of file = Some contents →
  getlines contents = pre ++ s :: post →
  sequence_loop m pre uninit 0 (opened file w) = Ret r w1 →
  fs_is_directory (w_fs w1) (inputDirPath_of s) = false →
  ∃ w' tr,
    main file m uninit w = Stop (HExit EXIT_FAILURE) w'
    ∧ w_fs w' = w_fs w1
    ∧ w_trace w' = w_trace w1 ++ tr
    ∧ event_of <$> tr
      = [EvGetline s; EV_SEQUENCE s; EvCall s m;
         EvIsDirectory (inputDirPath_of s) false;
         EvStderr OPEN_DIR_MESSAGE s].
Proof.
  intros Hfile Hlines Hpre Hin.
  destruct (sequence_loop_missing_directory m s post r.1 r.2 w1 Hin)
    as (w' & tr & Hloop & Hfs & Htr & Hev).
  exists w', tr. split; [|done].
  unfold main, ifstream_open.
  unfold mbind at 1, M_bind at 1. unfold mbind at 1, M_bind at 1.
  unfold gets at 1. rewrite Hfile.
  unfold mbind at 1, M_bind at 1. unfold log at 1.
  rewrite bool_decide_eq_true_2 by done.
  unfold mret at 1, M_ret at 1.
  unfold mbind at 1, M_bind at 1. unfold mbind at 1, M_bind at 1.
  unfold opened, after in Hpre. cbn zeta in Hpre.
  rewrite Hlines, sequence_loop_app, Hpre, Hloop. done.
Qed.

(** C9.  When the images directory exists and the output directory is there
    or can be created, every call tests the output directory and, if the test
    fails, creates it with all its missing ancestors, before it checks
    whether the output file exists; so the output directory is a directory
    when the call ends, also when the check finds the file and the sequence
    is skipped. *)
Theorem C9_output_directory_before_check s m w :
  fs_is_directory (w_fs w) (inputDirPath_of s) = true →
  output_dir_ready (w_fs w) (outputDirPath_of s m) = true →
  ∃ tr present rest,
    w_trace (world_of (detectAndTrack s m w)) = w_trace w ++ tr
    ∧ event_of <$> tr
      = prologue s m (fs_is_directory (w_fs w) (outputDirPath_of s m))
        ++ EvExists (outputPath_of s m) present :: rest
    ∧ outputDirPath_of s m ∈ dirs (w_fs (world_of (detectAndTrack s m w)))
    ∧ (fs_is_directory (w_fs w) (outputDirPath_of s m) = false →
       ∀ q, q ∈ prefixes (outputDirPath_of s m) →
            q ∈ dirs (w_fs (world_of (detectAndTrack s m w))))
    ∧ (present = true →
       ∃ w', detectAndTrack s m w = Ret (msduration_zero, 0) w').
Proof.
  intros Hin Hready.
  apply (wp_elim (detectAndTrack s m) w
           (λ o, ∃ tr present rest,
              w_trace (world_of o) = w_trace w ++ tr
              ∧ event_of <$> tr
                = prologue s m
                    (fs_is_directory (w_fs w) (outputDirPath_of s m))
                  ++ EvExists (outputPath_of s m) present :: rest
              ∧ outputDirPath_of s m ∈ dirs (w_fs (world_of o))
              ∧ (fs_is_directory (w_fs w) (outputDirPath_of s m) = false →
                 ∀ q, q ∈ prefixes (outputDirPath_of s m) →
                      q ∈ dirs (w_fs (world_of o)))
              ∧ (present = true → ∃ w', o = Ret (msduration_zero, 0) w'))).
  unfold detectAndTrack. wp_steps. wsimpl. rewrite Hin. cbn [negb].
  wp_steps. wsimpl.
  assert (Hstep : ∀ (w2 : World) (pre : list Entry) (X : gset path),
    w_trace w2 = w_trace w ++ pre →
    event_of <$> pre
    = prologue s m (fs_is_directory (w_fs w) (outputDirPath_of s m)) →
    X ⊆ dirs (w_fs w2) →
    outputDirPath_of s m ∈ X →
    (fs_is_directory (w_fs w) (outputDirPath_of s m) = false →
     ∀ q, q ∈ prefixes (outputDirPath_of s m) → q ∈ X) →
    wp (exists_ (outputPath_of s m) ≫= λ present : bool,
          if present
          then fprintf_stderr FILE_EXISTS_MESSAGE
                 (path_str (outputPath_of s m));; mret (msduration_zero, 0)
          else
            ofstream_open (outputPath_of s m) ≫= λ opened : bool,
              if negb opened
              then fprintf_stderr OPEN_FILE_MESSAGE
                     (path_str (outputPath_of s m));; exit EXIT_FAILURE
              else
                ImageTracker_new ≫= λ imageTracker : nat,
                  directory_iterator (inputDirPath_of s) ≫= λ listed,
                    frame_loop imageTracker (outputPath_of s m)
                      (std_sort listed) msduration_zero 0 ≫= λ r,
                      ofstream_close (outputPath_of s m);; mret r)
       w2 (λ o, ∃ tr present rest,
              w_trace (world_of o) = w_trace w ++ tr
              ∧ event_of <$> tr
                = prologue s m
                    (fs_is_directory (w_fs w) (outputDirPath_of s m))
                  ++ EvExists (outputPath_of s m) present :: rest
              ∧ outputDirPath_of s m ∈ dirs (w_fs (world_of o))
              ∧ (fs_is_directory (w_fs w) (outputDirPath_of s m) = false →
                 ∀ q, q ∈ prefixes (outputDirPath_of s m) →
                      q ∈ dirs (w_fs (world_of o)))
              ∧ (present = true → ∃ w', o = Ret (msduration_zero, 0) w'))).
  { intros w2 pre X Hpre Hev Hdir HoX HpX. wp_steps. wsimpl.
    destruct (fs_exists (w_fs w2) (outputPath_of s m)) eqn:Hex; wp_steps.
    { wsimpl. eexists _, true, _. split; [|split; [|split; [|split]]].
      - rewrite Hpre, <- !app_assoc. reflexivity.
      - rewrite fmap_app, Hev. reflexivity.
      - by apply Hdir.
      - intros Hno q Hq. by apply Hdir, HpX.
      - intros _. by eexists. }
    wsimpl.
    destruct (fs_can_create (w_fs w2) (outputPath_of s m)) eqn:Hcan;
      wp_steps; wsimpl; cbn [negb]; wp_steps.
    2:{ wsimpl. eexists _, false, _. split; [|split; [|split; [|split]]].
        - rewrite Hpre, <- !app_assoc. reflexivity.
        - rewrite fmap_app, Hev. reflexivity.
        - by apply Hdir.
        - intros Hno q Hq. by apply Hdir, HpX.
        - done. }
    wsimpl. eapply wp_conseq.
    { eapply (frame_loop_spec _ _ _ _ _ _ MCSORT_new "").
      - wsimpl. rewrite lookup_app_r by done. by rewrite Nat.sub_diag.
      - wsimpl. apply lookup_insert_eq. }
    intros o (r & w' & tr & -> & [Htr _ _ _ _ _ _ _ Hds _ _ _ _]).
    cbn beta iota. wp_steps. wsimpl.
    eexists _, false, _. split; [|split; [|split; [|split]]].
    - rewrite Htr. wsimpl. rewrite Hpre, <- !app_assoc. reflexivity.
    - rewrite fmap_app, Hev. reflexivity.
    - rewrite Hds. by apply Hdir.
    - intros Hno q Hq. rewrite Hds. by apply Hdir, HpX.
    - done. }
  destruct (fs_is_directory (w_fs w) (outputDirPath_of s m)) eqn:Hout;
    cbn [negb].
  - do 2 wp_step.
    eapply (Hstep _ [_; _; _] {[outputDirPath_of s m]}); wsimpl;
      [by rewrite <- ?app_assoc | done | | set_solver | done].
    apply bool_decide_eq_true in Hout. set_solver.
  - unfold output_dir_ready in Hready. rewrite Hout in Hready.
    apply bool_decide_eq_true in Hready as [fs' Hcreate].
    do 5 wp_step. wsimpl. rewrite Hcreate. wp_step. wsimpl.
    eapply (Hstep _ [_; _; _; _]
              (list_to_set (prefixes (outputDirPath_of s m)))); wsimpl;
      [by rewrite <- ?app_assoc | done | | |].
    + rewrite (fs_create_directories_dirs _ _ _ Hcreate). set_solver.
    + apply elem_of_list_to_set, outputDir_in_prefixes.
    + intros _ q Hq. by apply elem_of_list_to_set.
Qed.

(** Division of a double by zero gives a NaN or an infinity. *)
Lemma div_by_zero_special (x : float) :
  Prim2SF (x / double_of_Z 0) = S754_nan
  ∨ ∃ s, Prim2SF (x / double_of_Z 0) = S754_infinity s.
Proof.
  rewrite div_spec.
  change (Prim2SF (double_of_Z 0)) with (S754_zero false).
  unfold SF64div, SFdiv. destruct (Prim2SF x); eauto.
Qed.

(** C4.  When the duration of a sequence comes to zero whole milliseconds,
    the report of its throughput returns: the line is printed with the
    duration 0 and a throughput that is a NaN or an infinity, a NaN when the
    frame count is zero.  A call that read no frame returns the zero duration
    and the frame count zero, and the zero duration is zero milliseconds. *)
Theorem C4_zero_duration_throughput what d frameCount w :
  count_ms d = Some 0 →
  let line := EvCout [IStr what; IInt 0; IStr "ms"; IStr " (";
                      IDouble (throughput frameCount 0);
                      IStr ("fps)" +:+ String LF "")] in
  report what d frameCount w = Ret () (after w line (w_clock w + lat line w))
  ∧ (Prim2SF (throughput frameCount 0) = S754_nan
     ∨ ∃ s, Prim2SF (throughput frameCount 0) = S754_infinity s)
  ∧ (frameCount = 0 → PrimFloat.is_nan (throughput frameCount 0) = true)
  ∧ count_ms msduration_zero = Some 0
  ∧ (∀ s m w0 d0 n0 w1 tr,
       detectAndTrack s m w0 = Ret (d0, n0) w1 →
       w_trace w1 = w_trace w0 ++ tr →
       reads tr = [] →
       d0 = msduration_zero ∧ n0 = 0).
Proof.
  intros Hd. cbn zeta. split; [|split; [|split; [|split]]].
  - unfold report, count_ms_or_undefined. rewrite Hd. done.
  - apply div_by_zero_special.
  - intros ->. done.
  - done.
  - intros s m w0 d0 n0 w1 tr Hrun Htr Hreads.
    destruct (wp_elim _ _ _ (detectAndTrack_call s m w0)) as (tr' & Hpost).
    rewrite Hrun in Hpost. destruct Hpost as [Htr' _ _ _ _ _ _ Hf Hdur _ _ Hcnt].
    cbn [world_of] in Htr'. rewrite Htr in Htr'.
    apply app_inv_head in Htr' as ->.
    rewrite Hreads in Hf, Hcnt. symmetry in Hf.
    apply length_zero_iff_nil in Hf.
    split.
    + rewrite (Hdur _ _ _ eq_refl), Hf. done.
    + by rewrite (Hcnt _ _ _ eq_refl).
Qed.

(** C8.  The duration a call returns is the sum, over its detect-and-track
    calls in order, of the clock reading after the call minus the clock
    reading before it, converted to milliseconds and added up from zero; there
    is one such call per frame read.  The operations of the call follow one
    another in time, each starting at the reading at which the previous one
    ended, so the time of every other operation (decoding a frame, writing
    rows, the file-system operations) lies outside the intervals that are
    summed. *)
Theorem C8_duration_is_tracking_time s m w d n w' :
  detectAndTrack s m w = Ret (d, n) w' →
  ∃ tr,
    w_trace w' = w_trace w ++ tr
    ∧ d = fold_left add_span (tracks tr).*2 msduration_zero
    ∧ length (tracks tr) = length (reads tr)
    ∧ chained (w_clock w) tr
    ∧ w_clock w' = trace_end (w_clock w) tr.
Proof.
  intros Hrun.
  destruct (wp_elim _ _ _ (detectAndTrack_call s m w)) as (tr & Hpost).
  destruct (detectAndTrack_timed s m w) as (tr' & Htr' & Hch & Hend).
  rewrite Hrun in Hpost, Htr', Hend.
  destruct Hpost as [Htr _ _ _ _ _ _ Hf Hdur _ _ _].
  cbn [world_of] in *. rewrite Htr in Htr'. apply app_inv_head in Htr' as <-.
  exists tr. split; [done |]. split; [by eapply Hdur |]. done.
Qed.

(** [main] once the sequences file is open. *)
Lemma main_opened file m uninit w contents :
  files (w_fs w) !! sequencesFilePath_of file = Some contents →
  main file m uninit w
  = (sequence_loop m (getlines contents) uninit 0 ≫= λ r,
       ifstream_close (sequencesFilePath_of file);;
       report "Total duration: " r.1 r.2;;
       exit EXIT_SUCCESS) (opened file w).
Proof.
  intros Hfile. unfold main, ifstream_open.
  unfold mbind at 1, M_bind at 1. unfold mbind at 1, M_bind at 1.
  unfold gets at 1. rewrite Hfile.
  unfold mbind at 1, M_bind at 1. unfold log at 1.
  rewrite bool_decide_eq_true_2 by done.
  unfold mret at 1, M_ret at 1. done.
Qed.

(** The loop at a line: the line is read, announced and passed to
    [detectAndTrack], whatever follows. *)
Lemma sequence_loop_next m s post cum cfc w :
  wp (sequence_loop m (s :: post) cum cfc) w
     (λ o, ∃ tr rest,
        w_trace (world_of o) = w_trace w ++ tr
        ∧ event_of <$> tr
          = EvGetline s :: EV_SEQUENCE s :: EvCall s m :: rest).
Proof.
  cbn [sequence_loop]. do 5 wp_step. wsimpl.
  eapply wp_conseq; [apply detectAndTrack_call |].
  intros o (trc & [Htr (t0 & t1 & t2 & trc' & -> & _) _ _ _ _ _ _ _ _ _ _]).
  destruct o as [[d n] w1|h w1]; wsimpl.
  2:{ eexists _, _. wsimpl. split.
      - rewrite Htr. wsimpl. rewrite <- !app_assoc. reflexivity.
      - reflexivity. }
  do 4 wp_step. cbn [fst snd].
  destruct (count_ms d) as [duration|] eqn:Hms.
  2:{ wp_step. eexists _, _. wsimpl. split.
      - rewrite Htr. wsimpl. rewrite <- !app_assoc. reflexivity.
      - reflexivity. }
  do 2 wp_step. wsimpl.
  eapply wp_conseq; [apply sequence_loop_spec |].
  intros o (trr & [Htr' _ _ _ _ _ _]). wsimpl.
  eexists _, _. split.
  - rewrite Htr'. wsimpl. rewrite Htr. wsimpl. rewrite <- !app_assoc.
    reflexivity.
  - cbn [app]. rewrite !fmap_cons. reflexivity.
Qed.

(** C10.  [main] calls [detectAndTrack] once for each line it reads, with the
    line as it was read, in the order read: the lines are those [std::getline]
    delivers from the sequences file, all of them when the run ends by
    [exit(EXIT_SUCCESS)].  It does go on from line to line: when the calls for
    the lines before a line have returned, they were the calls for exactly
    those lines, and the run continues by reading that line, announcing it
    and calling [detectAndTrack] with it.  Every run of characters up to a
    line feed is a line, the empty one and those of blanks included; and the
    call for the empty line tests the directory [images] directly under the
    data directory. *)
Theorem C10_lines_passed_verbatim file m uninit w contents :
  files (w_fs w) !! sequencesFilePath_of file = Some contents →
  (∃ tr,
     w_trace (world_of (main file m uninit w)) = w_trace w ++ tr
     ∧ calls tr = lines_read tr
     ∧ lines_read tr `prefix_of` getlines contents
     ∧ (∀ w', main file m uninit w = Stop (HExit EXIT_SUCCESS) w' →
              calls tr = getlines contents))
  ∧ (∀ pre s post r w1,
       getlines contents = pre ++ s :: post →
       sequence_loop m pre uninit 0 (opened file w) = Ret r w1 →
       ∃ tr1 tr2 rest,
         w_trace w1 = w_trace (opened file w) ++ tr1
         ∧ calls tr1 = pre
         ∧ w_trace (world_of (main file m uninit w)) = w_trace w1 ++ tr2
         ∧ event_of <$> tr2
           = EvGetline s :: EV_SEQUENCE s :: EvCall s m :: rest)
  ∧ (∀ line rest,
       has_char LF line = false →
       getlines (line +:+ String LF rest) = line :: getlines rest)
  ∧ (∀ w0, ∃ t0 t1 t2 tr',
       w_trace (world_of (detectAndTrack "" m w0))
       = w_trace w0
         ++ (EvCall "" m, t0, t1)
            :: (EvIsDirectory (dataDirPath ++ ["images"%string])
                  (fs_is_directory (w_fs w0) (dataDirPath ++ ["images"%string])),
                t1, t2)
            :: tr').
Proof.
  intros Hfile. split; [|split; [|split]].
  - destruct (wp_elim _ _ _ (main_spec file m uninit w))
      as (tr & [Htr Hcl Hp Hcomp _]).
    exists tr. split; [done |]. split; [done |]. split; [by apply Hp |].
    intros w' Hrun. rewrite Hcl. by eapply Hcomp.
  - intros pre s post r w1 Hlines Hpre.
    destruct (wp_elim _ _ _ (sequence_loop_spec m pre uninit 0 (opened file w)))
      as (tr1 & [Htr1 _ _ Hcomp1 _ _ _]).
    rewrite Hpre in Htr1, Hcomp1. cbn [world_of] in Htr1.
    assert (Hgo : ∃ tr2 rest,
      w_trace (world_of (main file m uninit w)) = w_trace w1 ++ tr2
      ∧ event_of <$> tr2
        = EvGetline s :: EV_SEQUENCE s :: EvCall s m :: rest).
    { rewrite (main_opened _ _ _ _ _ Hfile), Hlines.
      unfold mbind at 1, M_bind at 1.
      rewrite sequence_loop_app, Hpre.
      enough (Hwp : wp
               (sequence_loop m (s :: post) r.1 r.2 ≫= λ r0,
                  ifstream_close (sequencesFilePath_of file);;
                  report "Total duration: " r0.1 r0.2;;
                  exit EXIT_SUCCESS) w1
               (λ o, ∃ tr2 rest,
                  w_trace (world_of o) = w_trace w1 ++ tr2
                  ∧ event_of <$> tr2
                    = EvGetline s :: EV_SEQUENCE s :: EvCall s m :: rest))
        by exact Hwp.
      apply wp_bind. eapply wp_conseq; [apply sequence_loop_next |].
      intros o (tr2 & rest & Htr2 & Hev).
      destruct o as [[d n] w2|h w2]; wsimpl; [| by exists tr2, rest].
      do 6 wp_step. cbn [fst snd].
      destruct (count_ms d) as [total|] eqn:Hms; wp_steps; wsimpl.
      - eexists (tr2 ++ [_; _]), _. split.
        + rewrite Htr2, <- !app_assoc. reflexivity.
        + rewrite fmap_app, Hev. reflexivity.
      - eexists (tr2 ++ [_]), _. split.
        + rewrite Htr2, <- !app_assoc. reflexivity.
        + rewrite fmap_app, Hev. reflexivity. }
    destruct Hgo as (tr2 & rest & Htr2 & Hev).
    exists tr1, tr2, rest. split; [done |]. split; [|done].
    apply Hcomp1. by eexists _, _.
  - intros line rest Hline. unfold getlines.
    by rewrite lines_go_line.
  - intros w0.
    destruct (wp_elim _ _ _ (detectAndTrack_call "" m w0))
      as (tr & [Htr (t0 & t1 & t2 & tr' & -> & _) _ _ _ _ _ _ _ _ _ _]).
    by exists t0, t1, t2, tr'.
Qed.

(** C7.  In a run of [main], two detect-and-track calls use the same tracker
    object exactly when they belong to the same sequence of the batch, and
    every tracker object used was allocated during the run.  A call of
    [detectAndTrack] leaves the tracker objects that existed before it as they
    were; and a call that processes its sequence leaves its own tracker in
    the state reached from a newly constructed tracker by the updates for the
    frames of the sequence, in order. *)
Theorem C7_tracker_fresh_per_sequence file m uninit w :
  (∃ tr,
     w_trace (world_of (main file m uninit w)) = w_trace w ++ tr
     ∧ per_sequence (owners 0 tr)
     ∧ Forall (λ x, length (w_trackers w) ≤ x.2)%nat (owners 0 tr))
  ∧ (∀ s w0,
       w_trackers w0 `prefix_of` w_trackers (world_of (detectAndTrack s m w0)))
  ∧ (∀ s w0,
       fs_is_directory (w_fs w0) (inputDirPath_of s) = true →
       output_dir_ready (w_fs w0) (outputDirPath_of s m) = true →
       fs_exists (w_fs w0) (outputPath_of s m) = false →
       permits_write (outputPath_of s m) = true →
       (∀ l, dir_order l ≡ₚ l) →
       ∃ r w1 tr paths,
         detectAndTrack s m w0 = Ret r w1
         ∧ w_trace w1 = w_trace w0 ++ tr
         ∧ reads tr = paths
         ∧ (tracks tr).*1 = replicate (length paths) (length (w_trackers w0))
         ∧ w_trackers w1 = w_trackers w0 ++ [(sequence_run w0 paths).2]).
Proof.
  split; [|split].
  - destruct (wp_elim _ _ _ (main_spec file m uninit w))
      as (tr & [Htr _ _ _ [Hall Hper]]).
    exists tr. split; [done |]. split; [done |].
    eapply Forall_impl; [exact Hall |]. by intros x [_ ?].
  - intros s w0.
    destruct (wp_elim _ _ _ (detectAndTrack_call s m w0)) as (tr & Hpost).
    by destruct Hpost.
  - intros s w0 Hin Hready Hex Hperm Hord.
    destruct (wp_elim _ _ _
                (detectAndTrack_run s m w0 Hin Hready Hex Hperm Hord))
      as (r & w1 & tr & paths & Hrun & [Htr Hr _ _ _ Hi _ _ _ Ht _]).
    by exists r, w1, tr, paths.
Qed.

(** ** Further properties of [detectAndTrack] *)

(** Creating the output directory leaves the question whether the output
    file exists as it was. *)
Lemma fs_exists_create_false fs fs' s m :
  fs_create_directories fs (outputDirPath_of s m) = Some fs' →
  fs_exists fs (outputPath_of s m) = false →
  fs_exists fs' (outputPath_of s m) = false.
Proof.
  intros Hc [Hd Hf]%fs_exists_false. unfold fs_exists.
  rewrite (fs_create_directories_dirs _ _ _ Hc).
  rewrite (fs_create_directories_files _ _ _ Hc).
  rewrite bool_decide_eq_false_2.
  - rewrite bool_decide_eq_false_2; [done |]. rewrite Hf. by intros [? ?].
  - rewrite elem_of_union, elem_of_list_to_set. intros [?|?]; [done |].
    by eapply outputPath_not_in_prefixes.
Qed.

(** X1.  When the output file is not there and cannot be opened for writing
    (lines 53-59), the call ends the run by [exit(EXIT_FAILURE)] after the
    message that names the output file.  The output directory has been
    created by then if it was missing; no file is created or changed, no
    tracker is constructed and no frame is read. *)
Theorem detectAndTrack_output_unwritable s m w :
  fs_is_directory (w_fs w) (inputDirPath_of s) = true →
  output_dir_ready (w_fs w) (outputDirPath_of s m) = true →
  fs_exists (w_fs w) (outputPath_of s m) = false →
  permits_write (outputPath_of s m) = false →
  ∃ w' tr,
    detectAndTrack s m w = Stop (HExit EXIT_FAILURE) w'
    ∧ files (w_fs w') = files (w_fs w)
    ∧ outputDirPath_of s m ∈ dirs (w_fs w')
    ∧ w_detector w' = w_detector w
    ∧ w_trackers w' = w_trackers w
    ∧ w_trace w' = w_trace w ++ tr
    ∧ event_of <$> tr
      = prologue s m (fs_is_directory (w_fs w) (outputDirPath_of s m))
        ++ [EvExists (outputPath_of s m) false;
            EvOpenOut (outputPath_of s m) false;
            EvStderr OPEN_FILE_MESSAGE (path_str (outputPath_of s m))].
Proof.
  intros Hin Hready Hex Hperm.
  assert (Hcan : ∀ fs, fs_can_create fs (outputPath_of s m) = false).
  { intros fs. unfold fs_can_create. rewrite outputPath_parent, Hperm.
    apply andb_false_r. }
  apply (wp_elim (detectAndTrack s m) w
           (λ o, ∃ w' tr, o = Stop (HExit EXIT_FAILURE) w' ∧ _)).
  unfold detectAndTrack, prologue. wp_steps. wsimpl. rewrite Hin. cbn [negb].
  wp_steps. wsimpl.
  destruct (fs_is_directory (w_fs w) (outputDirPath_of s m)) eqn:Hout;
    cbn [negb].
  - do 2 wp_step. wp_steps. wsimpl. rewrite Hex. wp_steps. wsimpl.
    rewrite Hcan. wp_steps. wsimpl. cbn [negb]. wp_steps. wsimpl.
    eexists _, _. split; [reflexivity |]. wsimpl.
    split; [done |]. split; [by apply bool_decide_eq_true in Hout |].
    split; [done |]. split; [done |].
    split; [by rewrite <- !app_assoc |]. done.
  - unfold output_dir_ready in Hready. rewrite Hout in Hready.
    apply bool_decide_eq_true in Hready as [fs' Hcreate].
    do 5 wp_step. wsimpl. rewrite Hcreate. wp_step. wp_steps. wsimpl.
    rewrite (fs_exists_create_false _ _ _ _ Hcreate Hex). wp_steps. wsimpl.
    rewrite Hcan. wp_steps. wsimpl. cbn [negb]. wp_steps. wsimpl.
    eexists _, _. split; [reflexivity |]. wsimpl.
    split; [by eapply fs_create_directories_files |].
    split.
    { rewrite (fs_create_directories_dirs _ _ _ Hcreate).
      rewrite elem_of_union, elem_of_list_to_set. right.
      apply outputDir_in_prefixes. }
    split; [done |]. split; [done |].
    split; [by rewrite <- !app_assoc |]. done.
Qed.

(** X2.  When the output directory is missing and cannot be created, an
    ancestor of it (or the path itself) being a regular file, the exception
    of [create_directories] (line 43) is caught by nobody: the run ends
    there, before the existence check, with the file system as it was and
    without any message of the program's own. *)
Theorem detectAndTrack_create_directories_throws s m w :
  fs_is_directory (w_fs w) (inputDirPath_of s) = true →
  fs_is_directory (w_fs w) (outputDirPath_of s m) = false →
  fs_create_directories (w_fs w) (outputDirPath_of s m) = None →
  ∃ w' tr,
    detectAndTrack s m w = Stop HThrow w'
    ∧ w_fs w' = w_fs w
    ∧ w_detector w' = w_detector w
    ∧ w_trackers w' = w_trackers w
    ∧ w_trace w' = w_trace w ++ tr
    ∧ event_of <$> tr = prologue s m false.
Proof.
  intros Hin Hout Hcreate.
  apply (wp_elim (detectAndTrack s m) w
           (λ o, ∃ w' tr, o = Stop HThrow w' ∧ _)).
  unfold detectAndTrack, prologue. wp_steps. wsimpl. rewrite Hin. cbn [negb].
  wp_steps. wsimpl. rewrite Hout. cbn [negb].
  do 5 wp_step. wsimpl. rewrite Hcreate. wp_step. wsimpl.
  eexists _, _. split; [reflexivity |]. wsimpl.
  split; [done |]. split; [done |]. split; [done |].
  split; [by rewrite <- !app_assoc |]. done.
Qed.

(** What a call does to the file system, however it ends. *)
Definition fs_kept (s m : string) (fs fs' : FS) : Prop :=
  (∀ p c, files fs !! p = Some c → files fs' !! p = Some c)
  ∧ (∀ p, p ≠ outputPath_of s m → files fs' !! p = files fs !! p)
  ∧ dirs fs ⊆ dirs fs'
  ∧ (∀ q, q ∈ dirs fs' → q ∈ dirs fs ∨ q ∈ prefixes (outputDirPath_of s m)).

Lemma detectAndTrack_fs_kept s m w :
  wp (detectAndTrack s m) w (λ o, fs_kept s m (w_fs w) (w_fs (world_of o))).
Proof.
  assert (Hrefl : ∀ fs' : FS,
    files fs' = files (w_fs w) →
    dirs (w_fs w) ⊆ dirs fs' →
    (∀ q, q ∈ dirs fs' →
          q ∈ dirs (w_fs w) ∨ q ∈ prefixes (outputDirPath_of s m)) →
    fs_kept s m (w_fs w) fs').
  { intros fs' Hf Hsub Hnew. split; [|split; [|split]]; try done.
    - intros p c. by rewrite Hf.
    - intros p _. by rewrite Hf. }
  unfold detectAndTrack. wp_steps. wsimpl.
  destruct (fs_is_directory (w_fs w) (inputDirPath_of s)) eqn:Hin;
    cbn [negb]; wp_steps; wsimpl; [| apply Hrefl; auto].
  assert (Hstep : ∀ (w2 : World),
    files (w_fs w2) = files (w_fs w) →
    dirs (w_fs w) ⊆ dirs (w_fs w2) →
    (∀ q, q ∈ dirs (w_fs w2) →
          q ∈ dirs (w_fs w) ∨ q ∈ prefixes (outputDirPath_of s m)) →
    wp (exists_ (outputPath_of s m) ≫= λ present : bool,
          if present
          then fprintf_stderr FILE_EXISTS_MESSAGE
                 (path_str (outputPath_of s m));; mret (msduration_zero, 0)
          else
            ofstream_open (outputPath_of s m) ≫= λ opened : bool,
              if negb opened
              then fprintf_stderr OPEN_FILE_MESSAGE
                     (path_str (outputPath_of s m));; exit EXIT_FAILURE
              else
                ImageTracker_new ≫= λ imageTracker : nat,
                  directory_iterator (inputDirPath_of s) ≫= λ listed,
                    frame_loop imageTracker (outputPath_of s m)
                      (std_sort listed) msduration_zero 0 ≫= λ r,
                      ofstream_close (outputPath_of s m);; mret r)
       w2 (λ o, fs_kept s m (w_fs w) (w_fs (world_of o)))).
  { intros w2 Hfiles Hsub Hnew. wp_steps. wsimpl.
    destruct (fs_exists (w_fs w2) (outputPath_of s m)) eqn:Hex; wp_steps;
      wsimpl; [by apply Hrefl |].
    apply fs_exists_false in Hex as [_ Hnone].
    destruct (fs_can_create (w_fs w2) (outputPath_of s m)) eqn:Hcan;
      wp_steps; wsimpl; cbn [negb]; wp_steps; wsimpl; [| by apply Hrefl].
    eapply wp_conseq.
    { eapply (frame_loop_spec _ _ _ _ _ _ MCSORT_new "").
      - wsimpl. rewrite lookup_app_r by done. by rewrite Nat.sub_diag.
      - wsimpl. apply lookup_insert_eq. }
    intros o (r & w' & tr & -> & [_ _ _ _ _ _ _ _ Hds [c Hf] _ _ _]).
    cbn beta iota. wp_steps. wsimpl.
    rewrite insert_insert_eq in Hf.
    split; [|split; [|split]].
    - intros p c' Hp. rewrite Hf. rewrite lookup_insert_ne; [by rewrite Hfiles |].
      intros <-. rewrite Hfiles in Hnone. by rewrite Hnone in Hp.
    - intros p Hp. rewrite Hf. rewrite lookup_insert_ne by done.
      by rewrite Hfiles.
    - by rewrite Hds.
    - rewrite Hds. exact Hnew. }
  destruct (fs_is_directory (w_fs w) (outputDirPath_of s m)) eqn:Hout;
    cbn [negb].
  - do 2 wp_step. apply Hstep; wsimpl; auto.
  - do 5 wp_step. wsimpl.
    destruct (fs_create_directories (w_fs w) (outputDirPath_of s m))
      as [fs'|] eqn:Hcreate; wp_step; wsimpl; [| apply Hrefl; auto].
    pose proof (fs_create_directories_dirs _ _ _ Hcreate) as Hcd.
    pose proof (fs_create_directories_files _ _ _ Hcreate) as Hcf.
    apply Hstep; wsimpl; [done | |].
    + rewrite Hcd. apply union_subseteq_l.
    + intros q. rewrite Hcd, elem_of_union, elem_of_list_to_set. auto.
Qed.

(** X3.  However a call ends, it has overwritten nothing: every file that
    was there keeps its contents, the output file of the sequence is the only
    file that can have appeared, no directory has been removed, and every
    directory that has appeared is the output directory of the sequence or an
    ancestor of it. *)
Theorem detectAndTrack_overwrites_nothing s m w :
  (∀ p c, files (w_fs w) !! p = Some c →
          files (w_fs (world_of (detectAndTrack s m w))) !! p = Some c)
  ∧ (∀ p, p ≠ outputPath_of s m →
          files (w_fs (world_of (detectAndTrack s m w))) !! p
          = files (w_fs w) !! p)
  ∧ dirs (w_fs w) ⊆ dirs (w_fs (world_of (detectAndTrack s m w)))
  ∧ (∀ q, q ∈ dirs (w_fs (world_of (detectAndTrack s m w))) →
          q ∈ dirs (w_fs w) ∨ q `prefix_of` outputDirPath_of s m).
Proof.
  destruct (wp_elim _ _ _ (detectAndTrack_fs_kept s m w))
    as (Hkeep & Hother & Hsub & Hnew).
  split; [done |]. split; [done |]. split; [done |].
  intros q [?|Hq]%Hnew; [by left | right].
  by apply elem_of_prefixes in Hq as [_ ?].
Qed.

(** A call that finds the images directory, the output directory and the
    output file does nothing but find them. *)
Lemma detectAndTrack_skip s m w :
  fs_is_directory (w_fs w) (inputDirPath_of s) = true →
  fs_is_directory (w_fs w) (outputDirPath_of s m) = true →
  fs_exists (w_fs w) (outputPath_of s m) = true →
  ∃ w' tr,
    detectAndTrack s m w = Ret (msduration_zero, 0) w'
    ∧ w_fs w' = w_fs w
    ∧ w_detector w' = w_detector w
    ∧ w_trackers w' = w_trackers w
    ∧ w_trace w' = w_trace w ++ tr
    ∧ event_of <$> tr
      = [EvCall s m;
         EvIsDirectory (inputDirPath_of s) true;
         EvIsDirectory (outputDirPath_of s m) true;
         EvExists (outputPath_of s m) true;
         EvStderr FILE_EXISTS_MESSAGE (path_str (outputPath_of s m))].
Proof.
  intros Hin Hout Hex.
  apply (wp_elim (detectAndTrack s m) w
           (λ o, ∃ w' tr, o = Ret (msduration_zero, 0) w' ∧ _)).
  unfold detectAndTrack. wp_steps. wsimpl. rewrite Hin. cbn [negb].
  wp_steps. wsimpl. rewrite Hout. cbn [negb].
  do 2 wp_step. wp_steps. wsimpl. rewrite Hex. wp_steps. wsimpl.
  eexists _, _. split; [reflexivity |]. wsimpl.
  split; [done |]. split; [done |]. split; [done |].
  split; [by rewrite <- !app_assoc |]. done.
Qed.

(** What a call that returns leaves behind: the three things the next call
    for the same sequence looks for. *)
Lemma detectAndTrack_returned s m w :
  wp (detectAndTrack s m) w
     (λ o, ∀ r w', o = Ret r w' →
           fs_is_directory (w_fs w') (inputDirPath_of s) = true
           ∧ fs_is_directory (w_fs w') (outputDirPath_of s m) = true
           ∧ fs_exists (w_fs w') (outputPath_of s m) = true).
Proof.
  unfold detectAndTrack. wp_steps. wsimpl.
  destruct (fs_is_directory (w_fs w) (inputDirPath_of s)) eqn:Hin;
    cbn [negb]; wp_steps; wsimpl; [| done].
  apply bool_decide_eq_true in Hin.
  assert (Hstep : ∀ (w2 : World),
    inputDirPath_of s ∈ dirs (w_fs w2) →
    outputDirPath_of s m ∈ dirs (w_fs w2) →
    wp (exists_ (outputPath_of s m) ≫= λ present : bool,
          if present
          then fprintf_stderr FILE_EXISTS_MESSAGE
                 (path_str (outputPath_of s m));; mret (msduration_zero, 0)
          else
            ofstream_open (outputPath_of s m) ≫= λ opened : bool,
              if negb opened
              then fprintf_stderr OPEN_FILE_MESSAGE
                     (path_str (outputPath_of s m));; exit EXIT_FAILURE
              else
                ImageTracker_new ≫= λ imageTracker : nat,
                  directory_iterator (inputDirPath_of s) ≫= λ listed,
                    frame_loop imageTracker (outputPath_of s m)
                      (std_sort listed) msduration_zero 0 ≫= λ r,
                      ofstream_close (outputPath_of s m);; mret r)
       w2 (λ o, ∀ r w', o = Ret r w' →
                fs_is_directory (w_fs w') (inputDirPath_of s) = true
                ∧ fs_is_directory (w_fs w') (outputDirPath_of s m) = true
                ∧ fs_exists (w_fs w') (outputPath_of s m) = true)).
  { intros w2 Hi Ho. wp_steps. wsimpl.
    destruct (fs_exists (w_fs w2) (outputPath_of s m)) eqn:Hex; wp_steps;
      wsimpl.
    { intros r w' [= _ <-]. wsimpl. unfold fs_is_directory.
      by rewrite !bool_decide_eq_true_2. }
    destruct (fs_can_create (w_fs w2) (outputPath_of s m)) eqn:Hcan;
      wp_steps; wsimpl; cbn [negb]; wp_steps; wsimpl; [| done].
    eapply wp_conseq.
    { eapply (frame_loop_spec _ _ _ _ _ _ MCSORT_new "").
      - wsimpl. rewrite lookup_app_r by done. by rewrite Nat.sub_diag.
      - wsimpl. apply lookup_insert_eq. }
    intros o (r & w' & tr & -> & [_ _ _ _ _ _ _ _ Hds [c Hf] _ _ _]).
    cbn beta iota. wp_steps. wsimpl.
    intros r' w'' [= _ <-]. wsimpl. unfold fs_is_directory, fs_exists.
    rewrite Hds. rewrite !bool_decide_eq_true_2 by done.
    split; [done |]. split; [done |].
    rewrite Hf, lookup_insert_eq. rewrite (bool_decide_eq_true_2 (is_Some _));
      [apply orb_true_r | by eexists]. }
  destruct (fs_is_directory (w_fs w) (outputDirPath_of s m)) eqn:Hout;
    cbn [negb].
  - do 2 wp_step. apply Hstep; wsimpl; [done |].
    by apply bool_decide_eq_true in Hout.
  - do 5 wp_step. wsimpl.
    destruct (fs_create_directories (w_fs w) (outputDirPath_of s m))
      as [fs'|] eqn:Hcreate; wp_step; wsimpl; [| done].
    pose proof (fs_create_directories_dirs _ _ _ Hcreate) as Hcd.
    apply Hstep; wsimpl; rewrite Hcd, elem_of_union.
    + by left.
    + right. apply elem_of_list_to_set, outputDir_in_prefixes.
Qed.

(** X4.  A call that returned is not repeated: the next call for the same
    sequence and model type, from the world the first one left, returns zero
    duration and zero frames after the three tests and the message, and
    leaves the file system, the detector and the tracker objects as the first
    call left them. *)
Theorem detectAndTrack_again_is_skipped s m w r w1 :
  detectAndTrack s m w = Ret r w1 →
  ∃ w2 tr,
    detectAndTrack s m w1 = Ret (msduration_zero, 0) w2
    ∧ w_fs w2 = w_fs w1
    ∧ w_detector w2 = w_detector w1
    ∧ w_trackers w2 = w_trackers w1
    ∧ w_trace w2 = w_trace w1 ++ tr
    ∧ event_of <$> tr
      = [EvCall s m;
         EvIsDirectory (inputDirPath_of s) true;
         EvIsDirectory (outputDirPath_of s m) true;
         EvExists (outputPath_of s m) true;
         EvStderr FILE_EXISTS_MESSAGE (path_str (outputPath_of s m))].
Proof.
  intros Hrun.
  destruct (wp_elim _ _ _ (detectAndTrack_returned s m w) r w1 Hrun)
    as (Hin & Hout & Hex).
  by apply detectAndTrack_skip.
Qed.

(** X5.  A sequence whose images directory is empty (and whose output file is
    not there yet and can be created) is processed all the same: the call
    returns zero duration and zero frames, leaves an empty output file, has
    constructed a tracker that it never used and has not called the
    detector. *)
Theorem detectAndTrack_empty_sequence s m w :
  fs_is_directory (w_fs w) (inputDirPath_of s) = true →
  output_dir_ready (w_fs w) (outputDirPath_of s m) = true →
  fs_exists (w_fs w) (outputPath_of s m) = false →
  permits_write (outputPath_of s m) = true →
  (∀ l, dir_order l ≡ₚ l) →
  fs_entries (w_fs w) (inputDirPath_of s) = [] →
  ∃ w' tr,
    detectAndTrack s m w = Ret (msduration_zero, 0) w'
    ∧ files (w_fs w') = <[outputPath_of s m := ""]> (files (w_fs w))
    ∧ w_detector w' = w_detector w
    ∧ w_trackers w' = w_trackers w ++ [MCSORT_new]
    ∧ w_trace w' = w_trace w ++ tr
    ∧ reads tr = [] ∧ tracks tr = [].
Proof.
  intros Hin Hready Hex Hperm Hord Hnone.
  destruct (wp_elim _ _ _ (detectAndTrack_run s m w Hin Hready Hex Hperm Hord))
    as ([d n] & w' & tr & paths & Hrun & [Htr Hr _ Hp Hk Hi Hd Ha Hdet Htk _]).
  rewrite Hnone in Hp. apply Permutation_nil_r in Hp as ->.
  cbn [fst snd length int_advance sequence_run fmap list_fmap tracker_run
       rows_from] in *.
  assert (Ht : tracks tr = []) by by apply fmap_nil_inv in Hi.
  rewrite Ht in Hd. cbn in Hd. subst d n.
  exists w', tr. split; [done |]. split; [done |]. split; [done |].
  split; [done |]. split; [done |]. done.
Qed.

(** ** Further properties of [main] (lines 143-168) *)

(** X6.  When there is nothing at the path of the sequences file (lines
    143-145 and 164-167), the run ends by [exit(EXIT_FAILURE)] after one
    message, which carries the file name as it was given, not the path that
    was tried; nothing else has happened. *)
Theorem main_sequences_file_missing file m uninit w :
  fs_exists (w_fs w) (sequencesFilePath_of file) = false →
  ∃ w' tr,
    main file m uninit w = Stop (HExit EXIT_FAILURE) w'
    ∧ w_fs w' = w_fs w
    ∧ w_detector w' = w_detector w
    ∧ w_trackers w' = w_trackers w
    ∧ w_trace w' = w_trace w ++ tr
    ∧ event_of <$> tr
      = [EvOpenIn (sequencesFilePath_of file) false;
         EvStderr OPEN_FILE_MESSAGE file].
Proof.
  intros [_ Hnone]%fs_exists_false.
  apply (wp_elim (main file m uninit) w
           (λ o, ∃ w' tr, o = Stop (HExit EXIT_FAILURE) w' ∧ _)).
  unfold main. do 4 wp_step. wsimpl. rewrite Hnone. wp_steps. wsimpl.
  eexists _, _. split; [reflexivity |]. wsimpl.
  split; [done |]. split; [done |]. split; [done |].
  split; [by rewrite <- !app_assoc |]. done.
Qed.

(** *** The totals of a batch, read from the trace *)

Definition is_call (en : Entry) : bool :=
  match event_of en with EvCall _ _ => true | _ => false end.

(** The entries up to the next call of [detectAndTrack]. *)
Fixpoint until_call (tr : list Entry) : list Entry :=
  match tr with
  | [] => []
  | en :: rest => if is_call en then [] else en :: until_call rest
  end.

(** For each call of [detectAndTrack], what follows its entry up to the next
    call. *)
Fixpoint call_traces (tr : list Entry) : list (list Entry) :=
  match tr with
  | [] => []
  | en :: rest =>
      if is_call en then until_call rest :: call_traces rest
      else call_traces rest
  end.

(** The duration of a call (lines 69 and 78-79) and its frame count (lines
    70 and 91), from the detect-and-track calls and the frames read. *)
Definition call_duration (seg : list Entry) : msduration :=
  fold_left add_span (tracks seg).*2 msduration_zero.

Definition call_frames (seg : list Entry) : Z :=
  int_advance 0 (length (reads seg)).

(** Lines 157-158 over the calls of a trace. *)
Definition batch_duration (start : msduration) (tr : list Entry) : msduration :=
  fold_left (λ acc seg, (acc + call_duration seg)%float) (call_traces tr) start.

Definition batch_frames (start : Z) (tr : list Entry) : Z :=
  fold_left (λ acc seg, int_wrap (acc + call_frames seg)) (call_traces tr) start.

Lemma calls_cons_nil en tr :
  calls (en :: tr) = [] ↔ is_call en = false ∧ calls tr = [].
Proof.
  unfold calls, is_call. destruct en as [[e t0] t1].
  destruct e; simpl; split; try done; try (by intros [? ?]); by intros [= ?].
Qed.

Lemma until_call_app pre tr :
  calls pre = [] → until_call (pre ++ tr) = pre ++ until_call tr.
Proof.
  induction pre as [|en pre IH]; [done |].
  intros [Hen Hpre]%calls_cons_nil. simpl. rewrite Hen. by rewrite IH.
Qed.

Lemma call_traces_app pre tr :
  calls pre = [] → call_traces (pre ++ tr) = call_traces tr.
Proof.
  induction pre as [|en pre IH]; [done |].
  intros [Hen Hpre]%calls_cons_nil. simpl. rewrite Hen. by apply IH.
Qed.

(** Entries that are no calls, no detect-and-track calls and no frame reads
    change no total when they follow a trace. *)
Lemma until_call_quiet tr post :
  calls post = [] → tracks post = [] → reads post = [] →
  tracks (until_call (tr ++ post)) = tracks (until_call tr)
  ∧ reads (until_call (tr ++ post)) = reads (until_call tr).
Proof.
  intros Hc Ht Hr. induction tr as [|en tr [IHt IHr]].
  - simpl. rewrite <- (app_nil_r post), until_call_app by done. simpl.
    by rewrite app_nil_r, Ht, Hr.
  - simpl. destruct (is_call en); [done |].
    change (en :: ?l) with ([en] ++ l). trace_split. by rewrite IHt, IHr.
Qed.

Lemma call_traces_quiet tr post :
  calls post = [] → tracks post = [] → reads post = [] →
  call_duration <$> call_traces (tr ++ post) = call_duration <$> call_traces tr
  ∧ call_frames <$> call_traces (tr ++ post) = call_frames <$> call_traces tr.
Proof.
  intros Hc Ht Hr. induction tr as [|en tr [IHd IHf]].
  - simpl. rewrite <- (app_nil_r post), call_traces_app by done. done.
  - simpl. destruct (is_call en); [|done].
    rewrite !fmap_cons, IHd, IHf. unfold call_duration, call_frames.
    destruct (until_call_quiet tr post Hc Ht Hr) as [-> ->]. done.
Qed.

Lemma batch_duration_fmap start tr :
  batch_duration start tr
  = fold_left (λ acc d, (acc + d)%float) (call_duration <$> call_traces tr) start.
Proof.
  unfold batch_duration. generalize (call_traces tr). intros l. revert start.
  induction l as [|seg l IH]; intros start; [done |]. simpl. apply IH.
Qed.

Lemma batch_frames_fmap start tr :
  batch_frames start tr
  = fold_left (λ acc n, int_wrap (acc + n)) (call_frames <$> call_traces tr) start.
Proof.
  unfold batch_frames. generalize (call_traces tr). intros l. revert start.
  induction l as [|seg l IH]; intros start; [done |]. simpl. apply IH.
Qed.

Lemma batch_quiet start k tr post :
  calls post = [] → tracks post = [] → reads post = [] →
  batch_duration start (tr ++ post) = batch_duration start tr
  ∧ batch_frames k (tr ++ post) = batch_frames k tr.
Proof.
  intros Hc Ht Hr. rewrite !batch_duration_fmap, !batch_frames_fmap.
  by destruct (call_traces_quiet tr post Hc Ht Hr) as [-> ->].
Qed.

Lemma sequence_loop_totals m lines : ∀ cum cfc w,
  wp (sequence_loop m lines cum cfc) w
     (λ o, ∃ tr,
        w_trace (world_of o) = w_trace w ++ tr
        ∧ tracks (until_call tr) = [] ∧ reads (until_call tr) = []
        ∧ ∀ r w', o = Ret r w' →
                  r.1 = batch_duration cum tr ∧ r.2 = batch_frames cfc tr).
Proof.
  induction lines as [|s lines IH]; intros cum cfc w; simpl.
  - apply wp_ret. exists []. wsimpl. rewrite app_nil_r.
    split; [done |]. split; [done |]. split; [done |].
    by intros r w' [= <- _].
  - do 5 wp_step. wsimpl.
    eapply wp_conseq; [apply detectAndTrack_call |].
    intros o (trc & [Htr (t0 & t1 & t2 & trc'' & -> & Hc'') _ _ _ _ _ _ Hdur _
                       _ Hcnt]).
    set (trc' := (EvIsDirectory (inputDirPath_of s)
                    (fs_is_directory
                       (w_fs (after (after w (EvGetline s) t')
                                (EvCout [IStr "Sequence: "; IStr s;
                                         IStr (String LF "")]) t'0))
                       (inputDirPath_of s)), t1, t2) :: trc'') in *.
    assert (Hc' : calls trc' = []) by exact Hc''.
    destruct o as [[d n] w1|h w1]; wsimpl.
    2:{ exists ([(EvGetline s, w_clock w, t');
                 (EvCout [IStr "Sequence: "; IStr s; IStr (String LF "")],
                  t', t'0)] ++ (EvCall s m, t0, t1) :: trc').
        wsimpl.
        split; [rewrite Htr; wsimpl; by rewrite <- !app_assoc |].
        split; [done |]. split; [done |]. by intros r w' [=]. }
    specialize (Hdur _ _ _ eq_refl). specialize (Hcnt _ _ _ eq_refl).
    do 4 wp_step. cbn [fst snd].
    destruct (count_ms d) as [duration|] eqn:Hms.
    2:{ wp_step.
        exists ([(EvGetline s, w_clock w, t');
                 (EvCout [IStr "Sequence: "; IStr s; IStr (String LF "")],
                  t', t'0)] ++ (EvCall s m, t0, t1) :: trc').
        wsimpl.
        split; [rewrite Htr; wsimpl; by rewrite <- !app_assoc |].
        split; [done |]. split; [done |]. by intros r w' [=]. }
    do 2 wp_step. wsimpl.
    eapply wp_conseq; [apply IH |].
    intros o (trr & Htr' & Hut & Hur & Hres). wsimpl.
    set (line := (EvCout
                    [IStr "Duration: "; IInt duration; IStr "ms"; IStr " (";
                     IDouble (throughput n duration);
                     IStr ("fps)" +:+ String LF "")], w_clock w1, t'1)).
    exists ([(EvGetline s, w_clock w, t');
             (EvCout [IStr "Sequence: "; IStr s; IStr (String LF "")],
              t', t'0)] ++ (EvCall s m, t0, t1) :: trc' ++ line :: trr).
    wsimpl. split.
    { rewrite Htr'. wsimpl. rewrite Htr. wsimpl. by rewrite <- !app_assoc. }
    split; [done |]. split; [done |].
    intros r w' ->. destruct (Hres _ _ eq_refl) as [Hd Hn].
    assert (Hseg : until_call (trc' ++ line :: trr)
                   = trc' ++ line :: until_call trr).
    { by rewrite until_call_app. }
    assert (Hrest : call_traces (trc' ++ line :: trr) = call_traces trr).
    { by rewrite call_traces_app. }
    unfold batch_duration, batch_frames.
    cbn [app call_traces is_call event_of fst fold_left].
    rewrite Hseg, Hrest. split.
    + rewrite Hd. unfold batch_duration. f_equal. f_equal.
      rewrite Hdur. unfold call_duration. f_equal. f_equal.
      change (line :: until_call trr) with ([line] ++ until_call trr).
      trace_split. rewrite Hut. simpl. by rewrite !app_nil_r.
    + rewrite Hn. unfold batch_frames. f_equal. f_equal. f_equal.
      rewrite Hcnt. unfold call_frames. f_equal. f_equal.
      change (line :: until_call trr) with ([line] ++ until_call trr).
      trace_split. rewrite Hur. simpl. by rewrite !app_nil_r.
Qed.

(** The last line [main] prints before it exits with success. *)
Definition EV_TOTAL (total frames : Z) : Event :=
  EvCout [IStr "Total duration: "; IInt total; IStr "ms"; IStr " (";
          IDouble (throughput frames total);
          IStr ("fps)" +:+ String LF "")].

(** X7.  When the sequences file can be read, the batch loop has returned
    and the duration it accumulated converts to whole milliseconds (it is
    finite and within the range of [long long]), [main] closes the sequences
    file, reports the totals as its last operation and ends by
    [exit(EXIT_SUCCESS)].  The totals are those of lines 157-158: the value
    the duration accumulator started with plus the durations of the calls,
    added in the order of the calls, and the sum of their frame counts; each
    call's duration being the sum over its detect-and-track calls, and its
    frame count the number of frames it read. *)
Theorem main_reports_totals file m uninit w contents r w1 total :
  files (w_fs w) !! sequencesFilePath_of file = Some contents →
  sequence_loop m (getlines contents) uninit 0 (opened file w) = Ret r w1 →
  count_ms r.1 = Some total →
  ∃ w' tr,
    main file m uninit w = Stop (HExit EXIT_SUCCESS) w'
    ∧ w_trace w' = w_trace w ++ tr
    ∧ r.1 = batch_duration uninit tr
    ∧ r.2 = batch_frames 0 tr
    ∧ ∃ body,
        event_of <$> tr
        = body ++ [EvClose (sequencesFilePath_of file); EV_TOTAL total r.2].
Proof.
  intros Hfile Hloop Hms.
  destruct (wp_elim _ _ _ (sequence_loop_totals m (getlines contents)
                             uninit 0 (opened file w)))
    as (trb & Htr & _ & _ & Hres).
  rewrite Hloop in Htr. cbn [world_of] in Htr.
  destruct (Hres _ _ Hloop) as [Hd Hn].
  rewrite (main_opened _ _ _ _ _ Hfile).
  unfold mbind at 1, M_bind at 1. rewrite Hloop.
  apply (wp_elim _ w1
           (λ o, ∃ w' tr,
              o = Stop (HExit EXIT_SUCCESS) w'
              ∧ w_trace w' = w_trace w ++ tr
              ∧ r.1 = batch_duration uninit tr
              ∧ r.2 = batch_frames 0 tr
              ∧ ∃ body, event_of <$> tr = body ++ [_; _])).
  do 6 wp_step. rewrite Hms. wp_steps. wsimpl.
  set (e0 := (EvOpenIn (sequencesFilePath_of file) true, w_clock w,
              w_clock w + lat (EvOpenIn (sequencesFilePath_of file) true) w)).
  set (post := [(EvClose (sequencesFilePath_of file), w_clock w1, t');
                (EvCout [IStr "Total duration: "; IInt total; IStr "ms";
                         IStr " ("; IDouble (throughput r.2 total);
                         IStr ("fps)" +:+ String LF "")], t', t'0)]).
  assert (Hq : batch_duration uninit (e0 :: trb ++ post)
               = batch_duration uninit trb
               ∧ batch_frames 0 (e0 :: trb ++ post) = batch_frames 0 trb).
  { change (e0 :: trb ++ post) with ([e0] ++ trb ++ post).
    unfold batch_duration, batch_frames.
    rewrite (call_traces_app [e0]) by done.
    by apply batch_quiet. }
  destruct Hq as [Hqd Hqf].
  eexists _, (e0 :: trb ++ post). split; [reflexivity |]. wsimpl.
  split.
  { rewrite Htr. unfold opened, after. wsimpl.
    by rewrite <- !app_assoc. }
  split; [by rewrite Hqd |]. split; [by rewrite Hqf |].
  exists (event_of <$> e0 :: trb).
  rewrite fmap_cons, !fmap_app. done.
Qed.

(** *** What a batch does to the file system *)

Definition batch_kept (m : string) (lines : list string) (fs fs' : FS) : Prop :=
  (∀ p c, files fs !! p = Some c → files fs' !! p = Some c)
  ∧ (∀ p, files fs' !! p ≠ files fs !! p →
          ∃ s, s ∈ lines ∧ p = outputPath_of s m)
  ∧ dirs fs ⊆ dirs fs'
  ∧ (∀ q, q ∈ dirs fs' →
          q ∈ dirs fs ∨ ∃ s, s ∈ lines ∧ q `prefix_of` outputDirPath_of s m).

Lemma batch_kept_refl m lines fs : batch_kept m lines fs fs.
Proof. split; [|split; [|split]]; auto. by intros p []. Qed.

Lemma batch_kept_step m s lines fs fs1 fs' :
  fs_kept s m fs fs1 → batch_kept m lines fs1 fs' →
  batch_kept m (s :: lines) fs fs'.
Proof.
  intros (Hk1 & Ho1 & Hs1 & Hn1) (Hk2 & Ho2 & Hs2 & Hn2).
  split; [|split; [|split]].
  - auto.
  - intros p Hp. destruct (decide (p = outputPath_of s m)) as [->|Hne].
    + exists s. split; [apply list_elem_of_here | done].
    + rewrite <- (Ho1 p Hne) in Hp. destruct (Ho2 p Hp) as (s' & Hs' & ->).
      exists s'. split; [by apply list_elem_of_further | done].
  - by etrans.
  - intros q [Hq|(s' & Hs' & Hq)]%Hn2.
    + apply Hn1 in Hq as [?|Hq]; [by left | right].
      exists s. split; [apply list_elem_of_here |].
      by apply elem_of_prefixes in Hq as [_ ?].
    + right. exists s'. split; [by apply list_elem_of_further | done].
Qed.

Lemma sequence_loop_fs m lines : ∀ cum cfc w,
  wp (sequence_loop m lines cum cfc) w
     (λ o, batch_kept m lines (w_fs w) (w_fs (world_of o))).
Proof.
  induction lines as [|s lines IH]; intros cum cfc w; simpl.
  - apply wp_ret. apply batch_kept_refl.
  - do 5 wp_step. wsimpl.
    eapply wp_conseq; [apply detectAndTrack_fs_kept |].
    intros o Hkept. wsimpl.
    destruct o as [[d n] w1|h w1]; wsimpl.
    2:{ eapply batch_kept_step; [exact Hkept | apply batch_kept_refl]. }
    do 4 wp_step. cbn [fst snd].
    destruct (count_ms d) as [duration|] eqn:Hms.
    2:{ wp_step. wsimpl.
        eapply batch_kept_step; [exact Hkept | apply batch_kept_refl]. }
    do 2 wp_step. wsimpl.
    eapply wp_conseq; [apply IH |].
    intros o Hrest. wsimpl.
    eapply batch_kept_step; [exact Hkept | exact Hrest].
Qed.

(** X8.  A run of [main], however it ends, has overwritten and removed
    nothing: every file that was there keeps its contents (the images, the
    sequences file and the output files of earlier runs among them); a file
    that has appeared is the output file of a sequence listed in the
    sequences file; no directory has been removed, and a directory that has
    appeared is the output directory of a listed sequence or an ancestor of
    it. *)
Theorem main_overwrites_nothing file m uninit w :
  (∀ p c, files (w_fs w) !! p = Some c →
          files (w_fs (world_of (main file m uninit w))) !! p = Some c)
  ∧ (∀ p, files (w_fs (world_of (main file m uninit w))) !! p
          ≠ files (w_fs w) !! p →
          ∃ contents s,
            files (w_fs w) !! sequencesFilePath_of file = Some contents
            ∧ s ∈ getlines contents ∧ p = outputPath_of s m)
  ∧ dirs (w_fs w) ⊆ dirs (w_fs (world_of (main file m uninit w)))
  ∧ (∀ q, q ∈ dirs (w_fs (world_of (main file m uninit w))) →
          q ∈ dirs (w_fs w)
          ∨ ∃ contents s,
              files (w_fs w) !! sequencesFilePath_of file = Some contents
              ∧ s ∈ getlines contents
              ∧ q `prefix_of` outputDirPath_of s m).
Proof.
  apply (wp_elim (main file m uninit) w
           (λ o, (∀ p c, files (w_fs w) !! p = Some c →
                         files (w_fs (world_of o)) !! p = Some c)
                 ∧ (∀ p, files (w_fs (world_of o)) !! p ≠ files (w_fs w) !! p →
                         ∃ contents s, _)
                 ∧ dirs (w_fs w) ⊆ dirs (w_fs (world_of o))
                 ∧ (∀ q, q ∈ dirs (w_fs (world_of o)) →
                         q ∈ dirs (w_fs w) ∨ ∃ contents s, _))).
  unfold main. do 4 wp_step. wsimpl.
  destruct (files (w_fs w) !! sequencesFilePath_of file) as [contents|] eqn:Hf;
    wp_steps; wsimpl.
  2:{ split; [done |]. split; [by intros p [] |]. split; [done |]. auto. }
  eapply wp_conseq; [apply sequence_loop_fs |].
  intros o (Hk & Ho & Hs & Hn). wsimpl.
  assert (Hall :
    (∀ p c, files (w_fs w) !! p = Some c →
            files (w_fs (world_of o)) !! p = Some c)
    ∧ (∀ p, files (w_fs (world_of o)) !! p ≠ files (w_fs w) !! p →
            ∃ contents0 s,
              Some contents = Some contents0
              ∧ s ∈ getlines contents0 ∧ p = outputPath_of s m)
    ∧ dirs (w_fs w) ⊆ dirs (w_fs (world_of o))
    ∧ (∀ q, q ∈ dirs (w_fs (world_of o)) →
            q ∈ dirs (w_fs w)
            ∨ ∃ contents0 s,
                Some contents = Some contents0
                ∧ s ∈ getlines contents0
                ∧ q `prefix_of` outputDirPath_of s m)).
  { split; [done |]. split; [|split; [done |]].
    - intros p Hp. destruct (Ho p Hp) as (s & Hs' & ->). by exists contents, s.
    - intros q [?|(s & Hs' & Hq)]%Hn; [by left | right].
      by exists contents, s. }
  destruct o as [[d n] w1|h w1]; wsimpl; [| exact Hall].
  do 6 wp_step. cbn [fst snd].
  destruct (count_ms d) as [total|] eqn:Hms; wp_steps; wsimpl; exact Hall.
Qed.

(** ** [main] from its first line (lines 99-169)

    The options are read by [getopt] with the option string ["s:m:"], the
    model configuration gives the model type and the files of the detector,
    and the run goes on with the sequences file as above. *)

Definition USAGE_MESSAGE : string :=
  "Usage: %s [-s sequencesFile] [-m modelConfigFile]" +:+ String LF "".

(** *** [getopt] (POSIX) *)

(** What one call of [getopt] delivers before it delivers -1: an option
    character, with [optarg] when the option takes an argument, or ['?'] for
    a character that is no option or an option whose argument is missing. *)
Inductive GetoptResult : Type :=
| GOption (c : ascii) (optarg : option string)
| GUnknown (c : ascii)
| GMissing (c : ascii).

(** Whether [c] is an option character of the option string and, if so,
    whether a colon follows it there: the option takes an argument. *)
Fixpoint optstring_find (optstring : string) (c : ascii) : option bool :=
  match optstring with
  | EmptyString => None
  | String a rest =>
      if decide (a = c) then
        Some (match rest with
              | String b _ => bool_decide (b = ":"%char)
              | EmptyString => false
              end)
      else optstring_find rest c
  end.

Definition optstring_lookup (optstring : string) (c : ascii) : option bool :=
  if decide (c = ":"%char) then None else optstring_find optstring c.

(** The option characters of one element of [argv], after its hyphen: an
    option that takes an argument takes the rest of the element, or the next
    element when nothing is left of this one (the character is returned as
    pending). *)
Fixpoint getopt_element (optstring : string) (chars : string)
  : list GetoptResult * option ascii :=
  match chars with
  | EmptyString => ([], None)
  | String c rest =>
      match optstring_lookup optstring c with
      | None =>
          let '(results, pending) := getopt_element optstring rest in
          (GUnknown c :: results, pending)
      | Some false =>
          let '(results, pending) := getopt_element optstring rest in
          (GOption c None :: results, pending)
      | Some true =>
          match rest with
          | EmptyString => ([], Some c)
          | _ => ([GOption c (Some rest)], None)
          end
      end
  end.

(** What the successive calls of [getopt] deliver for the elements [args] of
    [argv] after [argv[0]].  An element that is [--] ends the options; an
    element that begins with a hyphen and has more characters holds option
    characters; any other element is an operand, at which the scan stops
    (POSIX) or which it passes over ([permute], as the GNU C library does
    unless told otherwise). *)
Fixpoint getopt_results (permute : bool) (optstring : string)
    (pending : option ascii) (args : list string) : list GetoptResult :=
  match args with
  | [] =>
      match pending with
      | Some c => [GMissing c]
      | None => []
      end
  | a :: rest =>
      match pending with
      | Some c => GOption c (Some a) :: getopt_results permute optstring None rest
      | None =>
          if decide (a = "--"%string) then []
          else
            match a with
            | String h (String c cs) =>
                if decide (h = "-"%char) then
                  let '(results, pending') :=
                    getopt_element optstring (String c cs) in
                  results ++ getopt_results permute optstring pending' rest
                else if permute then getopt_results permute optstring None rest
                else []
            | _ =>
                if permute then getopt_results permute optstring None rest
                else []
            end
      end
  end.

(** *** The environment of the front *)

(** The directory of the models (line 21), whether [getopt] passes over
    operands, and the wording of the diagnostic [getopt] itself writes to
    [stderr] (with [argv[0]] for its [%s]) before it delivers ['?']. *)
Variable modelDirPath : path.
Variable getopt_permutes : bool.
Variable getopt_diagnostic : GetoptResult → string.

(** Modelled from the spec: the detector ([BBDetector.h]) is not part of the
    sources at hand; the spec treats the detection model, with the loading of
    its network and weights, as an external collaborator.  Its constructor
    reads the model file and the weights file and gives the detector object,
    or does not return ([None]). *)
Variable BBDetector_new : FS → path → path → string → option DetectorState.

Definition set_detector (ds : DetectorState) (w : World) : World :=
  mkWorld (w_fs w) (w_clock w) ds (w_trackers w) (w_trace w).

(** Line 137: [detector = std::make_shared<BBDetector>(...)]. *)
Definition make_BBDetector (modelFilePath weightsFilePath : path)
    (meanValues : string) : M unit :=
  r ← gets (λ w, BBDetector_new (w_fs w) modelFilePath weightsFilePath
                   meanValues);
  match r with
  | Some ds => modify (set_detector ds)
  | None => stop HThrow
  end.

(** Lines 107-119: one iteration per result of [getopt]. *)
Fixpoint option_loop (argv0 : string) (results : list GetoptResult)
    (sequencesFileName modelConfigFileName : string) : M (string * string) :=
  match results with
  | [] => mret (sequencesFileName, modelConfigFileName)
  | GOption c optarg :: rest =>
      if decide (c = "s"%char) then
        match optarg with
        | Some a => option_loop argv0 rest a modelConfigFileName
        | None => stop HUndefined
        end
      else if decide (c = "m"%char) then
        match optarg with
        | Some a => option_loop argv0 rest sequencesFileName a
        | None => stop HUndefined
        end
      else
        fprintf_stderr USAGE_MESSAGE argv0;;
        exit EXIT_FAILURE
  | (GUnknown _ | GMissing _) as r :: _ =>
      fprintf_stderr (getopt_diagnostic r) argv0;;
      fprintf_stderr USAGE_MESSAGE argv0;;
      exit EXIT_FAILURE
  end.

(** Lines 131-134: [std::getline] into an empty string, from a stream that
    still holds [lines]: the next line, or nothing at the end of the stream,
    when the string stays empty. *)
Definition getline (lines : list string) : M (string * list string) :=
  match lines with
  | [] => mret (""%string, [])
  | line :: rest => log (EvGetline line);; mret (line, rest)
  end.

Definition modelConfigFilePath_of (modelConfigFileName : string) : path :=
  modelDirPath ++ ["config"%string] ++ components modelConfigFileName.

Definition main_argv (argv0 : string) (args : list string)
    (uninit : msduration) : M unit :=
  names ← option_loop argv0
             (getopt_results getopt_permutes "s:m:" None args) "" "";
  let sequencesFileName := names.1 in
  let modelConfigFileName := names.2 in
  if decide (sequencesFileName = ""%string ∨ modelConfigFileName = ""%string)
  then
    fprintf_stderr USAGE_MESSAGE argv0;;
    exit EXIT_FAILURE
  else
  let modelConfigFilePath := modelConfigFilePath_of modelConfigFileName in
  modelConfigFile ← ifstream_open modelConfigFilePath;
  match modelConfigFile with
  | Some contents =>
      r0 ← getline (getlines contents);
      let modelType := r0.1 in
      r1 ← getline r0.2;
      let modelFile := r1.1 in
      r2 ← getline r1.2;
      let weightsFile := r2.1 in
      r3 ← getline r2.2;
      let meanValues := r3.1 in
      let modelFilePath := modelDirPath ++ components modelFile in
      let weightsFilePath := modelDirPath ++ components weightsFile in
      make_BBDetector modelFilePath weightsFilePath meanValues;;
      main sequencesFileName modelType uninit
  | None =>
      fprintf_stderr OPEN_FILE_MESSAGE (path_str modelConfigFilePath);;
      exit EXIT_FAILURE
  end.

(** *** Reading the results of [getopt] *)

(** ['?']: the character is no option, or its argument is missing. *)
Definition is_error (r : GetoptResult) : bool :=
  match r with
  | GOption _ _ => false
  | GUnknown _ | GMissing _ => true
  end.

(** The arguments given for the option [c], in the order given. *)
Definition optargs (c : ascii) (results : list GetoptResult) : list string :=
  omap (λ r, match r with
             | GOption c' (Some a) => if decide (c' = c) then Some a else None
             | _ => None
             end) results.

(** With the option string ["s:m:"] the options are [s] and [m], each with
    its argument. *)
Definition sm_result (r : GetoptResult) : Prop :=
  match r with
  | GOption c optarg => (c = "s"%char ∨ c = "m"%char) ∧ is_Some optarg
  | GUnknown _ | GMissing _ => True
  end.

Lemma optstring_lookup_sm c :
  optstring_lookup "s:m:" c
  = if bool_decide (c = "s"%char ∨ c = "m"%char) then Some true else None.
Proof.
  unfold optstring_lookup. cbn [optstring_find].
  destruct (decide (c = ":"%char)) as [->|H0].
  { rewrite (bool_decide_eq_false_2 (_ ∨ _)); [done |]. by intros [|]. }
  destruct (decide ("s"%char = c)) as [<-|H1].
  { by rewrite (bool_decide_eq_true_2 (_ ∨ _)) by (by left). }
  rewrite (decide_False (P := ":"%char = c)) by congruence.
  destruct (decide ("m"%char = c)) as [<-|H2].
  { by rewrite (bool_decide_eq_true_2 (_ ∨ _)) by (by right). }
  rewrite decide_False by congruence.
  rewrite (bool_decide_eq_false_2 (_ ∨ _)); [done |].
  intros [->| ->]; congruence.
Qed.

Lemma getopt_element_sm chars :
  Forall sm_result (getopt_element "s:m:" chars).1
  ∧ ∀ c, (getopt_element "s:m:" chars).2 = Some c
         → c = "s"%char ∨ c = "m"%char.
Proof.
  induction chars as [|c rest [IH1 IH2]]; cbn [getopt_element].
  - split; [constructor | done].
  - rewrite optstring_lookup_sm. case_bool_decide as Hc.
    + destruct rest; cbn [fst snd].
      * split; [constructor |]. by intros c' [= <-].
      * split; [|done]. constructor; [|constructor]. split; [done | by eexists].
    + destruct (getopt_element "s:m:" rest) as [results pending].
      cbn [fst snd] in *. split; [|done]. by constructor.
Qed.

Lemma getopt_results_sm permute args : ∀ pending,
  (∀ c, pending = Some c → c = "s"%char ∨ c = "m"%char) →
  Forall sm_result (getopt_results permute "s:m:" pending args).
Proof.
  induction args as [|a rest IH]; intros pending Hp; cbn [getopt_results].
  - destruct pending; by repeat constructor.
  - destruct pending as [c|].
    + constructor; [|by apply IH]. split; [by apply Hp | by eexists].
    + case_decide; [constructor |].
      destruct a as [|h [|c cs]];
        try (destruct permute; [by apply IH | constructor]).
      case_decide; [| destruct permute; [by apply IH | constructor]].
      destruct (getopt_element_sm (String c cs)) as [H1 H2].
      destruct (getopt_element "s:m:" (String c cs)) as [results pending'].
      apply Forall_app. split; [done |]. apply IH. exact H2.
Qed.

Lemma default_last_cons {A} (d a : A) (l : list A) :
  default d (last (a :: l)) = default a (last l).
Proof.
  revert d a. induction l as [|b l IH]; intros d a; [done |].
  change (last (a :: b :: l)) with (last (b :: l)).
  by rewrite (IH d b), (IH a b).
Qed.

Lemma optargs_cons c c' a results :
  optargs c (GOption c' (Some a) :: results)
  = if decide (c' = c) then a :: optargs c results else optargs c results.
Proof. unfold optargs. simpl. by destruct (decide (c' = c)). Qed.

(** Lines 107-119 when [getopt] delivers no ['?']: the last argument of each
    option is kept, and nothing is written. *)
Lemma option_loop_values argv0 results :
  Forall sm_result results →
  Forall (λ r, is_error r = false) results →
  ∀ seq model w,
    option_loop argv0 results seq model w
    = Ret (default seq (last (optargs "s" results)),
           default model (last (optargs "m" results))) w.
Proof.
  induction 1 as [|r results Hr _ IH]; intros Herr seq model w; [done |].
  apply Forall_cons in Herr as [Hr' Herr].
  destruct r as [c [a|]| |]; try done; destruct Hr as [[->| ->] [? ?]];
    try done; cbn [option_loop optargs omap].
  - rewrite !decide_True by done. rewrite IH by done.
    rewrite !optargs_cons.
    rewrite (decide_True (P := "s"%char = "s"%char)) by done.
    rewrite (decide_False (P := "s"%char = "m"%char)) by done.
    by rewrite default_last_cons.
  - rewrite decide_False by done. rewrite !decide_True by done.
    rewrite IH by done.
    rewrite !optargs_cons.
    rewrite (decide_True (P := "m"%char = "m"%char)) by done.
    rewrite (decide_False (P := "m"%char = "s"%char)) by done.
    by rewrite default_last_cons.
Qed.

(** Lines 107-119 when [getopt] delivers a ['?']: its diagnostic, then the
    usage message, then [exit]. *)
Lemma option_loop_rejects argv0 results :
  Forall sm_result results →
  Exists (λ r, is_error r = true) results →
  ∀ seq model w,
    ∃ r t1 t2,
      option_loop argv0 results seq model w
      = Stop (HExit EXIT_FAILURE)
             (after (after w (EvStderr (getopt_diagnostic r) argv0) t1)
                    (EvStderr USAGE_MESSAGE argv0) t2).
Proof.
  induction 1 as [|r results Hr _ IH]; intros Hex seq model w.
  { by apply Exists_nil in Hex. }
  destruct r as [c [a|]| c| c].
  - apply Exists_cons in Hex as [Hex|Hex]; [done |].
    destruct Hr as [[->| ->] _]; cbn [option_loop].
    + rewrite decide_True by done. by apply IH.
    + rewrite decide_False by done. rewrite decide_True by done. by apply IH.
  - by destruct Hr as [_ [? ?]].
  - by eexists (GUnknown c), _, _.
  - by eexists (GMissing c), _, _.
Qed.

Ltac wp_front :=
  lazymatch goal with
  | |- wp (getline _) _ _ => unfold getline
  | |- wp (make_BBDetector _ _ _) _ _ => unfold make_BBDetector
  | _ => wp_step
  end;
  cbn beta iota.

(** X9.  When [getopt] delivers a ['?'] (a character that is no option, or
    an option without its argument), or the options leave the name of the
    sequences file or of the model configuration empty (lines 106-123), the
    run ends by [exit(EXIT_FAILURE)] after the usage message with [argv[0]];
    nothing but messages to [stderr] precedes it: no file has been opened, no
    detector constructed. *)
Theorem main_argv_usage argv0 args uninit w :
  let results := getopt_results getopt_permutes "s:m:" None args in
  Exists (λ r, is_error r = true) results
  ∨ default "" (last (optargs "s" results)) = ""%string
  ∨ default "" (last (optargs "m" results)) = ""%string →
  ∃ w' tr,
    main_argv argv0 args uninit w = Stop (HExit EXIT_FAILURE) w'
    ∧ w_fs w' = w_fs w
    ∧ w_detector w' = w_detector w
    ∧ w_trackers w' = w_trackers w
    ∧ w_trace w' = w_trace w ++ tr
    ∧ last (event_of <$> tr) = Some (EvStderr USAGE_MESSAGE argv0)
    ∧ Forall (λ e, ∃ format, e = EvStderr format argv0) (event_of <$> tr).
Proof.
  intros results Hbad.
  assert (Hsm : Forall sm_result results).
  { by apply getopt_results_sm. }
  unfold main_argv. fold results. unfold mbind at 1, M_bind at 1.
  destruct (decide (Exists (λ r, is_error r = true) results)) as [Hex|Hok].
  - destruct (option_loop_rejects argv0 results Hsm Hex "" "" w)
      as (r & t1 & t2 & ->).
    eexists _, [_; _]. split; [reflexivity |]. wsimpl.
    split; [done |]. split; [done |]. split; [done |].
    split; [by rewrite <- !app_assoc |]. split; [done |].
    repeat constructor; by eexists.
  - apply not_Exists_Forall in Hok; [|intros r; apply _].
    assert (Hok' : Forall (λ r, is_error r = false) results).
    { eapply Forall_impl; [exact Hok |]. intros r Hr. simpl in Hr.
      by destruct (is_error r). }
    rewrite (option_loop_values argv0 results Hsm Hok'). cbn [fst snd].
    destruct Hbad as [Hex|Hempty].
    { exfalso. apply Exists_exists in Hex as (r & Hin & Hr).
      eapply (proj1 (Forall_forall _ _) Hok') in Hin. congruence. }
    rewrite decide_True by tauto.
    eexists _, [_]. split; [reflexivity |]. wsimpl.
    split; [done |]. split; [done |]. split; [done |].
    split; [done |]. split; [done |].
    repeat constructor; by eexists.
Qed.

(** The names the options give: the last argument of [-s] and of [-m]. *)
Definition names_of (results : list GetoptResult) : string * string :=
  (default "" (last (optargs "s" results)),
   default "" (last (optargs "m" results))).

(** The options are in order: no ['?'], and both names given. *)
Definition options_fine (results : list GetoptResult) : Prop :=
  Forall (λ r, is_error r = false) results
  ∧ (names_of results).1 ≠ ""%string
  ∧ (names_of results).2 ≠ ""%string.

(** With options in order [main] reaches line 125 having written nothing. *)
Lemma main_argv_past_options argv0 args uninit w :
  let results := getopt_results getopt_permutes "s:m:" None args in
  options_fine results →
  main_argv argv0 args uninit w
  = (modelConfigFile ← ifstream_open
                          (modelConfigFilePath_of (names_of results).2);
     match modelConfigFile with
     | Some contents =>
         r0 ← getline (getlines contents);
         r1 ← getline r0.2;
         r2 ← getline r1.2;
         r3 ← getline r2.2;
         make_BBDetector (modelDirPath ++ components r1.1)
                         (modelDirPath ++ components r2.1) r3.1;;
         main (names_of results).1 r0.1 uninit
     | None =>
         fprintf_stderr OPEN_FILE_MESSAGE
           (path_str (modelConfigFilePath_of (names_of results).2));;
         exit EXIT_FAILURE
     end) w.
Proof.
  intros results (Hok & Hs & Hm).
  assert (Hsm : Forall sm_result results) by by apply getopt_results_sm.
  unfold main_argv. fold results. unfold mbind at 1, M_bind at 1.
  rewrite (option_loop_values argv0 results Hsm Hok). cbn [fst snd].
  unfold names_of in *. cbn [fst snd] in *.
  rewrite decide_False by tauto. done.
Qed.

(** X10.  With options in order, when there is nothing at the path of the
    model configuration (lines 125-127 and 138-141), the run ends by
    [exit(EXIT_FAILURE)] after one message, which names the path that was
    tried: the file name given with [-m] under [config] in the models
    directory.  The sequences file has not been opened and no detector has
    been constructed. *)
Theorem main_argv_model_config_missing argv0 args uninit w :
  let results := getopt_results getopt_permutes "s:m:" None args in
  let modelConfigFilePath := modelConfigFilePath_of (names_of results).2 in
  options_fine results →
  fs_exists (w_fs w) modelConfigFilePath = false →
  ∃ w' tr,
    main_argv argv0 args uninit w = Stop (HExit EXIT_FAILURE) w'
    ∧ w_fs w' = w_fs w
    ∧ w_detector w' = w_detector w
    ∧ w_trackers w' = w_trackers w
    ∧ w_trace w' = w_trace w ++ tr
    ∧ event_of <$> tr
      = [EvOpenIn modelConfigFilePath false;
         EvStderr OPEN_FILE_MESSAGE (path_str modelConfigFilePath)].
Proof.
  intros results cfg Hfine [_ Hnone]%fs_exists_false.
  rewrite main_argv_past_options by done. fold results. fold cfg.
  apply (wp_elim _ w (λ o, ∃ w' tr, o = Stop (HExit EXIT_FAILURE) w' ∧ _)).
  do 4 wp_front. wsimpl. rewrite Hnone. repeat wp_front. wsimpl.
  eexists _, _. split; [reflexivity |]. wsimpl.
  split; [done |]. split; [done |]. split; [done |].
  split; [by rewrite <- !app_assoc |]. done.
Qed.

(** X11.  With options in order, a model configuration that can be read and
    a detector that its constructor delivers (lines 125-143), the run goes on
    as the batch of lines 143-168 for the sequences file named with [-s] and
    the model type that is the first line of the configuration, with the
    detector made from the second line (the model file), the third (the
    weights file) and the fourth (the mean values); lines that the
    configuration does not have are empty, further lines are not read.  Up
    to there the file system is unchanged and no tracker exists that did not
    before. *)
Theorem main_argv_runs_batch argv0 args uninit w contents ds :
  let results := getopt_results getopt_permutes "s:m:" None args in
  let modelConfigFilePath := modelConfigFilePath_of (names_of results).2 in
  let lines := getlines contents in
  options_fine results →
  files (w_fs w) !! modelConfigFilePath = Some contents →
  BBDetector_new (w_fs w)
    (modelDirPath ++ components (nth 1 lines ""%string))
    (modelDirPath ++ components (nth 2 lines ""%string))
    (nth 3 lines ""%string) = Some ds →
  ∃ w1 tr,
    main_argv argv0 args uninit w
    = main (names_of results).1 (nth 0 lines ""%string) uninit w1
    ∧ w_fs w1 = w_fs w
    ∧ w_detector w1 = ds
    ∧ w_trackers w1 = w_trackers w
    ∧ w_trace w1 = w_trace w ++ tr
    ∧ event_of <$> tr
      = EvOpenIn modelConfigFilePath true :: (EvGetline <$> take 4 lines).
Proof.
  intros results cfg lines Hfine Hfile Hdet.
  rewrite main_argv_past_options by done. fold results. fold cfg.
  apply (wp_elim _ w
           (λ o, ∃ w1 tr,
              o = main (names_of results).1 (nth 0 lines ""%string) uninit w1
              ∧ _)).
  do 4 wp_front. wsimpl. rewrite Hfile. repeat wp_front. subst lines.
  destruct (getlines contents) as [|l0 [|l1 [|l2 [|l3 rest]]]];
    cbn [nth] in Hdet; wsimpl;
    repeat (wp_front; wsimpl); rewrite Hdet; repeat wp_front;
    unfold wp; (eexists _, _; split; [reflexivity |]);
    unfold set_detector; wsimpl;
    (split; [done |]); (split; [done |]); (split; [done |]);
    (split; [by rewrite <- ?app_assoc |]);
    by rewrite bool_decide_eq_true_2.
Qed.

(** *** Command lines of options *)

(** An option with its argument on the command line: in one element with the
    option character, or as the element after it. *)
Definition option_words (joined : bool) (c : ascii) (a : string)
  : list string :=
  if joined then [String "-" (String c a)] else [String "-" (String c ""); a].

Definition command_line (opts : list (bool * ascii * string)) : list string :=
  concat ((λ o, option_words o.1.1 o.1.2 o.2) <$> opts).

(** The arguments given for the option [c] among [opts]. *)
Definition values (c : ascii) (opts : list (bool * ascii * string))
  : list string :=
  omap (λ o, if decide (o.1.2 = c) then Some o.2 else None) opts.

(** An option of the harness, written so that its argument is its own: an
    argument joined to the option character is not empty. *)
Definition sm_option (o : bool * ascii * string) : Prop :=
  (o.1.2 = "s"%char ∨ o.1.2 = "m"%char) ∧ (o.1.1 = true → o.2 ≠ ""%string).

Lemma getopt_results_command_line permute opts tail :
  Forall sm_option opts →
  getopt_results permute "s:m:" None (command_line opts ++ tail)
  = ((λ o, GOption o.1.2 (Some o.2)) <$> opts)
    ++ getopt_results permute "s:m:" None tail.
Proof.
  induction 1 as [|[[joined c] a] opts [Hc Ha] _ IH]; [done |].
  unfold command_line. rewrite fmap_cons. cbn [concat fst snd] in *.
  fold (command_line opts).
  assert (Hlook : optstring_lookup "s:m:" c = Some true).
  { rewrite optstring_lookup_sm. by rewrite bool_decide_eq_true_2. }
  assert (Hdash : c ≠ "-"%char) by (by destruct Hc as [->| ->]).
  destruct joined; cbn [option_words app getopt_results].
  - rewrite decide_False by (intros Heq; injection Heq; congruence).
    rewrite decide_True by done. cbn [getopt_element]. rewrite Hlook.
    destruct a as [|x a]; [by destruct Ha |].
    cbn [app]. by rewrite IH.
  - rewrite decide_False by (intros Heq; injection Heq; congruence).
    rewrite decide_True by done. cbn [getopt_element]. rewrite Hlook.
    cbn [app getopt_results]. by rewrite IH.
Qed.

Lemma optargs_options c opts :
  optargs c ((λ o, GOption o.1.2 (Some o.2)) <$> opts) = values c opts.
Proof.
  induction opts as [|[[joined c'] a] opts IH]; [done |].
  rewrite fmap_cons, optargs_cons, IH. unfold values. simpl.
  by destruct (decide (c' = c)).
Qed.

(** X12.  For a command line of [-s] and [-m] options, each joined with its
    argument or followed by it, in any order and any number, alone or
    followed by [--] and operands, the option loop of lines 106-119 returns
    the last argument given for each option (the empty string for an option
    that is not given) and writes nothing. *)
Theorem option_loop_last_wins argv0 opts operands w :
  Forall sm_option opts →
  let done_at (tail : list string) :=
    option_loop argv0
      (getopt_results getopt_permutes "s:m:" None (command_line opts ++ tail))
      "" "" w
    = Ret (default ""%string (last (values "s" opts)),
           default ""%string (last (values "m" opts))) w in
  done_at [] ∧ done_at ("--"%string :: operands).
Proof.
  intros Hopts.
  assert (Hall : ∀ tail,
    getopt_results getopt_permutes "s:m:" None tail = [] →
    option_loop argv0
      (getopt_results getopt_permutes "s:m:" None (command_line opts ++ tail))
      "" "" w
    = Ret (default ""%string (last (values "s" opts)),
           default ""%string (last (values "m" opts))) w).
  { intros tail Htail.
    rewrite getopt_results_command_line, Htail, app_nil_r by done.
    rewrite option_loop_values.
    - by rewrite !optargs_options.
    - apply Forall_fmap. eapply Forall_impl; [exact Hopts |].
      intros [[j c] a] [Hc _]. split; [done | by eexists].
    - apply Forall_fmap. by apply Forall_true. }
  split; by apply Hall.
Qed.

(** ** Durations in whole milliseconds (lines 154 and 161) *)

Lemma digits2_pos_bound (m : positive) :
  Z.pos m < 2 ^ Z.pos (digits2_pos m).
Proof.
  induction m as [m IH|m IH|]; cbn [digits2_pos];
    rewrite ?Pos2Z.inj_succ, ?Z.pow_succ_r by lia; lia.
Qed.

(** The mantissa of a double has at most 53 binary digits. *)
Lemma valid_mantissa_bound s m e :
  valid_binary (S754_finite s m e) = true → Z.pos m < 2 ^ 53.
Proof.
  unfold valid_binary, SpecFloat.valid_binary, bounded, canonical_mantissa, fexp.
  intros [Hc _]%andb_prop. apply Z.eqb_eq in Hc.
  pose proof (digits2_pos_bound m) as Hm.
  assert (Hd : Z.pos (digits2_pos m) ≤ 53).
  { change prec with 53 in Hc. change emax with 1024 in Hc.
    unfold SpecFloat.emin in Hc. lia. }
  eapply Z.lt_le_trans; [exact Hm |].
  apply Z.pow_le_mono_r; lia.
Qed.

(** A positive double below one: its exponent and mantissa. *)
Lemma sub_one_finite m e :
  SFltb (S754_finite false m e) (S754_finite false 4503599627370496 (-52))
  = true →
  e < -52 ∨ (e = -52 ∧ (m < 4503599627370496)%positive).
Proof.
  unfold SFltb, SFcompare.
  destruct (Z.compare_spec e (-52)) as [Heq|Hlt|Hgt].
  - intros H. right. split; [exact Heq |].
    rewrite Pos.compare_cont_spec in H. unfold Pos.lt.
    destruct (m ?= 4503599627370496)%positive;
      [discriminate H | reflexivity | discriminate H].
  - intros _. left. exact Hlt.
  - intros H. discriminate H.
Qed.

(** Truncation toward zero of a value below one in magnitude. *)
Lemma truncated_to_zero (s : bool) (m : positive) (e : Z) :
  e < 0 → Z.pos m < 2 ^ (- e) →
  (let v := if 0 <=? e then Z.pos m * 2 ^ e else Z.pos m / 2 ^ (- e) in
   let r := if s then - v else v in
   if (LLONG_MIN <=? r) && (r <=? LLONG_MAX) then Some r else None) = Some 0.
Proof.
  intros He Hm. cbv zeta.
  assert (H0 : (0 <=? e) = false) by (apply Z.leb_gt; exact He).
  rewrite H0.
  rewrite Z.div_small by (split; [apply Pos2Z.is_nonneg | exact Hm]).
  destruct s; reflexivity.
Qed.

(** The count of whole milliseconds of a duration shorter than one
    millisecond is zero: the conversion truncates. *)
Lemma count_ms_sub_millisecond (d : msduration) :
  (abs d <? 1)%float = true → count_ms d = Some 0.
Proof.
  rewrite ltb_spec, abs_spec.
  change (Prim2SF 1) with (S754_finite false 4503599627370496 (-52)).
  pose proof (Prim2SF_valid d) as Hv. unfold count_ms.
  destruct (Prim2SF d) as [s|s| |s m e]; cbn [SFabs].
  - reflexivity.
  - intros H. discriminate H.
  - intros H. discriminate H.
  - apply valid_mantissa_bound in Hv.
    intros H. apply sub_one_finite in H as [He|[He Hm]];
      apply truncated_to_zero.
    + lia.
    + eapply Z.lt_le_trans; [exact Hv |]. apply Z.pow_le_mono_r; lia.
    + subst e. reflexivity.
    + subst e. apply Pos2Z.pos_lt_pos in Hm.
      replace (2 ^ (- -52)) with 4503599627370496
        by (vm_compute; reflexivity).
      exact Hm.
Qed.

(** X13.  A duration of less than one millisecond, in either direction, is
    reported as [0ms] (lines 154-156 and 161-163): the conversion to whole
    milliseconds truncates, so the throughput printed beside it is the frame
    count times 1000 divided by zero, a NaN or an infinity. *)
Theorem report_sub_millisecond what d frameCount w :
  (abs d <? 1)%float = true →
  let line := EvCout [IStr what; IInt 0; IStr "ms"; IStr " (";
                      IDouble (throughput frameCount 0);
                      IStr ("fps)" +:+ String LF "")] in
  report what d frameCount w = Ret () (after w line (w_clock w + lat line w))
  ∧ (Prim2SF (throughput frameCount 0) = S754_nan
     ∨ ∃ s, Prim2SF (throughput frameCount 0) = S754_infinity s).
Proof.
  intros Hd line. split; [|apply div_by_zero_special].
  unfold report, count_ms_or_undefined.
  by rewrite (count_ms_sub_millisecond d Hd).
Qed.

(** *** An accumulator that starts as a NaN *)

Lemma add_nan_l (x y : float) :
  Prim2SF x = S754_nan → Prim2SF (x + y) = S754_nan.
Proof. intros Hx. rewrite add_spec. unfold SF64add, SFadd. by rewrite Hx. Qed.

Lemma batch_duration_nan start tr :
  Prim2SF start = S754_nan → Prim2SF (batch_duration start tr) = S754_nan.
Proof.
  unfold batch_duration. generalize (call_traces tr). intros segs.
  revert start. induction segs as [|seg segs IH]; intros start Hs; [done |].
  cbn [fold_left]. apply IH. by apply add_nan_l.
Qed.

Lemma count_ms_nan d : Prim2SF d = S754_nan → count_ms d = None.
Proof. intros Hd. unfold count_ms. by rewrite Hd. Qed.

(** X14.  When the duration accumulator of line 147 starts as a NaN, it is a
    NaN when the batch loop has returned, whatever durations line 157 has
    added to it: the value that line 161 converts to whole milliseconds is a
    NaN, for which the conversion of a [double] to [long long] is not
    defined. *)
Theorem nan_accumulator_stays_nan m lines uninit cfc w r w1 :
  Prim2SF uninit = S754_nan →
  sequence_loop m lines uninit cfc w = Ret r w1 →
  Prim2SF r.1 = S754_nan ∧ count_ms r.1 = None.
Proof.
  intros Hnan Hloop.
  destruct (wp_elim _ _ _ (sequence_loop_totals m lines uninit cfc w))
    as (trb & _ & _ & _ & Hres).
  destruct (Hres _ _ Hloop) as [Hd _].
  assert (Hr : Prim2SF r.1 = S754_nan).
  { rewrite Hd. by apply batch_duration_nan. }
  split; [done | by apply count_ms_nan].
Qed.

End Harness.

(** * A small world

    A data directory with two sequences: [seq01] has three frames and no
    output yet, the output file of [seq02] is already there.  The sequences
    file [seqs.txt] lists them, then an empty line, then [seq03]; [one.txt]
    lists [seq01] alone; [two.txt] lists [seq01] and [seq04], which has one
    frame.  The detector
    proposes one box per non-empty image, as wide as the image file is long;
    the tracker labels every box [car] with identity 1; a detect-and-track
    call takes 2.5 ms, decoding a frame 0.7 ms, anything else 13 ns. *)

Definition demo_imread (o : option string) : string := default "" o.

Definition demo_detect (ds : nat) (image : string) : nat * list Z :=
  (S ds, if decide (image = "") then []
         else [Z.of_nat (String.length image)]).

Definition demo_track (st : nat) (detections : list Z) : nat * list Tracking :=
  (S st, (λ x, mkTracking "car" 1 (mkBB x 20 30 40)) <$> detections).

Definition demo_permits (p : path) : bool := true.

Definition demo_order (l : list path) : list path := reverse l.

Definition demo_data : path := ["data"%string].

Definition demo_lat (e : @Event string) (w : @World string nat nat) : Z :=
  match e with
  | EvDetectAndTrack _ _ => 2500000
  | EvImread _ => 700000
  | _ => 13
  end.

Definition demo_fs : FS :=
  mkFS
    (list_to_set
       (components <$>
          ["data"; "data/config"; "data/seq01"; "data/seq01/images";
           "data/seq02"; "data/seq02/images"; "data/seq04";
           "data/seq04/images"; "data/results";
           "data/results/seq02"; "data/results/seq02/m"]%string))
    (list_to_map
       [(components "data/seq01/images/002.jpg", "xxxxxxxxxxxx"%string);
        (components "data/seq01/images/000.jpg", "xxxxxxxxxx"%string);
        (components "data/seq01/images/001.jpg", ""%string);
        (components "data/seq02/images/000.jpg", "xxxx"%string);
        (components "data/seq04/images/a.png", "xxxxx"%string);
        (components "data/results/seq02/m/track.txt",
         "0,car,1,4,20,30,40,1,-1,-1,-1" +:+ String LF "");
        (components "data/config/seqs.txt",
         "seq01" +:+ String LF ("seq02" +:+ String LF
           ("" +:+ String LF ("seq03" +:+ String LF ""))));
        (components "data/config/one.txt", "seq01" +:+ String LF "");
        (components "data/config/two.txt",
         "seq01" +:+ String LF ("seq04" +:+ String LF ""))]).

Definition demo_world : @World string nat nat := mkWorld demo_fs 1000 0%nat [] [].

(** The model at the small world's collaborators. *)
Definition demo_detectAndTrack (s m : string)
  : @World string nat nat → @Outcome string nat nat (msduration * Z) :=
  detectAndTrack demo_imread demo_detect 0%nat demo_track demo_permits
    demo_order demo_data demo_lat s m.

Definition demo_main (file m : string) (uninit : msduration)
  : @World string nat nat → @Outcome string nat nat unit :=
  main demo_imread demo_detect 0%nat demo_track demo_permits demo_order
    demo_data demo_lat file m uninit.

(** What was printed: the items of each line, with durations and counts. *)
Definition printed {A} (o : @Outcome string nat nat A) : list (list Item) :=
  omap (λ en, match event_of en with EvCout items => Some items | _ => None end)
       (w_trace (world_of o)).

(** The example of the specification: three frames, a car in the first and
    in the third. *)
Example demo_seq01 :
  value_of (demo_detectAndTrack "seq01" "m" demo_world)
  = Some (7.5%float, 3)
  ∧ files (w_fs (world_of (demo_detectAndTrack "seq01" "m" demo_world)))
      !! components "data/results/seq01/m/track.txt"
    = Some ("0,car,1,10,20,30,40,1,-1,-1,-1" +:+ String LF
              ("2,car,1,12,20,30,40,1,-1,-1,-1" +:+ String LF "")).
Proof. split; vm_compute; reflexivity. Qed.

(** The batch [seqs.txt]: the first sequence is processed, the second is
    skipped, and the empty third line ends the run. *)
Example demo_batch :
  halt_of (demo_main "seqs.txt" "m" msduration_zero demo_world)
  = Some (HExit EXIT_FAILURE)
  ∧ calls (w_trace (world_of
             (demo_main "seqs.txt" "m" msduration_zero demo_world)))
    = ["seq01"; "seq02"; ""]%string
  ∧ printed (demo_main "seqs.txt" "m" msduration_zero demo_world)
    = [[IStr "Sequence: "; IStr "seq01"; IStr (String LF "")];
       [IStr "Duration: "; IInt 7; IStr "ms"; IStr " (";
        IDouble (throughput 3 7); IStr ("fps)" +:+ String LF "")];
       [IStr "Sequence: "; IStr "seq02"; IStr (String LF "")];
       [IStr "Duration: "; IInt 0; IStr "ms"; IStr " (";
        IDouble (throughput 0 0); IStr ("fps)" +:+ String LF "")];
       [IStr "Sequence: "; IStr ""; IStr (String LF "")]].
Proof. repeat split; vm_compute; reflexivity. Qed.

(** ** The theorems at the small world *)

Lemma C1_rows_round_trip_witness :
  let out := components "data/results/seq02/m/track.txt" in
  let ts := [mkTracking "car" 1 (mkBB 10 20 30 40);
             mkTracking "bus" 2 (mkBB 5 6 7 8)] in
  (∃ w' : @World string nat nat,
     write_trackings demo_lat out 3 ts demo_world = Ret () w'
     ∧ files (w_fs w') !! out
       = Some (("0,car,1,4,20,30,40,1,-1,-1,-1" +:+ String LF "")
               +:+ declared_rows (pair 3 <$> ts)))
  ∧ frame_rows 3 ts = declared_rows (pair 3 <$> ts)
  ∧ getlines (declared_rows (pair 3 <$> ts))
    = (λ t, String.concat "," (columns 3 t)) <$> ts
  ∧ parse_rows (declared_rows (pair 3 <$> ts)) = Some (pair 3 <$> ts).
Proof.
  cbv zeta.
  edestruct (C1_rows_round_trip demo_lat
               (components "data/results/seq02/m/track.txt") 3
               [mkTracking "car" 1 (mkBB 10 20 30 40);
                mkTracking "bus" 2 (mkBB 5 6 7 8)] demo_world)
    as (Hw & Hd & Hp).
  - vm_compute. reflexivity.
  - destruct Hp as (Hl & _ & Hp); [repeat constructor |].
    split; [exact Hw |]. split; [exact Hd |]. split; [exact Hl | exact Hp].
Defined.

(** The tracker of the small world labels every Tracking [car]. *)
Lemma demo_labels_plain (ds st : nat) (images : list string) :
  Forall (Forall (λ t, plain (label t) = true))
    (tracker_run demo_detect demo_track ds st images).1.1.
Proof.
  revert ds st. induction images as [|image images IH]; intros ds st.
  - constructor.
  - cbn [tracker_run]. unfold demo_detect at 1, demo_track at 1.
    specialize (IH (S ds) (S st)).
    destruct (tracker_run demo_detect demo_track (S ds) (S st) images)
      as [[groups ds'] st'].
    cbn [fst snd] in *. constructor; [|exact IH].
    apply Forall_fmap. by apply Forall_true.
Qed.

Lemma C2_frames_in_path_order_witness :
  ∃ d w' tr names,
    let paths := (λ name, components "data/seq01/images" ++ [name]) <$> names in
    let groups :=
      (sequence_run demo_imread demo_detect 0%nat demo_track demo_world
         paths).1.1 in
    demo_detectAndTrack "seq01" "m" demo_world = Ret (d, 3) w'
    ∧ w_trace w' = tr
    ∧ StronglySorted String.le names
    ∧ reads tr = paths
    ∧ length names = 3%nat
    ∧ files (w_fs w') !! outputPath_of demo_data "seq01" "m"
      = Some (declared_rows (indexed groups))
    ∧ ∃ text,
        files (w_fs w') !! outputPath_of demo_data "seq01" "m" = Some text
        ∧ parse_rows text = Some (indexed groups).
Proof.
  destruct (C2_frames_in_path_order demo_imread demo_detect 0%nat demo_track
              demo_permits demo_order demo_data demo_lat "seq01" "m"
              demo_world)
    as (d & w' & tr & names & Hrun & Htr & Hperm & Hsorted & Hreads & _ & _
        & Hdecl & Hparse).
  - vm_compute. reflexivity.
  - vm_compute. reflexivity.
  - vm_compute. reflexivity.
  - reflexivity.
  - intros l. apply reverse_Permutation.
  - vm_compute. discriminate.
  - exists d, w', tr, names. cbv zeta.
    split; [exact Hrun |]. split; [exact Htr |]. split; [exact Hsorted |].
    split; [exact Hreads |].
    split.
    { apply Permutation_length in Hperm. by rewrite length_fmap in Hperm. }
    split; [exact Hdecl |].
    apply Hparse.
    apply (indexed_Forall (λ t, plain (label t) = true)).
    apply demo_labels_plain.
Defined.

(** The output file of [seq01], read back by a parser of the declared
    layout: the Trackings of frames 0 and 2, each with its frame index. *)
Example demo_seq01_read_back :
  (text ← files (w_fs (world_of (demo_detectAndTrack "seq01" "m" demo_world)))
            !! components "data/results/seq01/m/track.txt";
   parse_rows text)
  = Some [(0, mkTracking "car" 1 (mkBB 10 20 30 40));
          (2, mkTracking "car" 1 (mkBB 12 20 30 40))].
Proof. vm_compute. reflexivity. Qed.

Lemma C3_existing_artifact_skipped_witness :
  ∃ w',
    demo_detectAndTrack "seq02" "m" demo_world = Ret (msduration_zero, 0) w'
    ∧ files (w_fs w') = files demo_fs
    ∧ tracks (w_trace w') = []
    ∧ writes (w_trace w') = [].
Proof.
  destruct (C3_existing_artifact_skipped demo_imread demo_detect 0%nat
              demo_track demo_permits demo_order demo_data demo_lat
              "seq02" "m" demo_world)
    as (w' & tr & Hrun & _ & Hfiles & _ & _ & Htr & _ & _ & _ & Ht & Hw).
  - vm_compute. reflexivity.
  - vm_compute. reflexivity.
  - vm_compute. reflexivity.
  - exists w'. split; [exact Hrun |]. split; [exact Hfiles |].
    rewrite Htr. split; [exact Ht | exact Hw].
Defined.

Lemma C4_zero_duration_throughput_witness :
  printed (report demo_lat "Duration: " msduration_zero 0 demo_world)
  = [[IStr "Duration: "; IInt 0; IStr "ms"; IStr " (";
      IDouble (throughput 0 0); IStr ("fps)" +:+ String LF "")]]
  ∧ PrimFloat.is_nan (throughput 0 0) = true.
Proof.
  destruct (C4_zero_duration_throughput demo_imread demo_detect 0%nat
              demo_track demo_permits demo_order demo_data demo_lat
              "Duration: " msduration_zero 0 demo_world)
    as (Hrun & _ & Hnan & _).
  - vm_compute. reflexivity.
  - split; [by rewrite Hrun | by apply Hnan].
Defined.

(** The state of the small world when the turn of the empty line comes. *)
Definition demo_before_empty_line
  : @Outcome string nat nat (msduration * Z) :=
  sequence_loop demo_imread demo_detect 0%nat demo_track demo_permits
    demo_order demo_data demo_lat "m" ["seq01"; "seq02"]%string
    msduration_zero 0
    (opened demo_data demo_lat "seqs.txt" demo_world).

Lemma C6_missing_images_directory_aborts_witness :
  ∃ w' tr,
    demo_main "seqs.txt" "m" msduration_zero demo_world
    = Stop (HExit EXIT_FAILURE) w'
    ∧ w_fs w' = w_fs (world_of demo_before_empty_line)
    ∧ w_trace w' = w_trace (world_of demo_before_empty_line) ++ tr
    ∧ event_of <$> tr
      = [EvGetline ""; EV_SEQUENCE ""; EvCall "" "m";
         EvIsDirectory (inputDirPath_of demo_data "") false;
         EvStderr OPEN_DIR_MESSAGE ""].
Proof.
  apply (C6_missing_images_directory_aborts demo_imread demo_detect 0%nat
           demo_track demo_permits demo_order demo_data demo_lat
           "seqs.txt" "m" msduration_zero demo_world
           ("seq01" +:+ String LF ("seq02" +:+ String LF
              ("" +:+ String LF ("seq03" +:+ String LF ""))))
           ["seq01"; "seq02"]%string ""%string ["seq03"]%string
           (default (msduration_zero, 0) (value_of demo_before_empty_line))
           (world_of demo_before_empty_line)).
  - vm_compute. reflexivity.
  - vm_compute. reflexivity.
  - vm_compute. reflexivity.
  - vm_compute. reflexivity.
Defined.

Lemma C7_tracker_fresh_per_sequence_witness :
  ∃ r w1 tr paths,
    demo_detectAndTrack "seq01" "m" demo_world = Ret r w1
    ∧ w_trace w1 = w_trace demo_world ++ tr
    ∧ reads tr = paths
    ∧ (tracks tr).*1
      = replicate (length paths) (length (w_trackers demo_world))
    ∧ w_trackers w1
      = w_trackers demo_world
        ++ [(sequence_run demo_imread demo_detect 0%nat demo_track
               demo_world paths).2].
Proof.
  apply (proj2 (proj2
           (C7_tracker_fresh_per_sequence demo_imread demo_detect 0%nat
              demo_track demo_permits demo_order demo_data demo_lat
              "two.txt" "m" msduration_zero demo_world))
           "seq01"%string demo_world).
  - vm_compute. reflexivity.
  - vm_compute. reflexivity.
  - vm_compute. reflexivity.
  - vm_compute. reflexivity.
  - intros l. apply reverse_Permutation.
Defined.

Lemma C8_duration_is_tracking_time_witness :
  ∃ tr,
    w_trace (world_of (demo_detectAndTrack "seq01" "m" demo_world))
    = w_trace demo_world ++ tr
    ∧ 7.5%float = fold_left add_span (tracks tr).*2 msduration_zero
    ∧ length (tracks tr) = length (reads tr)
    ∧ chained (w_clock demo_world) tr
    ∧ w_clock (world_of (demo_detectAndTrack "seq01" "m" demo_world))
      = trace_end (w_clock demo_world) tr.
Proof.
  apply (C8_duration_is_tracking_time demo_imread demo_detect 0%nat
           demo_track demo_permits demo_order demo_data demo_lat
           "seq01" "m" demo_world 7.5%float 3
           (world_of (demo_detectAndTrack "seq01" "m" demo_world))).
  vm_compute. reflexivity.
Defined.

Lemma C9_output_directory_before_check_witness :
  components "data/results/seq01/m"
    ∈ dirs (w_fs (world_of (demo_detectAndTrack "seq01" "m" demo_world)))
  ∧ components "data/results/seq02/m"
    ∈ dirs (w_fs (world_of (demo_detectAndTrack "seq02" "m" demo_world))).
Proof.
  split.
  - destruct (C9_output_directory_before_check demo_imread demo_detect 0%nat
                demo_track demo_permits demo_order demo_data demo_lat
                "seq01" "m" demo_world)
      as (tr & present & rest & _ & _ & Hdir & _ & _).
    + vm_compute. reflexivity.
    + vm_compute. reflexivity.
    + exact Hdir.
  - destruct (C9_output_directory_before_check demo_imread demo_detect 0%nat
                demo_track demo_permits demo_order demo_data demo_lat
                "seq02" "m" demo_world)
      as (tr & present & rest & _ & _ & Hdir & _ & _).
    + vm_compute. reflexivity.
    + vm_compute. reflexivity.
    + exact Hdir.
Defined.

Lemma C10_lines_passed_verbatim_witness :
  ∃ tr1 tr2 rest,
    w_trace (world_of demo_before_empty_line)
    = w_trace (opened demo_data demo_lat "seqs.txt" demo_world) ++ tr1
    ∧ calls tr1 = ["seq01"; "seq02"]%string
    ∧ w_trace (world_of (demo_main "seqs.txt" "m" msduration_zero demo_world))
      = w_trace (world_of demo_before_empty_line) ++ tr2
    ∧ event_of <$> tr2
      = EvGetline "" :: EV_SEQUENCE "" :: EvCall "" "m" :: rest.
Proof.
  edestruct (C10_lines_passed_verbatim demo_imread demo_detect 0%nat
               demo_track demo_permits demo_order demo_data demo_lat
               "seqs.txt" "m" msduration_zero demo_world)
    as (_ & Hnext & _ & _).
  - vm_compute. reflexivity.
  - apply (Hnext ["seq01"; "seq02"]%string ""%string ["seq03"]%string
             (default (msduration_zero, 0) (value_of demo_before_empty_line))
             (world_of demo_before_empty_line)).
    + vm_compute. reflexivity.
    + vm_compute. reflexivity.
Defined.

(** ** Runs of the small world *)

(** C1, as stated, fails for labels that hold a separator.  A label with a
    comma gives a row of twelve columns, which the parser of the layout
    rejects; a label with a line feed gives two lines for one Tracking, and
    they are the very text of two other Trackings, so that nothing can tell
    the two outputs apart. *)
Lemma C1_counterexample_separator_in_label :
  let t := mkTracking "car,red" 1 (mkBB 10 20 30 40) in
  let u := mkTracking ("x,1,0,0,0,0,1,-1,-1,-1" +:+ String LF "0,y") 2
                      (mkBB 0 0 0 0) in
  let v1 := mkTracking "x" 1 (mkBB 0 0 0 0) in
  let v2 := mkTracking "y" 2 (mkBB 0 0 0 0) in
  length (fields (row_line 0 t)) = 12%nat
  ∧ parse_rows (frame_rows 0 [t]) = None
  ∧ length (getlines (frame_rows 0 [u])) = 2%nat
  ∧ frame_rows 0 [u] = frame_rows 0 [v1; v2]
  ∧ parse_rows (frame_rows 0 [u]) = Some [(0, v1); (0, v2)].
Proof. cbv zeta. repeat split; vm_compute; reflexivity. Qed.

(** C5: the total that [main] reports starts from whatever the accumulator
    of line 147 holds.  With the batch [one.txt] (one sequence of 7.5 ms and
    three frames) the report is 7 ms when the accumulator happens to hold
    zero, and 1007 ms when it happens to hold 1000. *)
Lemma C5_total_starts_from_uninitialised_value :
  printed (demo_main "one.txt" "m" msduration_zero demo_world)
  = [[IStr "Sequence: "; IStr "seq01"; IStr (String LF "")];
     [IStr "Duration: "; IInt 7; IStr "ms"; IStr " (";
      IDouble (throughput 3 7); IStr ("fps)" +:+ String LF "")];
     [IStr "Total duration: "; IInt 7; IStr "ms"; IStr " (";
      IDouble (throughput 3 7); IStr ("fps)" +:+ String LF "")]]
  ∧ printed (demo_main "one.txt" "m" (double_of_Z 1000) demo_world)
    = [[IStr "Sequence: "; IStr "seq01"; IStr (String LF "")];
       [IStr "Duration: "; IInt 7; IStr "ms"; IStr " (";
        IDouble (throughput 3 7); IStr ("fps)" +:+ String LF "")];
       [IStr "Total duration: "; IInt 1007; IStr "ms"; IStr " (";
        IDouble (throughput 3 1007); IStr ("fps)" +:+ String LF "")]].
Proof. split; vm_compute; reflexivity. Qed.

(** The tracker objects of a batch of two sequences: the three calls of the
    first sequence use object 0, the call of the second uses object 1. *)
Example demo_two_sequences :
  owners 0 (w_trace (world_of
              (demo_main "two.txt" "m" msduration_zero demo_world)))
  = [(1, 0); (1, 0); (1, 0); (2, 1)]%nat.
Proof. vm_compute. reflexivity. Qed.

(** * The further properties at the small world

    The small world again, with what the front of [main] needs: a models
    directory with the configuration [net.cfg], a [getopt] that passes over
    operands, and a detector constructor that wants both of its files. *)

Definition demo_models : path := ["models"%string].

Definition demo_diagnostic (r : GetoptResult) : string :=
  "%s: invalid option or missing argument" +:+ String LF "".

Definition demo_BBDetector (fs : FS) (modelFilePath weightsFilePath : path)
    (meanValues : string) : option nat :=
  if fs_exists fs modelFilePath && fs_exists fs weightsFilePath
  then Some (String.length meanValues) else None.

Definition demo_config : string :=
  "m" +:+ String LF ("net.prototxt" +:+ String LF
    ("net.caffemodel" +:+ String LF ("104,117,123" +:+ String LF ""))).

(** The small file system with the models, an images directory without
    entries ([seq05]) and a regular file where the output directory of
    [seq06] would have its parent. *)
Definition demo_fs_full : FS :=
  mkFS
    (dirs demo_fs
     ∪ list_to_set
         (components <$>
            ["models"; "models/config"; "data/seq05"; "data/seq05/images";
             "data/seq06"; "data/seq06/images"]%string))
    (<[components "models/config/net.cfg" := demo_config]>
       (<[components "models/net.prototxt" := "layers"%string]>
          (<[components "models/net.caffemodel" := "weights"%string]>
             (<[components "data/results/seq06" := "in the way"%string]>
                (files demo_fs))))).

Definition demo_world_full : @World string nat nat :=
  mkWorld demo_fs_full 1000 0%nat [] [].

Definition demo_main_argv (argv0 : string) (args : list string)
    (uninit : msduration)
  : @World string nat nat → @Outcome string nat nat unit :=
  main_argv demo_imread demo_detect 0%nat demo_track demo_permits demo_order
    demo_data demo_lat demo_models true demo_diagnostic demo_BBDetector
    argv0 args uninit.

(** A whole run from the command line: the configuration gives the model
    type [m], the batch [one.txt] its one sequence. *)
Example demo_command_line :
  halt_of (demo_main_argv "DetectAndTrack" ["-s"; "one.txt"; "-mnet.cfg"]%string
             msduration_zero demo_world_full)
  = Some (HExit EXIT_SUCCESS)
  ∧ printed (demo_main_argv "DetectAndTrack"
               ["-s"; "one.txt"; "-mnet.cfg"]%string
               msduration_zero demo_world_full)
    = [[IStr "Sequence: "; IStr "seq01"; IStr (String LF "")];
       [IStr "Duration: "; IInt 7; IStr "ms"; IStr " (";
        IDouble (throughput 3 7); IStr ("fps)" +:+ String LF "")];
       [IStr "Total duration: "; IInt 7; IStr "ms"; IStr " (";
        IDouble (throughput 3 7); IStr ("fps)" +:+ String LF "")]]
  ∧ w_detector (world_of (demo_main_argv "DetectAndTrack"
                            ["-s"; "one.txt"; "-mnet.cfg"]%string
                            msduration_zero demo_world_full))
    = 14%nat.
Proof. repeat split; vm_compute; reflexivity. Qed.

Lemma detectAndTrack_output_unwritable_witness :
  ∃ w' tr,
    detectAndTrack demo_imread demo_detect 0%nat demo_track (λ _, false)
      demo_order demo_data demo_lat "seq01" "m" demo_world
    = Stop (HExit EXIT_FAILURE) w'
    ∧ files (w_fs w') = files (w_fs demo_world)
    ∧ outputDirPath_of demo_data "seq01" "m" ∈ dirs (w_fs w')
    ∧ w_detector w' = w_detector demo_world
    ∧ w_trackers w' = w_trackers demo_world
    ∧ w_trace w' = w_trace demo_world ++ tr
    ∧ event_of <$> tr
      = prologue demo_data "seq01" "m"
          (fs_is_directory (w_fs demo_world)
             (outputDirPath_of demo_data "seq01" "m"))
        ++ [EvExists (outputPath_of demo_data "seq01" "m") false;
            EvOpenOut (outputPath_of demo_data "seq01" "m") false;
            EvStderr OPEN_FILE_MESSAGE
              (path_str (outputPath_of demo_data "seq01" "m"))].
Proof.
  apply detectAndTrack_output_unwritable.
  - vm_compute. reflexivity.
  - vm_compute. reflexivity.
  - vm_compute. reflexivity.
  - reflexivity.
Defined.

Lemma detectAndTrack_create_directories_throws_witness :
  ∃ w' tr,
    demo_detectAndTrack "seq06" "m" demo_world_full = Stop HThrow w'
    ∧ w_fs w' = w_fs demo_world_full
    ∧ w_detector w' = w_detector demo_world_full
    ∧ w_trackers w' = w_trackers demo_world_full
    ∧ w_trace w' = w_trace demo_world_full ++ tr
    ∧ event_of <$> tr = prologue demo_data "seq06" "m" false.
Proof.
  apply detectAndTrack_create_directories_throws.
  - vm_compute. reflexivity.
  - vm_compute. reflexivity.
  - vm_compute. reflexivity.
Defined.

Lemma detectAndTrack_again_is_skipped_witness :
  ∃ w2 tr,
    demo_detectAndTrack "seq01" "m"
      (world_of (demo_detectAndTrack "seq01" "m" demo_world))
    = Ret (msduration_zero, 0) w2
    ∧ w_fs w2 = w_fs (world_of (demo_detectAndTrack "seq01" "m" demo_world))
    ∧ w_detector w2
      = w_detector (world_of (demo_detectAndTrack "seq01" "m" demo_world))
    ∧ w_trackers w2
      = w_trackers (world_of (demo_detectAndTrack "seq01" "m" demo_world))
    ∧ w_trace w2
      = w_trace (world_of (demo_detectAndTrack "seq01" "m" demo_world)) ++ tr
    ∧ event_of <$> tr
      = [EvCall "seq01" "m";
         EvIsDirectory (inputDirPath_of demo_data "seq01") true;
         EvIsDirectory (outputDirPath_of demo_data "seq01" "m") true;
         EvExists (outputPath_of demo_data "seq01" "m") true;
         EvStderr FILE_EXISTS_MESSAGE
           (path_str (outputPath_of demo_data "seq01" "m"))].
Proof.
  apply (detectAndTrack_again_is_skipped demo_imread demo_detect 0%nat
           demo_track demo_permits demo_order demo_data demo_lat
           "seq01" "m" demo_world (7.5%float, 3)).
  vm_compute. reflexivity.
Defined.

Lemma detectAndTrack_empty_sequence_witness :
  ∃ w' tr,
    demo_detectAndTrack "seq05" "m" demo_world_full
    = Ret (msduration_zero, 0) w'
    ∧ files (w_fs w')
      = <[outputPath_of demo_data "seq05" "m" := ""%string]>
          (files (w_fs demo_world_full))
    ∧ w_detector w' = w_detector demo_world_full
    ∧ w_trackers w' = w_trackers demo_world_full ++ [0%nat]
    ∧ w_trace w' = w_trace demo_world_full ++ tr
    ∧ reads tr = [] ∧ tracks tr = [].
Proof.
  apply detectAndTrack_empty_sequence.
  - vm_compute. reflexivity.
  - vm_compute. reflexivity.
  - vm_compute. reflexivity.
  - reflexivity.
  - intros l. apply reverse_Permutation.
  - vm_compute. reflexivity.
Defined.

Lemma main_sequences_file_missing_witness :
  ∃ w' tr,
    demo_main "nosuch.txt" "m" msduration_zero demo_world
    = Stop (HExit EXIT_FAILURE) w'
    ∧ w_fs w' = w_fs demo_world
    ∧ w_detector w' = w_detector demo_world
    ∧ w_trackers w' = w_trackers demo_world
    ∧ w_trace w' = w_trace demo_world ++ tr
    ∧ event_of <$> tr
      = [EvOpenIn (sequencesFilePath_of demo_data "nosuch.txt") false;
         EvStderr OPEN_FILE_MESSAGE "nosuch.txt"].
Proof.
  apply main_sequences_file_missing. vm_compute. reflexivity.
Defined.

(** The batch loop of [two.txt], started with 1000 ms in the accumulator. *)
Definition demo_loop_two : @Outcome string nat nat (msduration * Z) :=
  sequence_loop demo_imread demo_detect 0%nat demo_track demo_permits
    demo_order demo_data demo_lat "m" ["seq01"; "seq04"]%string
    (double_of_Z 1000) 0
    (opened demo_data demo_lat "two.txt" demo_world).

Lemma main_reports_totals_witness :
  ∃ w' tr,
    demo_main "two.txt" "m" (double_of_Z 1000) demo_world
    = Stop (HExit EXIT_SUCCESS) w'
    ∧ w_trace w' = w_trace demo_world ++ tr
    ∧ (default (msduration_zero, 0) (value_of demo_loop_two)).1
      = batch_duration (double_of_Z 1000) tr
    ∧ (default (msduration_zero, 0) (value_of demo_loop_two)).2
      = batch_frames 0 tr
    ∧ ∃ body,
        event_of <$> tr
        = body ++ [EvClose (sequencesFilePath_of demo_data "two.txt");
                   EV_TOTAL 1010
                     (default (msduration_zero, 0) (value_of demo_loop_two)).2].
Proof.
  apply (main_reports_totals demo_imread demo_detect 0%nat demo_track
           demo_permits demo_order demo_data demo_lat "two.txt" "m"
           (double_of_Z 1000) demo_world
           ("seq01" +:+ String LF ("seq04" +:+ String LF ""))
           (default (msduration_zero, 0) (value_of demo_loop_two))
           (world_of demo_loop_two) 1010).
  - vm_compute. reflexivity.
  - vm_compute. reflexivity.
  - vm_compute. reflexivity.
Defined.

(** The totals of that run: 1000 ms to begin with, 7.5 ms for the three
    frames of [seq01] and 2.5 ms for the frame of [seq04]. *)
Example demo_totals :
  printed (demo_main "two.txt" "m" (double_of_Z 1000) demo_world)
  = [[IStr "Sequence: "; IStr "seq01"; IStr (String LF "")];
     [IStr "Duration: "; IInt 7; IStr "ms"; IStr " (";
      IDouble (throughput 3 7); IStr ("fps)" +:+ String LF "")];
     [IStr "Sequence: "; IStr "seq04"; IStr (String LF "")];
     [IStr "Duration: "; IInt 2; IStr "ms"; IStr " (";
      IDouble (throughput 1 2); IStr ("fps)" +:+ String LF "")];
     [IStr "Total duration: "; IInt 1010; IStr "ms"; IStr " (";
      IDouble (throughput 4 1010); IStr ("fps)" +:+ String LF "")]]
  ∧ count_ms (batch_duration (double_of_Z 1000)
                (w_trace (world_of (demo_main "two.txt" "m"
                                      (double_of_Z 1000) demo_world))))
    = Some 1010
  ∧ batch_frames 0
      (w_trace (world_of (demo_main "two.txt" "m" (double_of_Z 1000)
                            demo_world)))
    = 4.
Proof. repeat split; vm_compute; reflexivity. Qed.

Lemma main_argv_usage_witness :
  ∃ w' tr,
    demo_main_argv "DetectAndTrack" ["-s"; "one.txt"; "-m"]%string
      msduration_zero demo_world_full
    = Stop (HExit EXIT_FAILURE) w'
    ∧ w_fs w' = w_fs demo_world_full
    ∧ w_detector w' = w_detector demo_world_full
    ∧ w_trackers w' = w_trackers demo_world_full
    ∧ w_trace w' = w_trace demo_world_full ++ tr
    ∧ last (event_of <$> tr) = Some (EvStderr USAGE_MESSAGE "DetectAndTrack")
    ∧ Forall (λ e, ∃ format, e = EvStderr format "DetectAndTrack")
        (event_of <$> tr).
Proof.
  apply main_argv_usage. left.
  apply Exists_cons_tl, Exists_cons_hd. reflexivity.
Defined.

Lemma main_argv_model_config_missing_witness :
  ∃ w' tr,
    demo_main_argv "DetectAndTrack" ["-s"; "one.txt"; "-m"; "other.cfg"]%string
      msduration_zero demo_world_full
    = Stop (HExit EXIT_FAILURE) w'
    ∧ w_fs w' = w_fs demo_world_full
    ∧ w_detector w' = w_detector demo_world_full
    ∧ w_trackers w' = w_trackers demo_world_full
    ∧ w_trace w' = w_trace demo_world_full ++ tr
    ∧ event_of <$> tr
      = [EvOpenIn (components "models/config/other.cfg") false;
         EvStderr OPEN_FILE_MESSAGE "/models/config/other.cfg"].
Proof.
  apply (main_argv_model_config_missing demo_imread demo_detect 0%nat
           demo_track demo_permits demo_order demo_data demo_lat demo_models
           true demo_diagnostic demo_BBDetector "DetectAndTrack"
           ["-s"; "one.txt"; "-m"; "other.cfg"]%string msduration_zero
           demo_world_full).
  - vm_compute. split; [repeat constructor | split; discriminate].
  - vm_compute. reflexivity.
Defined.

Lemma main_argv_runs_batch_witness :
  ∃ w1 tr,
    demo_main_argv "DetectAndTrack"
      ["-sseqs.txt"; "-m"; "net.cfg"; "-s"; "one.txt"]%string
      msduration_zero demo_world_full
    = demo_main "one.txt" "m" msduration_zero w1
    ∧ w_fs w1 = w_fs demo_world_full
    ∧ w_detector w1 = 11%nat
    ∧ w_trackers w1 = w_trackers demo_world_full
    ∧ w_trace w1 = w_trace demo_world_full ++ tr
    ∧ event_of <$> tr
      = EvOpenIn (components "models/config/net.cfg") true
        :: (EvGetline <$> ["m"; "net.prototxt"; "net.caffemodel";
                           "104,117,123"]%string).
Proof.
  apply (main_argv_runs_batch demo_imread demo_detect 0%nat demo_track
           demo_permits demo_order demo_data demo_lat demo_models true
           demo_diagnostic demo_BBDetector "DetectAndTrack"
           ["-sseqs.txt"; "-m"; "net.cfg"; "-s"; "one.txt"]%string
           msduration_zero demo_world_full demo_config 11%nat).
  - vm_compute. split; [repeat constructor | split; discriminate].
  - vm_compute. reflexivity.
  - vm_compute. reflexivity.
Defined.

Lemma option_loop_last_wins_witness :
  let opts := [(false, "s"%char, "seqs.txt"%string);
               (true, "m"%char, "net.cfg"%string);
               (true, "s"%char, "one.txt"%string)] in
  option_loop demo_lat demo_diagnostic "DetectAndTrack"
    (getopt_results true "s:m:" None (command_line opts ++ []))
    "" "" demo_world
  = Ret (default ""%string (last (values "s"%char opts)),
         default ""%string (last (values "m"%char opts))) demo_world
  ∧ option_loop demo_lat demo_diagnostic "DetectAndTrack"
      (getopt_results true "s:m:" None
         (command_line opts ++ ["--"; "-s"; "late.txt"]%string))
      "" "" demo_world
    = Ret (default ""%string (last (values "s"%char opts)),
           default ""%string (last (values "m"%char opts))) demo_world.
Proof.
  cbv zeta.
  apply (option_loop_last_wins demo_lat true demo_diagnostic "DetectAndTrack"
           [(false, "s"%char, "seqs.txt"%string);
            (true, "m"%char, "net.cfg"%string);
            (true, "s"%char, "one.txt"%string)]
           ["-s"; "late.txt"]%string demo_world).
  repeat constructor; simpl; auto; discriminate.
Defined.

Lemma report_sub_millisecond_witness :
  let line := EvCout [IStr "Duration: "; IInt 0; IStr "ms"; IStr " (";
                      IDouble (throughput 3 0);
                      IStr ("fps)" +:+ String LF "")] in
  report demo_lat "Duration: " 0.75%float 3 demo_world
  = Ret () (after demo_world line (w_clock demo_world + demo_lat line demo_world))
  ∧ (Prim2SF (throughput 3 0) = S754_nan
     ∨ ∃ s, Prim2SF (throughput 3 0) = S754_infinity s).
Proof.
  cbv zeta.
  apply (report_sub_millisecond demo_lat "Duration: " 0.75%float 3 demo_world).
  vm_compute. reflexivity.
Defined.

(** The batch loop of [one.txt], started with a NaN in the accumulator. *)
Definition demo_loop_nan : @Outcome string nat nat (msduration * Z) :=
  sequence_loop demo_imread demo_detect 0%nat demo_track demo_permits
    demo_order demo_data demo_lat "m" ["seq01"]%string nan 0
    (opened demo_data demo_lat "one.txt" demo_world).

Lemma nan_accumulator_stays_nan_witness :
  Prim2SF (default (msduration_zero, 0) (value_of demo_loop_nan)).1 = S754_nan
  ∧ count_ms (default (msduration_zero, 0) (value_of demo_loop_nan)).1 = None.
Proof.
  apply (nan_accumulator_stays_nan demo_imread demo_detect 0%nat demo_track
           demo_permits demo_order demo_data demo_lat "m" ["seq01"]%string
           nan 0 (opened demo_data demo_lat "one.txt" demo_world)
           (default (msduration_zero, 0) (value_of demo_loop_nan))
           (world_of demo_loop_nan)).
  - vm_compute. reflexivity.
  - vm_compute. reflexivity.
Defined.
